(** * vast-inspector: the Ad Event Tracking Engine

    A shallow embedding of the tracking core of vast-inspector: the
    [Tracker] (src/tracker.js), the [VideoPlayer] (src/video-player.js),
    the media files of the [VASTParser] (src/vast-parser.js) and the
    [SIMIDBridge], with the properties of macro substitution, of the
    firing ledger, of the playback lifecycle and of the bridge.

    The second half of the development covers what stands around that
    core: the statistics of the ledger, the document walk of the parser
    ([DOM], [VAST]: from the [Ad] elements to the catalog of tracking URLs
    the player is loaded with) and the two list helpers of the page
    ([UIController], src/ui.js).

    Conventions of the embedding.
    - A JavaScript string is a [string] of bytes; a character outside ASCII
      is a run of bytes >= 128, which no ASCII pattern matches.
    - [Set] is a [gset string]; arrays are lists.
    - An [async] function is split at its [await]: the part before it runs
      inside the caller's task, the part after it runs in a later task, once
      the awaited promise has settled.  The suspended activations are kept
      in the [inflight] list of the world.
    - A playback time is a JavaScript number: an IEEE 754 binary64 value
      ([Double.t], the [spec_float] of the standard library, with its
      division and comparison); [duration] is NaN while it is unknown. *)

From Stdlib Require Import String Ascii List NArith ZArith QArith Bool Lia.
From Stdlib Require Import DecimalString DecimalPos DecimalN SpecFloat.
From stdpp Require Import gmap strings.

Import ListNotations.
Open Scope string_scope.
Open Scope list_scope.

(** ** JavaScript values and strings *)

Module JS.

(** The values a context property or a message field can hold. *)
Inductive value :=
| VUndefined
| VNull
| VBool (b : bool)
| VNumber (n : N)
| VString (s : string).

(** [ToBoolean]. *)
Definition truthy (v : value) : bool :=
  match v with
  | VUndefined | VNull => false
  | VBool b => b
  | VNumber n => negb (N.eqb n 0)
  | VString s => negb (String.eqb s "")
  end.

(** [a || b]. *)
Definition or_else (a b : value) : value := if truthy a then a else b.

Definition string_of_N (n : N) : string := NilZero.string_of_uint (N.to_uint n).

(** [ToString]. *)
Definition toString (v : value) : string :=
  match v with
  | VUndefined => "undefined"
  | VNull => "null"
  | VBool true => "true"
  | VBool false => "false"
  | VNumber n => string_of_N n
  | VString s => s
  end.

(** [===] on values. *)
Definition strict_eq (a b : value) : bool :=
  match a, b with
  | VUndefined, VUndefined => true
  | VNull, VNull => true
  | VBool x, VBool y => Bool.eqb x y
  | VNumber x, VNumber y => N.eqb x y
  | VString x, VString y => String.eqb x y
  | _, _ => false
  end.

Definition is_lower (c : ascii) : bool :=
  let n := nat_of_ascii c in (97 <=? n)%nat && (n <=? 122)%nat.
Definition is_upper (c : ascii) : bool :=
  let n := nat_of_ascii c in (65 <=? n)%nat && (n <=? 90)%nat.
Definition is_digit (c : ascii) : bool :=
  let n := nat_of_ascii c in (48 <=? n)%nat && (n <=? 57)%nat.
Definition is_letter (c : ascii) : bool := is_lower c || is_upper c.

(** Canonicalisation of a character by a regular expression with the [i]
    flag and without the [u] flag: ASCII letters are upper-cased, and a
    character outside ASCII never canonicalises to an ASCII one. *)
Definition upper (c : ascii) : ascii :=
  if is_lower c then ascii_of_nat (nat_of_ascii c - 32) else c.

Definition eqb_ci_char (a b : ascii) : bool := Ascii.eqb (upper a) (upper b).

Fixpoint take (n : nat) (s : string) : string :=
  match n, s with
  | S k, String c r => String c (take k r)
  | _, _ => ""
  end.

Fixpoint drop (n : nat) (s : string) : string :=
  match n, s with
  | S k, String _ r => drop k r
  | _, _ => s
  end.

Fixpoint all (p : ascii -> bool) (s : string) : bool :=
  match s with
  | "" => true
  | String c r => p c && all p r
  end.

(** [prefix_ci pat s]: the literal [pat] matches at the start of [s],
    ignoring ASCII case. *)
Fixpoint prefix_ci (pat s : string) : bool :=
  match pat, s with
  | "", _ => true
  | String p pat', String c s' => eqb_ci_char p c && prefix_ci pat' s'
  | String _ _, "" => false
  end.

(** Equality ignoring ASCII case. *)
Fixpoint eqb_ci (a b : string) : bool :=
  match a, b with
  | "", "" => true
  | String x a', String y b' => eqb_ci_char x y && eqb_ci a' b'
  | _, _ => false
  end.

(** [GetSubstitution] for a pattern without capture groups: in the
    replacement text [$$] is a dollar sign, [$&] the matched text,
    [$`] the text before the match and [$'] the text after it; [$1] and
    the like stay as they are, there being no group. *)
Fixpoint getSubstitution (matched before after tmpl : string) : string :=
  match tmpl with
  | "" => ""
  | String "$" (String "$" r) => String "$" (getSubstitution matched before after r)
  | String "$" (String "&" r) => matched ++ getSubstitution matched before after r
  | String "$" (String "`" r) => before ++ getSubstitution matched before after r
  | String "$" (String "'" r) => after ++ getSubstitution matched before after r
  | String c r => String c (getSubstitution matched before after r)
  end.

(** The scan of [str.replace(new RegExp(lit, 'gi'), tmpl)] for a literal
    [pat]: [pre] is the text already scanned, [skip] the number of
    characters of the current match still to step over.  Matches are
    taken leftmost first and do not overlap.  [pat] is never empty
    here. *)
Fixpoint replaceFrom (pat tmpl pre : string) (skip : nat) (s : string) : string :=
  match s with
  | "" => ""
  | String c s' =>
    match skip with
    | S k => replaceFrom pat tmpl (pre ++ String c "") k s'
    | O =>
      if prefix_ci pat s
      then getSubstitution (take (String.length pat) s) pre
             (drop (String.length pat) s) tmpl
           ++ replaceFrom pat tmpl (pre ++ String c "") (pred (String.length pat)) s'
      else String c (replaceFrom pat tmpl (pre ++ String c "") 0 s')
    end
  end.

Definition replaceAll_ci (pat tmpl s : string) : string :=
  replaceFrom pat tmpl "" 0 s.

(** The shape of a key of the macro table: a bracket, letters, a
    bracket. *)
Fixpoint token_body (r : string) : bool :=
  match r with
  | "" => false
  | String c r' =>
    match r' with
    | "" => Ascii.eqb c "]"
    | _ => is_letter c && token_body r'
    end
  end.

Definition is_token (p : string) : bool :=
  match p with
  | String "[" r => token_body r
  | _ => false
  end.

(** A bracketed placeholder: a bracket, any characters but brackets, a
    bracket. *)
Fixpoint bracket_body (r : string) : bool :=
  match r with
  | "" => false
  | String c r' =>
    match r' with
    | "" => Ascii.eqb c "]"
    | _ => negb (Ascii.eqb c "[") && negb (Ascii.eqb c "]") && bracket_body r'
    end
  end.

Definition is_bracketed (u : string) : bool :=
  match u with
  | String "[" r => bracket_body r
  | _ => false
  end.

(** A replacement text without a dollar sign is inserted as it is. *)
Definition dollar_free (tmpl : string) : bool :=
  all (fun c => negb (Ascii.eqb c "$")) tmpl.

(** [q] has no character that matches [k]. *)
Definition avoids (q : string) (k : ascii) : Prop :=
  all (fun p => negb (eqb_ci_char p k)) q = true.

(** No match starts inside [K] when [c] follows. *)
Fixpoint no_start (p K c : string) : Prop :=
  match K with
  | "" => True
  | String _ K' => prefix_ci p (K ++ c) = false /\ no_start p K' c
  end.

(** [K] separates what is before it from what is after it in a scan for
    [p]: no match reaches into it and none starts inside it. *)
Definition sep (p K : string) : Prop :=
  (exists k0 K', K = String k0 K' /\ avoids (drop 1 p) k0) /\
  forall c, no_start p K c.

Definition hex_digit (n : nat) : ascii :=
  if (n <? 10)%nat then ascii_of_nat (48 + n) else ascii_of_nat (55 + n).

Definition uri_unreserved (c : ascii) : bool :=
  is_letter c || is_digit c ||
  existsb (Ascii.eqb c) ["-"; "_"; "."; "!"; "~"; "*"; "'"; "("; ")"]%char.

(** [encodeURIComponent] on a well-formed string, byte by byte. *)
Fixpoint encodeURIComponent (s : string) : string :=
  match s with
  | "" => ""
  | String c r =>
    if uri_unreserved c then String c (encodeURIComponent r)
    else String "%" (String (hex_digit (nat_of_ascii c / 16))
           (String (hex_digit (nat_of_ascii c mod 16)) (encodeURIComponent r)))
  end.

End JS.

(** ** JavaScript numbers *)

Module Double.

(** A number is a binary64 value: 53 bits of precision, infinities at
    exponent 1024.  The operations are those of the standard library's
    specification of IEEE 754 arithmetic; the numbers a browser reports
    are the values that satisfy its [valid_binary]. *)
Definition prec : Z := 53.
Definition emax : Z := 1024.

Definition t := spec_float.

(** [x / y], rounded to the nearest number, ties to even. *)
Definition div (x y : t) : t := SFdiv prec emax x y.

(** [x >= y] and [x < y]: false when either side is NaN. *)
Definition geb (x y : t) : bool := SFleb y x.
Definition ltb (x y : t) : bool := SFltb x y.

(** [!x]: true of NaN and of the two zeros. *)
Definition falsy (x : t) : bool :=
  match x with
  | S754_nan | S754_zero _ => true
  | _ => false
  end.

(** [x || 0]. *)
Definition or_zero (x : t) : t := if falsy x then S754_zero false else x.

(** The number [m * 2^e], and the integer [z]. *)
Definition dyadic (m e : Z) : t := binary_normalize prec emax m e false.
Definition of_Z (z : Z) : t := dyadic z 0.

(** The number nearest to [n / d], which is what the decimal literal of
    that value denotes (for [n] and [d] below [2^53]). *)
Definition ratio (n d : Z) : t := div (of_Z n) (of_Z d).

End Double.

(** ** Tracker: macro substitution and the firing ledger (class [Tracker]) *)

Module Tracker.

(** The [context] argument of [replaceMacros]; a property that is not
    set is [VUndefined]. *)
Record Context := {
  videoTime : JS.value;
  assetURI : JS.value;
  playerWidth : JS.value;
  playerHeight : JS.value;
  playerSize : JS.value
}.

(** [context = {}], the default. *)
Definition noContext : Context :=
  {| videoTime := JS.VUndefined; assetURI := JS.VUndefined;
     playerWidth := JS.VUndefined; playerHeight := JS.VUndefined;
     playerSize := JS.VUndefined |}.

(** What one call of [replaceMacros] reads from the browser: the clock,
    three draws of [Math.floor(Math.random() * 1000000000)] in the order
    of the object literal, [navigator.userAgent] and [window.location]. *)
Record Env := {
  dateNow : N;
  random1 : N;
  random2 : N;
  random3 : N;
  userAgent : string;
  href : string;
  hostname : string
}.

(** The [macros] object, in the order [Object.entries] lists it. *)
Definition macros (env : Env) (ctx : Context) : list (string * JS.value) :=
  [ ("[TIMESTAMP]", JS.VNumber (dateNow env));
    ("[CACHEBUSTERS]", JS.VNumber (random1 env));
    ("[CACHEBUSTER]", JS.VNumber (random2 env));
    ("[CONTENTPLAYHEAD]", JS.or_else (videoTime ctx) (JS.VString "00:00:00.000"));
    ("[ASSETURI]", JS.or_else (assetURI ctx) (JS.VString ""));
    ("[DEVICEID]", JS.VString "");
    ("[DEVICEUA]", JS.VString (JS.encodeURIComponent (userAgent env)));
    ("[LIMITADTRACKING]", JS.VString "0");
    ("[PLAYERNAME]", JS.VString "VAST-Inspector");
    ("[PLAYERWIDTH]", JS.or_else (playerWidth ctx) (JS.VString ""));
    ("[PLAYERHEIGHT]", JS.or_else (playerHeight ctx) (JS.VString ""));
    ("[PLAYERSIZE]", JS.or_else (playerSize ctx) (JS.VString ""));
    ("[RANDOM]", JS.VNumber (random3 env));
    ("[PAGEURL]", JS.VString (JS.encodeURIComponent (href env)));
    ("[DOMAIN]", JS.VString (JS.encodeURIComponent (hostname env))) ].

(** The loop [for (const [macro, value] of Object.entries(macros))]: the
    regular expression built from [macro] has its brackets escaped, so it
    is the literal [macro], global and case-insensitive. *)
Definition replaceEach (ms : list (string * JS.value)) (url : string) : string :=
  fold_left (fun acc mv => JS.replaceAll_ci (fst mv) (JS.toString (snd mv)) acc) ms url.

Definition replaceMacros (env : Env) (ctx : Context) (url : string) : string :=
  if String.eqb url "" then url else replaceEach (macros env ctx) url.

(** The keys of [macros]. *)
Definition tokens : list string :=
  [ "[TIMESTAMP]"; "[CACHEBUSTERS]"; "[CACHEBUSTER]"; "[CONTENTPLAYHEAD]";
    "[ASSETURI]"; "[DEVICEID]"; "[DEVICEUA]"; "[LIMITADTRACKING]"; "[PLAYERNAME]";
    "[PLAYERWIDTH]"; "[PLAYERHEIGHT]"; "[PLAYERSIZE]"; "[RANDOM]"; "[PAGEURL]";
    "[DOMAIN]" ].

(** [tok] is, up to case, a key of the table. *)
Definition known (tok : string) : bool :=
  existsb (fun m => JS.eqb_ci m tok) tokens.

(** The keys whose value is generated by the call, with the number drawn. *)
Definition generated (env : Env) : list (string * N) :=
  [ ("[TIMESTAMP]", dateNow env); ("[CACHEBUSTERS]", random1 env);
    ("[CACHEBUSTER]", random2 env); ("[RANDOM]", random3 env) ].

(** A context whose values hold no dollar sign. *)
Definition plain (ctx : Context) : Prop :=
  Forall (fun v => JS.dollar_free (JS.toString v) = true)
    [videoTime ctx; assetURI ctx; playerWidth ctx; playerHeight ctx; playerSize ctx].

(** All replacement texts of a table are inserted as they are. *)
Definition plain_table (ms : list (string * JS.value)) : Prop :=
  Forall (fun mv => JS.dollar_free (JS.toString (snd mv)) = true) ms.

(** A URL cut into literal text and bracketed placeholders. *)
Inductive Segment :=
| Lit (s : string)
| Tok (u : string).

Definition text (g : Segment) : string :=
  match g with Lit s => s | Tok u => u end.

Fixpoint join (l : list string) : string :=
  match l with
  | [] => ""
  | s :: r => s ++ join r
  end.

Definition render (gs : list Segment) : string := join (map text gs).

Definition no_open (s : string) : bool :=
  JS.all (fun c => negb (Ascii.eqb c "[")) s.

(** The literal text has no opening bracket, and the placeholders are
    bracketed, with no bracket inside. *)
Definition well_formed (gs : list Segment) : Prop :=
  Forall (fun g => match g with
                   | Lit s => no_open s = true
                   | Tok u => JS.is_bracketed u = true
                   end) gs.

(** The value of the first key of the table that is [u] up to case. *)
Fixpoint lookup_ci (ms : list (string * JS.value)) (u : string) : option JS.value :=
  match ms with
  | [] => None
  | (p, v) :: r => if JS.eqb_ci p u then Some v else lookup_ci r u
  end.

(** What a segment stands for under a table: a placeholder of the table
    is its value, any other segment is itself. *)
Definition expandWith (ms : list (string * JS.value)) (g : Segment) : string :=
  match g with
  | Lit s => s
  | Tok u => match lookup_ci ms u with
             | Some v => JS.toString v
             | None => u
             end
  end.

Definition expand (env : Env) (ctx : Context) (g : Segment) : string :=
  expandWith (macros env ctx) g.

(** One replacement, segment by segment: a placeholder that is the
    pattern [p] up to case becomes the text [v]. *)
Definition replaceSegment (p v : string) (g : Segment) : Segment :=
  match g with
  | Tok u => if JS.eqb_ci p u then Lit v else g
  | Lit _ => g
  end.

(** A text that is inserted as it is and brings in no placeholder. *)
Definition inert (s : string) : bool := JS.dollar_free s && no_open s.

Definition inert_table (ms : list (string * JS.value)) : Prop :=
  Forall (fun mv => inert (JS.toString (snd mv)) = true) ms.

(** A context whose values are inert. *)
Definition inert_context (ctx : Context) : Prop :=
  Forall (fun v => inert (JS.toString v) = true)
    [videoTime ctx; assetURI ctx; playerWidth ctx; playerHeight ctx; playerSize ctx].

Inductive Status := success | failed.

(** An entry of [trackingLog].  A failed entry has no [originalURL] and
    carries the error message. *)
Record FiringRecord := {
  url : string;
  originalURL : option string;
  type : string;
  event : option string;
  timestamp : N;
  status : Status;
  error : option string
}.

Record t := {
  firedTrackers : gset string;
  trackingLog : list FiringRecord
}.

(** [new Tracker()]. *)
Definition create : t := {| firedTrackers := ∅; trackingLog := [] |}.

(** How the image behind [sendTracking] ends: it loads, it fails to load
    (the usual end of a tracking pixel), or the five seconds pass. *)
Inductive ImageOutcome := ImgLoad | ImgError | ImgTimeout.

Inductive Settled :=
| Resolved (v : bool)
| Rejected (message : string).

(** [sendTracking]: the promise is settled by [img.onload], by
    [img.onerror] or by the timer, whichever comes first; each calls
    [resolve(true)], and [reject] is never called. *)
Definition sendTracking (o : ImageOutcome) : Settled :=
  match o with
  | ImgLoad => Resolved true
  | ImgError => Resolved true
  | ImgTimeout => Resolved true
  end.

(** An activation of [fireTracker] suspended at
    [await this.sendTracking(processedURL)]; the request for
    [processedURL] has been issued ([img.src = url]). *)
Record Suspended := {
  s_url : string;
  s_type : string;
  s_event : option string;
  s_timestamp : N;
  s_processedURL : string
}.

(** [fireTracker] up to its [await].  [None] is the early
    [return false]. *)
Definition fireTracker_start (env : Env) (now : N) (u ty : string)
    (ev : option string) (ctx : Context) (tr : t) : option Suspended :=
  if String.eqb u "" || bool_decide (u ∈ firedTrackers tr) then None
  else Some {| s_url := u; s_type := ty; s_event := ev; s_timestamp := now;
               s_processedURL := replaceMacros env ctx u |}.

(** [fireTracker] after its [await]: the rest of the [try] block when
    the promise resolved, the [catch] block when it was rejected.  The
    result is the new ledger and the value the call returns. *)
Definition fireTracker_resume (now : N) (s : Suspended) (r : Settled) (tr : t)
    : t * bool :=
  match r with
  | Resolved _ =>
    ({| firedTrackers := {[ s_url s ]} ∪ firedTrackers tr;
        trackingLog := trackingLog tr ++
          [ {| url := s_processedURL s; originalURL := Some (s_url s);
               type := s_type s; event := s_event s;
               timestamp := s_timestamp s; status := success;
               error := None |} ] |}, true)
  | Rejected msg =>
    ({| firedTrackers := firedTrackers tr;
        trackingLog := trackingLog tr ++
          [ {| url := s_url s; originalURL := None;
               type := s_type s; event := s_event s;
               timestamp := now; status := failed;
               error := Some msg |} ] |}, false)
  end.

Definition hasFired (u : string) (tr : t) : bool :=
  bool_decide (u ∈ firedTrackers tr).

Definition getFiredCount (tr : t) : nat := size (firedTrackers tr).

(** [reset]. *)
Definition reset (tr : t) : t := {| firedTrackers := ∅; trackingLog := [] |}.

(** One call of [fireTracker] made by a batch helper. *)
Record Call := {
  c_url : string;
  c_type : string;
  c_event : option string
}.

(** An element of [trackingURLs.impressions]: a string, or the object
    the parser builds. *)
Inductive Impression :=
| ImpString (u : string)
| ImpObject (u : string) (id : option string).

(** An element of [trackingURLs.clicks]. *)
Inductive Click :=
| ClickString (u : string)
| ClickObject (ty : string) (u : string).

(** An element of [trackingURLs.tracking]. *)
Record EventTracker := {
  et_event : string;
  et_url : string
}.

(** The calls [fireImpressions] maps its argument to. *)
Definition impressionCalls (l : list Impression) : list Call :=
  map (fun i => {| c_url := match i with ImpString u => u | ImpObject u _ => u end;
                   c_type := "impression"; c_event := None |}) l.

(** The calls [fireClicks] maps its argument to; [click.type || null]. *)
Definition clickCalls (l : list Click) : list Call :=
  map (fun c => match c with
                | ClickString u => {| c_url := u; c_type := "click"; c_event := None |}
                | ClickObject ty u =>
                  {| c_url := u; c_type := "click";
                     c_event := if String.eqb ty "" then None else Some ty |}
                end) l.

(** The calls [fireEventTrackers] maps its argument to. *)
Definition eventCalls (ev : string) (l : list EventTracker) : list Call :=
  map (fun t => {| c_url := et_url t; c_type := "event"; c_event := Some ev |})
      (List.filter (fun t => String.eqb (et_event t) ev) l).

(** The ledger together with the activations of [fireTracker] that wait
    for their request to end. *)
Record World := {
  ledger : t;
  inflight : list Suspended
}.

Definition fresh : World := {| ledger := create; inflight := [] |}.

(** What a handler reads from the browser while it runs: the clock, and
    the [Env] of the [i]-th call of [fireTracker] it makes. *)
Record Ambient := {
  clock : N;
  env_at : nat -> Env
}.

(** [calls.map(c => this.fireTracker(...))]: every call runs up to its
    [await] before the next one starts, and none resumes before the
    handler that made the calls has returned.  The result lists the
    requests issued, in order. *)
Fixpoint fireAll (amb : Ambient) (ctx : Context) (i : nat) (calls : list Call)
    (w : World) : World * list Suspended :=
  match calls with
  | [] => (w, [])
  | c :: rest =>
    match fireTracker_start (env_at amb i) (clock amb) (c_url c) (c_type c)
            (c_event c) ctx (ledger w) with
    | None => fireAll amb ctx (S i) rest w
    | Some s =>
      let '(w', issued) :=
        fireAll amb ctx (S i) rest
          {| ledger := ledger w; inflight := inflight w ++ [s] |} in
      (w', s :: issued)
    end
  end.

Definition fireImpressions (amb : Ambient) (l : list Impression) (ctx : Context)
    (w : World) : World * list Suspended :=
  fireAll amb ctx 0 (impressionCalls l) w.

Definition fireClicks (amb : Ambient) (l : list Click) (ctx : Context)
    (w : World) : World * list Suspended :=
  fireAll amb ctx 0 (clickCalls l) w.

Definition fireEventTrackers (amb : Ambient) (ev : string) (l : list EventTracker)
    (ctx : Context) (w : World) : World * list Suspended :=
  fireAll amb ctx 0 (eventCalls ev l) w.

Fixpoint remove_nth {A} (i : nat) (l : list A) : list A :=
  match i, l with
  | _, [] => []
  | O, _ :: r => r
  | S k, x :: r => x :: remove_nth k r
  end.

(** The request of the [i]-th waiting activation ends with [o]; the
    activation resumes.  The second component is the value its call of
    [fireTracker] returns; [None] when there is no such activation. *)
Definition settle (now : N) (i : nat) (o : ImageOutcome) (w : World)
    : World * option bool :=
  match nth_error (inflight w) i with
  | None => (w, None)
  | Some s =>
    let '(tr, r) := fireTracker_resume now s (sendTracking o) (ledger w) in
    ({| ledger := tr; inflight := remove_nth i (inflight w) |}, Some r)
  end.

(** [Tracker.reset] leaves the waiting activations alone: they hold a
    reference to the same object. *)
Definition resetWorld (w : World) : World :=
  {| ledger := reset (ledger w); inflight := inflight w |}.

(** [getLog()]. *)
Definition getLog (tr : t) : list FiringRecord := trackingLog tr.

(** The object [getStats] returns.  [byType] is a plain object used as
    a map from the [type] of a record to a count. *)
Record Stats := {
  total : nat;
  successCount : nat;
  failedCount : nat;
  byType : gmap string nat
}.

(** The body of [this.trackingLog.forEach(log => ...)] in [getStats]: a
    type that has no count yet starts at 0, then the count goes up by
    one.  (The [type] of a record is one of the literals the callers of
    [fireTracker] pass; none of them is a name that a plain object
    inherits.) *)
Definition countLog (st : Stats) (log : FiringRecord) : Stats :=
  {| total := total st;
     successCount := match status log with
                     | success => S (successCount st)
                     | failed => successCount st
                     end;
     failedCount := match status log with
                    | success => failedCount st
                    | failed => S (failedCount st)
                    end;
     byType := <[ type log := S (default 0%nat (byType st !! type log)) ]> (byType st) |}.

(** [getStats()]. *)
Definition getStats (tr : t) : Stats :=
  fold_left countLog (trackingLog tr)
    {| total := length (trackingLog tr); successCount := 0; failedCount := 0;
       byType := ∅ |}.

(** The [type] arguments with which [fireTracker] is called: by
    [fireImpressions], [fireClicks], [fireEventTrackers] and
    [VideoPlayer.onError]. *)
Definition callTypes : list string := ["impression"; "click"; "event"; "error"].

(** The ledger and the waiting activations fit together: every record of
    the log is a success of one of the call types for a URL that is marked
    as fired, every marked URL has a record, and every waiting activation
    has one of the call types. *)
Definition consistent (w : World) : Prop :=
  Forall (fun r => status r = success /\ In (type r) callTypes /\
                   exists u, originalURL r = Some u /\ u ∈ firedTrackers (ledger w))
         (trackingLog (ledger w)) /\
  (forall u, u ∈ firedTrackers (ledger w) ->
             In (Some u) (map originalURL (trackingLog (ledger w)))) /\
  Forall (fun s => In (s_type s) callTypes) (inflight w).

End Tracker.

(** ** VASTParser: what [parseLinear] makes of a [MediaFile] element *)

Module VASTParser.

(** A [<MediaFile>] element: its attributes ([None] when
    [getAttribute] gives [null]) and its trimmed text. *)
Record MediaFileElement := {
  a_id : option string;
  a_delivery : option string;
  a_type : option string;
  a_width : option string;
  a_height : option string;
  a_codec : option string;
  a_bitrate : option string;
  a_apiFramework : option string;
  a_text : string
}.

(** [x || null] on an attribute: the empty string is falsy. *)
Definition or_null (x : option string) : option string :=
  match x with
  | Some s => if String.eqb s "" then None else Some s
  | None => None
  end.

(** [x === lit] on an attribute. *)
Definition attr_is (x : option string) (lit : string) : bool :=
  match x with
  | Some s => String.eqb s lit
  | None => false
  end.

(** The object pushed to [linear.mediaFiles]; these are all its
    properties. *)
Record MediaFile := {
  id : option string;
  delivery : string;
  type : option string;
  width : option string;
  height : option string;
  codec : option string;
  bitrate : option string;
  apiFramework : option string;
  isVPAID : bool;
  url : string
}.

(** The body of [mediaFileElements.forEach(mf => ...)]. *)
Definition parseMediaFile (mf : MediaFileElement) : MediaFile :=
  let apiFramework := a_apiFramework mf in
  let type := or_null (a_type mf) in
  let isVPAID :=
    attr_is apiFramework "VPAID" ||
    attr_is type "application/x-shockwave-flash" ||
    attr_is type "application/javascript" in
  {| id := or_null (a_id mf);
     delivery := match or_null (a_delivery mf) with
                 | Some d => d
                 | None => "progressive"
                 end;
     type := type;
     width := or_null (a_width mf);
     height := or_null (a_height mf);
     codec := or_null (a_codec mf);
     bitrate := or_null (a_bitrate mf);
     apiFramework := or_null apiFramework;
     isVPAID := isVPAID;
     url := a_text mf |}.

Definition parseMediaFiles (l : list MediaFileElement) : list MediaFile :=
  map parseMediaFile l.

Definition of_option (x : option string) : JS.value :=
  match x with
  | Some s => JS.VString s
  | None => JS.VNull
  end.

(** Reading property [p] of a parsed media file; a property the parser
    did not set reads [undefined]. *)
Definition get (mf : MediaFile) (p : string) : JS.value :=
  if String.eqb p "id" then of_option (id mf)
  else if String.eqb p "delivery" then JS.VString (delivery mf)
  else if String.eqb p "type" then of_option (type mf)
  else if String.eqb p "width" then of_option (width mf)
  else if String.eqb p "height" then of_option (height mf)
  else if String.eqb p "codec" then of_option (codec mf)
  else if String.eqb p "bitrate" then of_option (bitrate mf)
  else if String.eqb p "apiFramework" then of_option (apiFramework mf)
  else if String.eqb p "isVPAID" then JS.VBool (isVPAID mf)
  else if String.eqb p "url" then JS.VString (url mf)
  else JS.VUndefined.

Inductive CreativeData :=
| Linear (mediaFiles : list MediaFile) (clickThrough : option string)
| NonLinear
| Companion
| NoData.

Record Creative := {
  creative_id : option string;
  creative_data : CreativeData
}.

Inductive AdBody :=
| InLine (adTitle : option string) (creatives : list Creative)
| Wrapper (vastAdTagURI : option string)
| NoBody.

Record Ad := {
  ad_id : string;
  ad_body : AdBody
}.

Record VASTData := {
  ads : list Ad;
  version : string
}.

(** The [trackingURLs] object of the parser. *)
Record TrackingURLs := {
  impressions : list Tracker.Impression;
  clicks : list Tracker.Click;
  tracking : list Tracker.EventTracker;
  errors : list string
}.

End VASTParser.

(** ** Selection of the media file *)

Module Select.
Section Select.

(** The media files are objects of some kind [Obj], read through [prop];
    [canPlayType] is the video element's answer, as a boolean. *)
Context {Obj : Type} (prop : Obj -> string -> JS.value).
Variable canPlayType : string -> bool.

Definition preferredTypes : list string := ["video/mp4"; "video/webm"; "video/ogg"].

Definition has_type (ty : string) (mf : Obj) : bool :=
  JS.strict_eq (prop mf "type") (JS.VString ty).

(** The loop over [preferredTypes], then the fallback
    [mediaFiles[0] || null]. *)
Fixpoint byPreference (types : list string) (mediaFiles : list Obj) : option Obj :=
  match types with
  | [] => head mediaFiles
  | ty :: rest =>
    match List.find (has_type ty) mediaFiles with
    | Some file => if canPlayType ty then Some file else byPreference rest mediaFiles
    | None => byPreference rest mediaFiles
    end
  end.

(** [selectMediaFile] of src/video-player.js. *)
Definition selectMediaFile (mediaFiles : list Obj) : option Obj :=
  byPreference preferredTypes mediaFiles.

Definition simid (mf : Obj) : bool :=
  JS.truthy (prop mf "isSIMID") && JS.truthy (prop mf "isInteractive").

(** [selectMediaFile] of the player with SIMID support: a file with
    [isSIMID] and [isInteractive] goes first. *)
Definition selectMediaFileSIMID (mediaFiles : list Obj) : option Obj :=
  match List.find simid mediaFiles with
  | Some simidFile => Some simidFile
  | None => byPreference preferredTypes mediaFiles
  end.

End Select.
End Select.

(** ** VideoPlayer (src/video-player.js) *)

Module VideoPlayer.

Import VASTParser.

(** [quartilesFired]. *)
Record Quartiles := {
  start : bool;
  firstQuartile : bool;
  midpoint : bool;
  thirdQuartile : bool;
  complete : bool
}.

Definition noneFired : Quartiles :=
  {| start := false; firstQuartile := false; midpoint := false;
     thirdQuartile := false; complete := false |}.

(** The video element as a handler sees it.  [currentTime] and [duration]
    are numbers ([duration] is NaN until the metadata is known, and
    infinite for a stream without end); [error] is [video.error.code]. *)
Record Video := {
  currentTime : Double.t;
  duration : Double.t;
  ended : bool;
  muted : bool;
  volume : Q;
  error : option nat;
  canPlayType : string -> bool
}.

(** The message of a log entry; the two formatted numbers are kept as
    numbers. *)
Inductive Message :=
| Text (s : string)
| DurationOf (d : Double.t)
| VolumeOf (v : Q).

Record LogEntry := {
  le_type : string;
  le_message : Message;
  le_timestamp : N;
  le_currentTime : Double.t
}.

(** A call into the tracker. *)
Inductive Firing :=
| Impressions
| Clicks
| EventTrackers (ev : string)
| ErrorTrackers.

(** What a handler does to the outside, in order. *)
Inductive Effect :=
| Notify (e : LogEntry)
| Fire (f : Firing)
| Request (s : Tracker.Suspended)
| SetSrc (u : string)
| PauseVideo
| OpenWindow (u : string)
| Throw.

Record Player := {
  vastData : option VASTData;
  trackingURLs : option TrackingURLs;
  quartilesFired : Quartiles;
  eventLog : list LogEntry;
  listening : bool
}.

(** [new VideoPlayer(video, tracker)]. *)
Definition create : Player :=
  {| vastData := None; trackingURLs := None; quartilesFired := noneFired;
     eventLog := []; listening := false |}.

(** The player and the tracker it was given. *)
Record System := {
  player : Player;
  world : Tracker.World
}.

Definition initial : System := {| player := create; world := Tracker.fresh |}.

Definition with_player (s : System) (p : Player) : System :=
  {| player := p; world := world s |}.

Definition set_fired (p : Player) (q : Quartiles) : Player :=
  {| vastData := vastData p; trackingURLs := trackingURLs p; quartilesFired := q;
     eventLog := eventLog p; listening := listening p |}.

(** [logEvent(type, message)]; the entry holds
    [this.video.currentTime || 0]. *)
Definition logEvent (amb : Tracker.Ambient) (v : Video) (ty : string) (msg : Message)
    (s : System) : System * list Effect :=
  let e := {| le_type := ty; le_message := msg; le_timestamp := Tracker.clock amb;
              le_currentTime := Double.or_zero (currentTime v) |} in
  let p := player s in
  (with_player s {| vastData := vastData p; trackingURLs := trackingURLs p;
                    quartilesFired := quartilesFired p;
                    eventLog := eventLog p ++ [e]; listening := listening p |},
   [Notify e]).

(** [this.tracker.fireEventTrackers(ev, this.trackingURLs.tracking)], then
    the flag update [mark] and the log entry [msg] that follow it in the
    handler.  Reading [tracking] of [null] throws. *)
Definition fireEvent (amb : Tracker.Ambient) (v : Video) (ev : string)
    (mark : Quartiles -> Quartiles) (msg : option string) (s : System)
    : System * list Effect :=
  match trackingURLs (player s) with
  | None => (s, [Throw])
  | Some t =>
    let '(w, issued) :=
      Tracker.fireEventTrackers amb ev (tracking t) Tracker.noContext (world s) in
    let s1 := {| player := set_fired (player s) (mark (quartilesFired (player s)));
                 world := w |} in
    let fx := Fire (EventTrackers ev) :: map Request issued in
    match msg with
    | None => (s1, fx)
    | Some m =>
      let '(s2, fx2) := logEvent amb v "tracking" (Text m) s1 in
      (s2, fx ++ fx2)
    end
  end.

Definition onLoadedMetadata (amb : Tracker.Ambient) (v : Video) (s : System)
    : System * list Effect :=
  logEvent amb v "loaded-metadata" (DurationOf (duration v)) s.

Definition onPlay (amb : Tracker.Ambient) (v : Video) (s : System)
    : System * list Effect :=
  let '(s1, fx1) := logEvent amb v "play" (Text "Video started playing") s in
  if negb (start (quartilesFired (player s1))) then
    let '(s2, fx2) :=
      fireEvent amb v "start"
        (fun q => {| start := true; firstQuartile := firstQuartile q;
                     midpoint := midpoint q; thirdQuartile := thirdQuartile q;
                     complete := complete q |})
        (Some "Fired start tracking") s1 in
    (s2, fx1 ++ fx2)
  else (s1, fx1).

Definition onPause (amb : Tracker.Ambient) (v : Video) (s : System)
    : System * list Effect :=
  if negb (ended v) then
    let '(s1, fx1) := logEvent amb v "pause" (Text "Video paused") s in
    let '(s2, fx2) := fireEvent amb v "pause" (fun q => q) None s1 in
    (s2, fx1 ++ fx2)
  else (s, []).

Definition onEnded (amb : Tracker.Ambient) (v : Video) (s : System)
    : System * list Effect :=
  let '(s1, fx1) := logEvent amb v "ended" (Text "Video completed") s in
  if negb (complete (quartilesFired (player s1))) then
    let '(s2, fx2) :=
      fireEvent amb v "complete"
        (fun q => {| start := start q; firstQuartile := firstQuartile q;
                     midpoint := midpoint q; thirdQuartile := thirdQuartile q;
                     complete := true |})
        (Some "Fired complete tracking") s1 in
    (s2, fx1 ++ fx2)
  else (s1, fx1).

(** The [switch] over [error.code]. *)
Definition errorMessage (code : option nat) : string :=
  match code with
  | Some 1%nat => "Video loading aborted"
  | Some 2%nat => "Network error loading video"
  | Some 3%nat => "Video decoding error"
  | Some 4%nat => "Video format not supported"
  | _ => "Unknown error"
  end.

Definition errorCalls (l : list string) : list Tracker.Call :=
  map (fun u => {| Tracker.c_url := u; Tracker.c_type := "error";
                   Tracker.c_event := None |}) l.

Definition onError (amb : Tracker.Ambient) (v : Video) (s : System)
    : System * list Effect :=
  let '(s1, fx1) := logEvent amb v "error" (Text (errorMessage (error v))) s in
  match trackingURLs (player s1) with
  | None => (s1, fx1 ++ [Throw])
  | Some t =>
    let '(w, issued) :=
      Tracker.fireAll amb Tracker.noContext 0 (errorCalls (errors t)) (world s1) in
    ({| player := player s1; world := w |},
     fx1 ++ match errors t with
            | [] => []
            | _ :: _ => Fire ErrorTrackers :: map Request issued
            end)
  end.

(** The literals [0.25], [0.5] and [0.75]; each is a number exactly. *)
Definition quarter : Double.t := Double.dyadic 1 (-2).
Definition half : Double.t := Double.dyadic 1 (-1).
Definition threeQuarters : Double.t := Double.dyadic 3 (-2).

(** [onTimeUpdate]: nothing while [!this.video.duration] (the duration
    is NaN or zero); otherwise [progress] is the quotient of the two
    numbers, rounded as a division of numbers is, and the first branch
    of the chain whose threshold it has reached and whose flag is clear
    is taken. *)
Definition onTimeUpdate (amb : Tracker.Ambient) (v : Video) (s : System)
    : System * list Effect :=
  if Double.falsy (duration v) then (s, [])
  else
    let progress := Double.div (currentTime v) (duration v) in
    let q := quartilesFired (player s) in
    if Double.geb progress quarter && negb (firstQuartile q) then
      fireEvent amb v "firstQuartile"
        (fun q => {| start := start q; firstQuartile := true;
                     midpoint := midpoint q; thirdQuartile := thirdQuartile q;
                     complete := complete q |})
        (Some "Fired first quartile tracking (25%)") s
    else if Double.geb progress half && negb (midpoint q) then
      fireEvent amb v "midpoint"
        (fun q => {| start := start q; firstQuartile := firstQuartile q;
                     midpoint := true; thirdQuartile := thirdQuartile q;
                     complete := complete q |})
        (Some "Fired midpoint tracking (50%)") s
    else if Double.geb progress threeQuarters && negb (thirdQuartile q) then
      fireEvent amb v "thirdQuartile"
        (fun q => {| start := start q; firstQuartile := firstQuartile q;
                     midpoint := midpoint q; thirdQuartile := true;
                     complete := complete q |})
        (Some "Fired third quartile tracking (75%)") s
    else (s, []).

Definition onVolumeChange (amb : Tracker.Ambient) (v : Video) (s : System)
    : System * list Effect :=
  if muted v then
    let '(s1, fx1) := logEvent amb v "mute" (Text "Video muted") s in
    let '(s2, fx2) := fireEvent amb v "mute" (fun q => q) None s1 in
    (s2, fx1 ++ fx2)
  else
    let '(s1, fx1) := logEvent amb v "unmute" (VolumeOf (volume v)) s in
    let '(s2, fx2) := fireEvent amb v "unmute" (fun q => q) None s1 in
    (s2, fx1 ++ fx2).

Definition is_inline (a : Ad) : bool :=
  match ad_body a with InLine _ _ => true | _ => false end.

Definition is_linear (c : Creative) : bool :=
  match creative_data c with Linear _ _ => true | _ => false end.

(** [vastData.ads.find(a => a.type === 'inline')], then
    [ad.inline.creatives.find(c => c.type === 'linear')]. *)
Definition findInline (d : VASTData) : option (option string * list Creative) :=
  match List.find is_inline (ads d) with
  | Some {| ad_body := InLine title creatives |} => Some (title, creatives)
  | _ => None
  end.

Definition findLinear (creatives : list Creative)
    : option (list MediaFile * option string) :=
  match List.find is_linear creatives with
  | Some {| creative_data := Linear mediaFiles clickThrough |} =>
    Some (mediaFiles, clickThrough)
  | _ => None
  end.

Definition onClick (amb : Tracker.Ambient) (v : Video) (s : System)
    : System * list Effect :=
  let '(s1, fx1) := logEvent amb v "click" (Text "Video clicked") s in
  match trackingURLs (player s1), vastData (player s1) with
  | Some t, Some d =>
    let '(w, issued) :=
      Tracker.fireClicks amb (clicks t) Tracker.noContext (world s1) in
    let through :=
      match findInline d with
      | Some (_, creatives) =>
        match findLinear creatives with
        | Some (_, Some u) => if String.eqb u "" then [] else [OpenWindow u]
        | _ => []
        end
      | None => []
      end in
    ({| player := player s1; world := w |},
     fx1 ++ Fire Clicks :: map Request issued ++ through)
  | _, _ => (s1, fx1 ++ [Throw])
  end.

(** [selectMediaFile] on the parser's media files. *)
Definition selectMediaFile (v : Video) (mediaFiles : list MediaFile)
    : option MediaFile :=
  Select.selectMediaFile VASTParser.get (canPlayType v) mediaFiles.

(** [x || 'Untitled']. *)
Definition titleOf (x : option string) : string :=
  match x with
  | Some s => if String.eqb s "" then "Untitled" else s
  | None => "Untitled"
  end.

(** [loadAd(vastData, trackingURLs)]; the boolean is its result. *)
Definition loadAd (amb : Tracker.Ambient) (v : Video) (d : VASTData)
    (t : TrackingURLs) (s : System) : System * list Effect * bool :=
  let p0 := {| vastData := Some d; trackingURLs := Some t;
               quartilesFired := noneFired; eventLog := eventLog (player s);
               listening := listening (player s) |} in
  let s0 := with_player s p0 in
  let fail (m : string) :=
    let '(s1, fx) := logEvent amb v "error" (Text m) s0 in (s1, fx, false) in
  match findInline d with
  | None => fail "No inline ad found in VAST"
  | Some (title, creatives) =>
    match findLinear creatives with
    | None => fail "No linear creative found"
    | Some (mediaFiles, _) =>
      match selectMediaFile v mediaFiles with
      | None => fail "No compatible media file found"
      | Some mediaFile =>
        let s1 := with_player s0
          {| vastData := Some d; trackingURLs := Some t;
             quartilesFired := noneFired; eventLog := eventLog (player s0);
             listening := true |} in
        let '(s2, fx2) :=
          logEvent amb v "ad-loaded" (Text ("Ad loaded: " ++ titleOf title)) s1 in
        let '(w, issued) :=
          Tracker.fireImpressions amb (impressions t) Tracker.noContext (world s2) in
        ({| player := player s2; world := w |},
         SetSrc (url mediaFile) :: fx2 ++ Fire Impressions :: map Request issued,
         true)
      end
    end
  end.

(** [reset()]. *)
Definition reset (s : System) : System * list Effect :=
  (with_player s
     {| vastData := None; trackingURLs := None; quartilesFired := noneFired;
        eventLog := eventLog (player s); listening := false |},
   [PauseVideo; SetSrc ""]).

(** [destroy()]. *)
Definition destroy (s : System) : System * list Effect :=
  let '(s1, fx) := reset s in
  (with_player s1
     {| vastData := vastData (player s1); trackingURLs := trackingURLs (player s1);
        quartilesFired := quartilesFired (player s1); eventLog := [];
        listening := listening (player s1) |}, fx).

(** The events [setupEventListeners] subscribes to. *)
Inductive VideoEvent :=
| loadedmetadata | play | pause | ended_ | error_ | timeupdate | volumechange | click.

Definition handler (e : VideoEvent)
    : Tracker.Ambient -> Video -> System -> System * list Effect :=
  match e with
  | loadedmetadata => onLoadedMetadata
  | play => onPlay
  | pause => onPause
  | ended_ => onEnded
  | error_ => onError
  | timeupdate => onTimeUpdate
  | volumechange => onVolumeChange
  | click => onClick
  end.

(** What happens to the page, one task at a time: the user loads an ad
    ([testAd] reaching [player.loadAd]) or clears everything ([clearAll]:
    [player.reset(); tracker.reset()]), the video element fires an
    event, or a tracking request ends. *)
Inductive Event :=
| LoadAd (d : VASTData) (t : TrackingURLs)
| ClearAll
| Media (e : VideoEvent)
| Settle (i : nat) (o : Tracker.ImageOutcome).

Record Task := {
  amb : Tracker.Ambient;
  video : Video;
  event : Event
}.

(** [clearAll] of the page: [this.player.reset(); this.tracker.reset()]. *)
Definition clearAll (s : System) : System * list Effect :=
  let '(s1, fx) := reset s in
  ({| player := player s1; world := Tracker.resetWorld (world s1) |}, fx).

Definition step (k : Task) (s : System) : System * list Effect :=
  match event k with
  | LoadAd d t => fst (loadAd (amb k) (video k) d t s)
  | ClearAll => clearAll s
  | Media e => if listening (player s) then handler e (amb k) (video k) s else (s, [])
  | Settle i o =>
    ({| player := player s;
        world := fst (Tracker.settle (Tracker.clock (amb k)) i o (world s)) |}, [])
  end.

Fixpoint run (ks : list Task) (s : System) : System * list Effect :=
  match ks with
  | [] => (s, [])
  | k :: rest =>
    let '(s1, fx1) := step k s in
    let '(s2, fx2) := run rest s1 in
    (s2, fx1 ++ fx2)
  end.

(** The tracking events a run asked the tracker to fire, in order. *)
Definition firedEvents (fx : list Effect) : list string :=
  flat_map (fun e => match e with Fire (EventTrackers ev) => [ev] | _ => [] end) fx.

(** The raw URLs a run sent requests for, in order. *)
Definition requested (fx : list Effect) : list string :=
  flat_map (fun e => match e with Request r => [Tracker.s_url r] | _ => [] end) fx.

(** The three thresholds of [onTimeUpdate], with their tracking event and
    their flag. *)
Inductive Quartile := Q25 | Q50 | Q75.

Definition threshold (k : Quartile) : Double.t :=
  match k with Q25 => quarter | Q50 => half | Q75 => threeQuarters end.

Definition eventOf (k : Quartile) : string :=
  match k with Q25 => "firstQuartile" | Q50 => "midpoint" | Q75 => "thirdQuartile" end.

Definition flagOf (q : Quartiles) (k : Quartile) : bool :=
  match k with Q25 => firstQuartile q | Q50 => midpoint q | Q75 => thirdQuartile q end.

Definition setFlag (k : Quartile) (q : Quartiles) : Quartiles :=
  match k with
  | Q25 => {| start := start q; firstQuartile := true; midpoint := midpoint q;
              thirdQuartile := thirdQuartile q; complete := complete q |}
  | Q50 => {| start := start q; firstQuartile := firstQuartile q; midpoint := true;
              thirdQuartile := thirdQuartile q; complete := complete q |}
  | Q75 => {| start := start q; firstQuartile := firstQuartile q;
              midpoint := midpoint q; thirdQuartile := true;
              complete := complete q |}
  end.

(** The progress [onTimeUpdate] computes for [v]. *)
Definition progressOf (v : Video) : Double.t :=
  Double.div (currentTime v) (duration v).

(** [k] is due: its threshold is reached and its flag is clear. *)
Definition due (q : Quartiles) (progress : Double.t) (k : Quartile) : Prop :=
  Double.geb progress (threshold k) = true /\ flagOf q k = false.


(** The video [base] at position [t] of a run of length [d]. *)
Definition at_time (base : Video) (d t : Double.t) : Video :=
  {| currentTime := t; duration := d; ended := ended base; muted := muted base;
     volume := volume base; error := error base; canPlayType := canPlayType base |}.

(** A play event, position updates and the ended event. *)
Definition playStream (a : Tracker.Ambient) (first : Video) (updates : list Video)
    (last : Video) : list Task :=
  {| amb := a; video := first; event := Media play |} ::
  map (fun v => {| amb := a; video := v; event := Media timeupdate |}) updates ++
  [ {| amb := a; video := last; event := Media ended_ |} ].

(** The positions 0%, 10%, 26%, 51%, 76% and 100% of a duration of [d]
    seconds, each the number nearest to that many hundredths of [d]. *)
Definition positions (base : Video) (d : Z) : list Video :=
  map (fun p => at_time base (Double.of_Z d) (Double.ratio (p * d) 100))
      [0; 10; 26; 51; 76; 100]%Z.

(** A play event, position updates at 0%, 10%, 26%, 51%, 76% and 100% of
    the duration of [d] seconds, then the ended event. *)
Definition playThrough (a : Tracker.Ambient) (base : Video) (d : Z) : list Task :=
  playStream a (at_time base (Double.of_Z d) (Double.of_Z 0)) (positions base d)
    (at_time base (Double.of_Z d) (Double.of_Z d)).

(** What the lifecycle handlers depend on: the flags, the catalog and
    whether the listeners are attached. *)
Definition view (s : System) : Quartiles * option TrackingURLs * bool :=
  (quartilesFired (player s), trackingURLs (player s), listening (player s)).


Definition impressionURLOf (i : Tracker.Impression) : string :=
  match i with Tracker.ImpString u => u | Tracker.ImpObject u _ => u end.

Definition nonEmpty (u : string) : bool := negb (String.eqb u "").

(** What the requests of a run were sent for: the raw URL, the type and
    the event of each call of [fireTracker] that sent one, in order. *)
Definition sent (fx : list Effect) : list (string * string * option string) :=
  flat_map (fun e => match e with
                     | Request r =>
                       [(Tracker.s_url r, Tracker.s_type r, Tracker.s_event r)]
                     | _ => []
                     end) fx.

(** Firing the event [ev] of the catalog [l] on the ledger [tr]: a
    request of type [event] to each tracker declared for [ev], in catalog
    order, unless its URL is empty or marked as fired. *)
Definition eventRequests (tr : Tracker.t) (ev : string) (l : list Tracker.EventTracker)
    : list (string * string * option string) :=
  map (fun e => (Tracker.et_url e, "event", Some ev))
      (List.filter (fun e => String.eqb (Tracker.et_event e) ev &&
                             (nonEmpty (Tracker.et_url e) &&
                              negb (Tracker.hasFired (Tracker.et_url e) tr))) l).


(** The log entries a run dispatched to the page ([videoevent]), in
    order. *)
Definition notified (fx : list Effect) : list LogEntry :=
  flat_map (fun e => match e with Notify x => [x] | _ => [] end) fx.

(** The five tracking events that [quartilesFired] guards. *)
Definition lifecycle : list string :=
  ["start"; "firstQuartile"; "midpoint"; "thirdQuartile"; "complete"].

(** [quartilesFired[ev]] for a lifecycle event; no other event has a
    flag. *)
Definition flagged (q : Quartiles) (ev : string) : bool :=
  if String.eqb ev "start" then start q
  else if String.eqb ev "firstQuartile" then firstQuartile q
  else if String.eqb ev "midpoint" then midpoint q
  else if String.eqb ev "thirdQuartile" then thirdQuartile q
  else if String.eqb ev "complete" then complete q
  else false.

(** A task of playback: a video event or the end of a request, as
    opposed to a load or a reset. *)
Definition isPlayback (k : Task) : bool :=
  match event k with
  | Media _ | Settle _ _ => true
  | LoadAd _ _ | ClearAll => false
  end.

(** The browser can play [ty] and the list has a file of that type. *)
Definition playable (v : Video) (files : list MediaFile) (ty : string) : Prop :=
  canPlayType v ty = true /\ exists g, In g files /\ VASTParser.type g = Some ty.

End VideoPlayer.

(** ** SIMIDBridge *)

Module SIMIDBridge.

(** The video element as the bridge reads it. *)
Record Media := {
  currentTime : Q;
  duration : option Q;
  muted : bool;
  volume : Q;
  paused : bool;
  ended : bool;
  fullscreen : bool
}.

Record Dimensions := {
  width : N;
  height : N
}.

Record EnvironmentData := {
  videoDimensions : Dimensions;
  creativeDimensions : Dimensions;
  env_fullscreen : bool;
  env_muted : bool;
  env_volume : Q
}.

Record CreativeData := {
  adParameters : string;
  creative_duration : Q
}.

(** The fields of a bridge.  [iframeReady] stands for
    [this.iframe && this.iframe.contentWindow], [creative] for
    [this.creative] not being [null]; [trackingURLs] is
    [this.trackingURLs.tracking] when both exist. *)
Record Bridge := {
  iframeReady : bool;
  creative : bool;
  sessionId : string;
  isInitialized : bool;
  protocolVersion : string;
  environmentData : EnvironmentData;
  creativeData : CreativeData;
  trackingURLs : option (list Tracker.EventTracker)
}.

(** [message.args]: [trackingUrls] when it is an array, [volume] when it
    is a number. *)
Record Args := {
  trackingUrls : option (list string);
  arg_volume : option Q
}.

(** An incoming message, after [JSON.parse]. *)
Record Message := {
  m_sessionId : JS.value;
  m_messageId : JS.value;
  m_type : JS.value;
  m_args : option Args
}.

(** [event.data]: falsy, a string, an object, or another truthy value. *)
Inductive Data :=
| Falsy
| TextData (s : string)
| ObjectData (m : Message)
| OtherData.

(** The result of [JSON.parse]. *)
Inductive Parsed :=
| SyntaxError
| ParsedNull
| ParsedPrimitive
| ParsedObject (m : Message).

(** The [value] of a [resolve] message. *)
Inductive Payload :=
| Nothing
| Description (e : EnvironmentData) (c : CreativeData)
| MediaState (m : Media).

(** A message posted to the creative. *)
Record Outgoing := {
  o_sessionId : string;
  o_messageId : string;
  o_type : string;
  o_timestamp : N;
  o_replyTo : JS.value;
  o_value : Payload
}.

Inductive Effect :=
| Post (m : Outgoing)
| SetVolume (v : Q)
| PauseVideo
| PlayVideo
| SendTracking (u : string)
| Throw.

(** What a handler reads from the browser: the clock and the identifier
    [generateMessageId] makes up. *)
Record Ambient := {
  now : N;
  messageId : string
}.

(** [sendMessage]: nothing leaves while there is no creative window. *)
Definition sendMessage (b : Bridge) (m : Outgoing) : list Effect :=
  if creative b then [Post m] else [].

Definition sendResolve (amb : Ambient) (b : Bridge) (replyTo : JS.value)
    (value : Payload) : list Effect :=
  sendMessage b {| o_sessionId := sessionId b; o_messageId := messageId amb;
                   o_type := "resolve"; o_timestamp := now amb;
                   o_replyTo := replyTo; o_value := value |}.

Definition set_initialized (b : Bridge) : Bridge :=
  {| iframeReady := iframeReady b; creative := creative b; sessionId := sessionId b;
     isInitialized := true; protocolVersion := protocolVersion b;
     environmentData := environmentData b; creativeData := creativeData b;
     trackingURLs := trackingURLs b |}.

Definition handleCreativeLoaded (amb : Ambient) (v : Media) (m : Message) (b : Bridge)
    : Bridge * list Effect :=
  (set_initialized b, sendResolve amb (set_initialized b) (m_messageId m) Nothing).

Definition handleInit (amb : Ambient) (v : Media) (m : Message) (b : Bridge)
    : Bridge * list Effect :=
  (b, sendResolve amb b (m_messageId m) (Description (environmentData b) (creativeData b))).

(** [handleStart], [handleStop], [handleSkip] and [handleFatal] only
    acknowledge. *)
Definition handleStart (amb : Ambient) (v : Media) (m : Message) (b : Bridge)
    : Bridge * list Effect :=
  (b, sendResolve amb b (m_messageId m) Nothing).

Definition handleStop (amb : Ambient) (v : Media) (m : Message) (b : Bridge)
    : Bridge * list Effect :=
  (b, sendResolve amb b (m_messageId m) Nothing).

Definition handleSkip (amb : Ambient) (v : Media) (m : Message) (b : Bridge)
    : Bridge * list Effect :=
  (b, sendResolve amb b (m_messageId m) Nothing).

Definition handleFatal (amb : Ambient) (v : Media) (m : Message) (b : Bridge)
    : Bridge * list Effect :=
  (b, sendResolve amb b (m_messageId m) Nothing).

Definition handleReportTracking (amb : Ambient) (v : Media) (m : Message) (b : Bridge)
    : Bridge * list Effect :=
  let urls := match m_args m with
              | Some {| trackingUrls := Some l |} => l
              | _ => []
              end in
  (b, map SendTracking urls ++ sendResolve amb b (m_messageId m) Nothing).

Definition handleRequestChangeVolume (amb : Ambient) (v : Media) (m : Message)
    (b : Bridge) : Bridge * list Effect :=
  let set := match m_args m with
             | Some {| arg_volume := Some x |} =>
               if Qle_bool 0 x && Qle_bool x 1 then [SetVolume x] else []
             | _ => []
             end in
  (b, set ++ sendResolve amb b (m_messageId m) Nothing).

Definition handleRequestPause (amb : Ambient) (v : Media) (m : Message) (b : Bridge)
    : Bridge * list Effect :=
  (b, PauseVideo :: sendResolve amb b (m_messageId m) Nothing).

Definition handleRequestPlay (amb : Ambient) (v : Media) (m : Message) (b : Bridge)
    : Bridge * list Effect :=
  (b, PlayVideo :: sendResolve amb b (m_messageId m) Nothing).

(** [handleRequestSkip] calls [this.tracker.fireTracking], which no
    tracker has: with a [complete] tracker declared the call throws and
    the acknowledgement is not sent. *)
Definition handleRequestSkip (amb : Ambient) (v : Media) (m : Message) (b : Bridge)
    : Bridge * list Effect :=
  match trackingURLs b with
  | Some l =>
    match List.find (fun t => String.eqb (Tracker.et_event t) "complete") l with
    | Some _ => (b, [Throw])
    | None => (b, sendResolve amb b (m_messageId m) Nothing)
    end
  | None => (b, sendResolve amb b (m_messageId m) Nothing)
  end.

Definition handleGetMediaState (amb : Ambient) (v : Media) (m : Message) (b : Bridge)
    : Bridge * list Effect :=
  (b, sendResolve amb b (m_messageId m) (MediaState v)).

(** [this.messageHandlers[type]] for the keys the constructor sets. *)
Definition messageHandlers (ty : string)
    : option (Ambient -> Media -> Message -> Bridge -> Bridge * list Effect) :=
  if String.eqb ty "Session.creativeLoaded" then Some handleCreativeLoaded
  else if String.eqb ty "Session.init" then Some handleInit
  else if String.eqb ty "Session.start" then Some handleStart
  else if String.eqb ty "Session.stop" then Some handleStop
  else if String.eqb ty "Session.skip" then Some handleSkip
  else if String.eqb ty "Session.fatal" then Some handleFatal
  else if String.eqb ty "Creative.reportTracking" then Some handleReportTracking
  else if String.eqb ty "Creative.requestChangeVolume" then Some handleRequestChangeVolume
  else if String.eqb ty "Creative.requestPause" then Some handleRequestPause
  else if String.eqb ty "Creative.requestPlay" then Some handleRequestPlay
  else if String.eqb ty "Creative.requestSkip" then Some handleRequestSkip
  else if String.eqb ty "Creative.getMediaState" then Some handleGetMediaState
  else None.

(** The guard of [onMessage]:
    [!data.type || !data.sessionId || data.sessionId !== this.sessionId]. *)
Definition foreign (b : Bridge) (m : Message) : bool :=
  negb (JS.truthy (m_type m)) || negb (JS.truthy (m_sessionId m)) ||
  negb (JS.strict_eq (m_sessionId m) (JS.VString (sessionId b))).

(** The names [messageHandlers] inherits from [Object.prototype]: looked
    up with one of them, the table gives a built-in, and calling it with
    the message returns or throws without touching the bridge. *)
Definition inheritedKeys : list string :=
  [ "constructor"; "hasOwnProperty"; "isPrototypeOf"; "propertyIsEnumerable";
    "toLocaleString"; "toString"; "valueOf"; "__proto__"; "__defineGetter__";
    "__defineSetter__"; "__lookupGetter__"; "__lookupSetter__" ].

(** What [onMessage] did with a message: returned before the dispatch,
    threw on reading a property of [null], found no handler, called a
    built-in of [Object.prototype], or ran the handler of [ty]. *)
Inductive Outcome :=
| Ignored
| Threw
| Unhandled
| Inherited
| Handled (ty : string).

Section OnMessage.

(** [JSON.parse]. *)
Variable parse : string -> Parsed.

(** [onMessage(event)], from [event.data]. *)
Definition onMessage (amb : Ambient) (v : Media) (d : Data) (b : Bridge)
    : Bridge * list Effect * Outcome :=
  let route (m : Message) :=
    if foreign b m then (b, [], Ignored)
    else
      match messageHandlers (JS.toString (m_type m)) with
      | Some h => let '(b', fx) := h amb v m b in (b', fx, Handled (JS.toString (m_type m)))
      | None =>
        if existsb (String.eqb (JS.toString (m_type m))) inheritedKeys
        then (b, [], Inherited)
        else (b, [], Unhandled)
      end in
  match d with
  | Falsy => (b, [], Ignored)
  | TextData s =>
    match parse s with
    | SyntaxError => (b, [], Ignored)
    | ParsedNull => (b, [], Threw)
    | ParsedPrimitive => (b, [], Ignored)
    | ParsedObject m => route m
    end
  | ObjectData m => route m
  | OtherData => (b, [], Ignored)
  end.

End OnMessage.

(** The messages a handler posted to the creative, in order. *)
Definition posts (fx : list Effect) : list Outgoing :=
  flat_map (fun e => match e with Post m => [m] | _ => [] end) fx.

(** The keys of [messageHandlers]. *)
Definition handledTypes : list string :=
  [ "Session.creativeLoaded"; "Session.init"; "Session.start"; "Session.stop";
    "Session.skip"; "Session.fatal"; "Creative.reportTracking";
    "Creative.requestChangeVolume"; "Creative.requestPause"; "Creative.requestPlay";
    "Creative.requestSkip"; "Creative.getMediaState" ].

(** The catalog of the bridge declares a [complete] tracker. *)
Definition declaresComplete (b : Bridge) : bool :=
  match trackingURLs b with
  | Some l => existsb (fun t => String.eqb (Tracker.et_event t) "complete") l
  | None => false
  end.

End SIMIDBridge.

(** ** The document: the DOM calls the parser makes *)

Module DOM.

(** A node of the parsed XML document: an element with its local name,
    its attributes and its children, or a run of text (a CDATA section
    is text).  Comments and processing instructions have no part in
    [textContent] or in a selector match and are left out. *)
#[warnings="-register-all"]
Inductive Node :=
| Element (name : string) (attrs : list (string * string)) (children : list Node)
| Text (data : string).

Definition is_element (n : Node) : bool :=
  match n with Element _ _ _ => true | Text _ => false end.

Definition children (n : Node) : list Node :=
  match n with Element _ _ cs => cs | Text _ => [] end.

(** The element descendants of a node, in document order. *)
Fixpoint descendants (n : Node) : list Node :=
  match n with
  | Element _ _ cs =>
    flat_map (fun c => if is_element c then c :: descendants c else []) cs
  | Text _ => []
  end.

(** A type selector such as ['Impression'] matches an element by its
    local name; in an XML document the match is case-sensitive. *)
Definition matches (tag : string) (n : Node) : bool :=
  match n with
  | Element name _ _ => String.eqb name tag
  | Text _ => false
  end.

(** [element.querySelectorAll(tag)] and [element.querySelector(tag)]:
    the descendants that match, and the first of them. *)
Definition querySelectorAll (tag : string) (n : Node) : list Node :=
  List.filter (matches tag) (descendants n).

Definition querySelector (tag : string) (n : Node) : option Node :=
  head (querySelectorAll tag n).

(** [node.textContent]: the text of all descendants, in order. *)
Fixpoint textContent (n : Node) : string :=
  match n with
  | Element _ _ cs => String.concat "" (map textContent cs)
  | Text data => data
  end.

(** [element.getAttribute(a)]; [None] is [null]. *)
Fixpoint assoc (a : string) (l : list (string * string)) : option string :=
  match l with
  | [] => None
  | (k, v) :: r => if String.eqb k a then Some v else assoc a r
  end.

Definition getAttribute (a : string) (n : Node) : option string :=
  match n with
  | Element _ attrs _ => assoc a attrs
  | Text _ => None
  end.

(** The document: its root element.  [xmlDoc.querySelectorAll(tag)]
    ranges over the root and its descendants. *)
Record Document := { documentElement : Node }.

Definition elements (d : Document) : list Node :=
  if is_element (documentElement d)
  then documentElement d :: descendants (documentElement d)
  else [].

Definition docQuerySelectorAll (tag : string) (d : Document) : list Node :=
  List.filter (matches tag) (elements d).

Definition docQuerySelector (tag : string) (d : Document) : option Node :=
  head (docQuerySelectorAll tag d).

(** White space and line terminators of one byte: TAB, LF, VT, FF, CR
    and the space. *)
Definition ws1 (c : ascii) : bool :=
  existsb (Ascii.eqb c) ["009"; "010"; "011"; "012"; "013"; " "]%char.

(** U+00A0, in UTF-8. *)
Definition ws2 (c1 c2 : ascii) : bool :=
  Ascii.eqb c1 "194" && Ascii.eqb c2 "160".

(** U+1680, U+2000 to U+200A, U+2028, U+2029, U+202F, U+205F, U+3000
    and U+FEFF, in UTF-8. *)
Definition ws3 (c1 c2 c3 : ascii) : bool :=
  (Ascii.eqb c1 "225" && Ascii.eqb c2 "154" && Ascii.eqb c3 "128") ||
  (Ascii.eqb c1 "226" && Ascii.eqb c2 "128" &&
   ((128 <=? nat_of_ascii c3)%nat && (nat_of_ascii c3 <=? 138)%nat ||
    existsb (Ascii.eqb c3) ["168"; "169"; "175"]%char)) ||
  (Ascii.eqb c1 "226" && Ascii.eqb c2 "129" && Ascii.eqb c3 "159") ||
  (Ascii.eqb c1 "227" && Ascii.eqb c2 "128" && Ascii.eqb c3 "128") ||
  (Ascii.eqb c1 "239" && Ascii.eqb c2 "187" && Ascii.eqb c3 "191").

(** White space is stripped from the front; [back] tells that the
    string is read from its end, so that the bytes of a character come
    in reverse. *)
Fixpoint strip (back : bool) (s : string) : string :=
  match s with
  | "" => ""
  | String c1 r1 =>
    if ws1 c1 then strip back r1
    else
      match r1 with
      | "" => s
      | String c2 r2 =>
        if (if back then ws2 c2 c1 else ws2 c1 c2) then strip back r2
        else
          match r2 with
          | "" => s
          | String c3 r3 =>
            if (if back then ws3 c3 c2 c1 else ws3 c1 c2 c3) then strip back r3
            else s
          end
      end
  end.

Fixpoint rev (s acc : string) : string :=
  match s with
  | "" => acc
  | String c r => rev r (String c acc)
  end.

(** [String.prototype.trim]. *)
Definition trim (s : string) : string :=
  rev (strip true (rev (strip false s) "")) "".

End DOM.

(** ** VASTParser: from the document to the ad data and the catalog *)

Module VAST.

Import DOM.

(** [linear.videoClicks]: the empty object when there is no
    [VideoClicks] element; [clickThrough] is set when the element has a
    [ClickThrough], [clickTracking] whenever the element is there. *)
Record VideoClicks := {
  clickThrough : option string;
  clickTracking : option (list string)
}.

Record TrackingEvent := {
  event : string;
  url : string
}.

Record Linear := {
  duration : option string;
  skipoffset : option string;
  mediaFiles : list VASTParser.MediaFile;
  videoClicks : VideoClicks;
  trackingEvents : list TrackingEvent
}.

(** An entry of [nonLinears], and (with [trackingEvents: []]) of
    [companions]. *)
Record Resource := {
  r_id : option string;
  r_width : option string;
  r_height : option string;
  r_resource : option string;
  r_clickThrough : option string
}.

Inductive CreativeData :=
| LinearData (l : Linear)
| NonLinearData (nonLinears : list Resource)
| CompanionData (companions : list Resource)
| NoData.

(** [type] is read off [data]: ['linear'], ['nonlinear'], ['companion']
    or [null]. *)
Record Creative := {
  c_id : option string;
  c_sequence : option string;
  c_data : CreativeData
}.

(** The object [parseInLine] returns; its [extensions], which stay the
    empty array it starts with, are left out. *)
Record InLine := {
  adSystem : option string;
  adTitle : option string;
  description : option string;
  impressions : list string;
  creatives : list Creative
}.

Record Wrapper := {
  w_adSystem : option string;
  vastAdTagURI : option string;
  w_impressions : list string
}.

(** [type] is ['inline'] when [inline] is set, ['wrapper'] when
    [wrapper] is, [null] otherwise. *)
Record Ad := {
  id : string;
  sequence : option string;
  inline : option InLine;
  wrapper : option Wrapper
}.

Record VASTData := {
  ads : list Ad;
  version : string
}.

Definition TrackingURLs := VASTParser.TrackingURLs.

Definition noTracking : TrackingURLs :=
  {| VASTParser.impressions := []; VASTParser.clicks := [];
     VASTParser.tracking := []; VASTParser.errors := [] |}.

Definition pushImpression (i : Tracker.Impression) (t : TrackingURLs) : TrackingURLs :=
  {| VASTParser.impressions := VASTParser.impressions t ++ [i];
     VASTParser.clicks := VASTParser.clicks t;
     VASTParser.tracking := VASTParser.tracking t;
     VASTParser.errors := VASTParser.errors t |}.

Definition pushClick (c : Tracker.Click) (t : TrackingURLs) : TrackingURLs :=
  {| VASTParser.impressions := VASTParser.impressions t;
     VASTParser.clicks := VASTParser.clicks t ++ [c];
     VASTParser.tracking := VASTParser.tracking t;
     VASTParser.errors := VASTParser.errors t |}.

Definition pushTracking (e : Tracker.EventTracker) (t : TrackingURLs) : TrackingURLs :=
  {| VASTParser.impressions := VASTParser.impressions t;
     VASTParser.clicks := VASTParser.clicks t;
     VASTParser.tracking := VASTParser.tracking t ++ [e];
     VASTParser.errors := VASTParser.errors t |}.

Definition pushError (u : string) (t : TrackingURLs) : TrackingURLs :=
  {| VASTParser.impressions := VASTParser.impressions t;
     VASTParser.clicks := VASTParser.clicks t;
     VASTParser.tracking := VASTParser.tracking t;
     VASTParser.errors := VASTParser.errors t ++ [u] |}.

(** [element.textContent.trim()]. *)
Definition text (n : Node) : string := trim (textContent n).

(** [getElementText(parent, tagName)]. *)
Definition getElementText (parent : Node) (tagName : string) : option string :=
  match querySelector tagName parent with
  | Some element => Some (text element)
  | None => None
  end.

(** [a || b] on two results of [getElementText]. *)
Definition or_text (a b : option string) : option string :=
  match VASTParser.or_null a with
  | Some s => Some s
  | None => b
  end.

(** The attributes and the text that [parseLinear] reads from a
    [MediaFile] element. *)
Definition mediaFileElement (mf : Node) : VASTParser.MediaFileElement :=
  {| VASTParser.a_id := getAttribute "id" mf;
     VASTParser.a_delivery := getAttribute "delivery" mf;
     VASTParser.a_type := getAttribute "type" mf;
     VASTParser.a_width := getAttribute "width" mf;
     VASTParser.a_height := getAttribute "height" mf;
     VASTParser.a_codec := getAttribute "codec" mf;
     VASTParser.a_bitrate := getAttribute "bitrate" mf;
     VASTParser.a_apiFramework := getAttribute "apiFramework" mf;
     VASTParser.a_text := text mf |}.

(** The body of [impressionElements.forEach(imp => ...)], in
    [parseInLine] and in [parseWrapper]: the list of the ad and the
    catalog. *)
Definition eachImpression (acc : list string * TrackingURLs) (imp : Node)
    : list string * TrackingURLs :=
  let url := text imp in
  if String.eqb url "" then acc
  else (fst acc ++ [url],
        pushImpression (Tracker.ImpObject url (VASTParser.or_null (getAttribute "id" imp)))
                       (snd acc)).

(** The body of [errorElements.forEach(err => ...)]. *)
Definition eachError (t : TrackingURLs) (err : Node) : TrackingURLs :=
  let url := text err in
  if String.eqb url "" then t else pushError url t.

(** The body of [clickTrackingElements.forEach(ct => ...)]. *)
Definition eachClickTracking (acc : list string * TrackingURLs) (ct : Node)
    : list string * TrackingURLs :=
  let url := text ct in
  if String.eqb url "" then acc
  else (fst acc ++ [url], pushClick (Tracker.ClickObject "clickTracking" url) (snd acc)).

(** The body of [trackingElements.forEach(tracking => ...)].  The
    catalog entry also gets [fired: false], which nothing reads. *)
Definition eachTracking (acc : list TrackingEvent * TrackingURLs) (tracking : Node)
    : list TrackingEvent * TrackingURLs :=
  let url := text tracking in
  match VASTParser.or_null (getAttribute "event" tracking) with
  | Some ev =>
    if String.eqb url "" then acc
    else (fst acc ++ [ {| event := ev; url := url |} ],
          pushTracking {| Tracker.et_event := ev; Tracker.et_url := url |} (snd acc))
  | None => acc
  end.

(** [parseLinear(linearElement)]. *)
Definition parseLinear (linearElement : Node) (t : TrackingURLs) : Linear * TrackingURLs :=
  let mediaFiles :=
    map (fun mf => VASTParser.parseMediaFile (mediaFileElement mf))
        (querySelectorAll "MediaFile" linearElement) in
  let '(videoClicks, t1) :=
    match querySelector "VideoClicks" linearElement with
    | Some videoClicksElement =>
      let '(through, t0) :=
        match querySelector "ClickThrough" videoClicksElement with
        | Some clickThrough =>
          (Some (text clickThrough),
           pushClick (Tracker.ClickObject "clickThrough" (text clickThrough)) t)
        | None => (None, t)
        end in
      let '(urls, t1) :=
        fold_left eachClickTracking
                  (querySelectorAll "ClickTracking" videoClicksElement) ([], t0) in
      ({| clickThrough := through; clickTracking := Some urls |}, t1)
    | None => ({| clickThrough := None; clickTracking := None |}, t)
    end in
  let '(events, t2) :=
    fold_left eachTracking (querySelectorAll "Tracking" linearElement) ([], t1) in
  ({| duration := getElementText linearElement "Duration";
      skipoffset := VASTParser.or_null (getAttribute "skipoffset" linearElement);
      mediaFiles := mediaFiles;
      videoClicks := videoClicks;
      trackingEvents := events |}, t2).

Definition resource (clickTag : string) (n : Node) : Resource :=
  {| r_id := VASTParser.or_null (getAttribute "id" n);
     r_width := VASTParser.or_null (getAttribute "width" n);
     r_height := VASTParser.or_null (getAttribute "height" n);
     r_resource := or_text (getElementText n "StaticResource")
                           (getElementText n "IFrameResource");
     r_clickThrough := getElementText n clickTag |}.

(** [parseNonLinear(nonLinearAdsElement)]; its [trackingEvents] stay
    empty. *)
Definition parseNonLinear (nonLinearAdsElement : Node) : list Resource :=
  map (resource "NonLinearClickThrough") (querySelectorAll "NonLinear" nonLinearAdsElement).

(** [parseCompanionAds(companionAdsElement)]. *)
Definition parseCompanionAds (companionAdsElement : Node) : list Resource :=
  map (resource "CompanionClickThrough") (querySelectorAll "Companion" companionAdsElement).

(** [parseCreative(creativeElement)]. *)
Definition parseCreative (creativeElement : Node) (t : TrackingURLs)
    : Creative * TrackingURLs :=
  let '(data, t1) :=
    match querySelector "Linear" creativeElement with
    | Some linear => let '(l, t1) := parseLinear linear t in (LinearData l, t1)
    | None =>
      match querySelector "NonLinearAds" creativeElement with
      | Some nonLinearAds => (NonLinearData (parseNonLinear nonLinearAds), t)
      | None =>
        match querySelector "CompanionAds" creativeElement with
        | Some companionAds => (CompanionData (parseCompanionAds companionAds), t)
        | None => (NoData, t)
        end
      end
    end in
  ({| c_id := VASTParser.or_null (getAttribute "id" creativeElement);
      c_sequence := VASTParser.or_null (getAttribute "sequence" creativeElement);
      c_data := data |}, t1).

(** The body of [creativeElements.forEach(creative => ...)]; the parsed
    creative is an object, so it is always kept. *)
Definition eachCreative (acc : list Creative * TrackingURLs) (creative : Node)
    : list Creative * TrackingURLs :=
  let '(parsedCreative, t) := parseCreative creative (snd acc) in
  (fst acc ++ [parsedCreative], t).

(** [parseInLine(inLineElement)]. *)
Definition parseInLine (inLineElement : Node) (t : TrackingURLs) : InLine * TrackingURLs :=
  let '(imps, t1) :=
    fold_left eachImpression (querySelectorAll "Impression" inLineElement) ([], t) in
  let t2 := fold_left eachError (querySelectorAll "Error" inLineElement) t1 in
  let '(cs, t3) :=
    fold_left eachCreative (querySelectorAll "Creative" inLineElement) ([], t2) in
  ({| adSystem := getElementText inLineElement "AdSystem";
      adTitle := getElementText inLineElement "AdTitle";
      description := getElementText inLineElement "Description";
      impressions := imps;
      creatives := cs |}, t3).

(** [parseWrapper(wrapperElement)]; its [creatives] stay empty. *)
Definition parseWrapper (wrapperElement : Node) (t : TrackingURLs)
    : Wrapper * TrackingURLs :=
  let '(imps, t1) :=
    fold_left eachImpression (querySelectorAll "Impression" wrapperElement) ([], t) in
  ({| w_adSystem := getElementText wrapperElement "AdSystem";
      vastAdTagURI := getElementText wrapperElement "VASTAdTagURI";
      w_impressions := imps |}, t1).

(** [parseAd(adElement, index)]. *)
Definition parseAd (adElement : Node) (index : nat) (t : TrackingURLs) : Ad * TrackingURLs :=
  let id := match VASTParser.or_null (getAttribute "id" adElement) with
            | Some i => i
            | None => ("ad-" ++ JS.string_of_N (N.of_nat index))%string
            end in
  let sequence := VASTParser.or_null (getAttribute "sequence" adElement) in
  match querySelector "InLine" adElement with
  | Some inLine =>
    let '(i, t1) := parseInLine inLine t in
    ({| id := id; sequence := sequence; inline := Some i; wrapper := None |}, t1)
  | None =>
    match querySelector "Wrapper" adElement with
    | Some wrapper =>
      let '(w, t1) := parseWrapper wrapper t in
      ({| id := id; sequence := sequence; inline := None; wrapper := Some w |}, t1)
    | None =>
      ({| id := id; sequence := sequence; inline := None; wrapper := None |}, t)
    end
  end.

(** The body of [adElements.forEach((adElement, index) => ...)]; the
    index is the number of ads seen so far, since every ad is kept. *)
Definition eachAd (acc : list Ad * TrackingURLs) (adElement : Node)
    : list Ad * TrackingURLs :=
  let '(ad, t) := parseAd adElement (length (fst acc)) (snd acc) in
  (fst acc ++ [ad], t).

(** [parseVASTDocument(xmlDoc)]. *)
Definition parseVASTDocument (xmlDoc : Document) (t : TrackingURLs)
    : VASTData * TrackingURLs :=
  let version :=
    match docQuerySelector "VAST" xmlDoc with
    | Some vast =>
      match VASTParser.or_null (getAttribute "version" vast) with
      | Some v => v
      | None => "Unknown"
      end
    | None => "Unknown"
    end in
  let '(ads, t1) := fold_left eachAd (docQuerySelectorAll "Ad" xmlDoc) ([], t) in
  ({| ads := ads; version := version |}, t1).

(** What [parse] returns. *)
Inductive Result :=
| Success (version : option string) (data : VASTData) (tracking : TrackingURLs)
| Failure (error : string).

(** [parse], from the document that [DOMParser] has built: the two
    checks, then the parse with a fresh catalog. *)
Definition parse (xmlDoc : Document) : Result :=
  match docQuerySelector "parsererror" xmlDoc with
  | Some parserError => Failure ("Invalid XML: " ++ textContent parserError)%string
  | None =>
    match docQuerySelector "VAST" xmlDoc with
    | None => Failure "Not a valid VAST document"
    | Some vastElement =>
      let '(data, t) := parseVASTDocument xmlDoc noTracking in
      Success (getAttribute "version" vastElement) data t
    end
  end.

(** The parsed data as the player reads it: of an ad its [type], its
    title and its creatives, of a creative its [type], its media files
    and its click-through. *)
Definition playerCreative (c : Creative) : VASTParser.Creative :=
  {| VASTParser.creative_id := c_id c;
     VASTParser.creative_data :=
       match c_data c with
       | LinearData l => VASTParser.Linear (mediaFiles l) (clickThrough (videoClicks l))
       | NonLinearData _ => VASTParser.NonLinear
       | CompanionData _ => VASTParser.Companion
       | NoData => VASTParser.NoData
       end |}.

Definition playerAd (a : Ad) : VASTParser.Ad :=
  {| VASTParser.ad_id := id a;
     VASTParser.ad_body :=
       match inline a, wrapper a with
       | Some i, _ => VASTParser.InLine (adTitle i) (map playerCreative (creatives i))
       | None, Some w => VASTParser.Wrapper (vastAdTagURI w)
       | None, None => VASTParser.NoBody
       end |}.

Definition playerData (d : VASTData) : VASTParser.VASTData :=
  {| VASTParser.ads := map playerAd (ads d); VASTParser.version := version d |}.

(** The impression URLs, the click entries and the tracking events that
    the data holds for an ad. *)
Definition adImpressions (a : Ad) : list string :=
  match inline a, wrapper a with
  | Some i, _ => impressions i
  | None, Some w => w_impressions w
  | None, None => []
  end.

Definition creativeLinears (cs : list Creative) : list Linear :=
  flat_map (fun c => match c_data c with LinearData l => [l] | _ => [] end) cs.

Definition linears (a : Ad) : list Linear :=
  match inline a with
  | Some i => creativeLinears (creatives i)
  | None => []
  end.

Definition linearClicks (l : Linear) : list Tracker.Click :=
  match clickThrough (videoClicks l) with
  | Some u => [Tracker.ClickObject "clickThrough" u]
  | None => []
  end ++
  match clickTracking (videoClicks l) with
  | Some urls => map (Tracker.ClickObject "clickTracking") urls
  | None => []
  end.

Definition linearTracking (l : Linear) : list Tracker.EventTracker :=
  map (fun e => {| Tracker.et_event := event e; Tracker.et_url := url e |})
      (trackingEvents l).

(** Two catalogs, one after the other. *)
Definition append (t d : TrackingURLs) : TrackingURLs :=
  {| VASTParser.impressions := VASTParser.impressions t ++ VASTParser.impressions d;
     VASTParser.clicks := VASTParser.clicks t ++ VASTParser.clicks d;
     VASTParser.tracking := VASTParser.tracking t ++ VASTParser.tracking d;
     VASTParser.errors := VASTParser.errors t ++ VASTParser.errors d |}.

(** The catalog entries that the data of a linear creative stands for. *)
Definition linearCatalog (l : Linear) : TrackingURLs :=
  {| VASTParser.impressions := []; VASTParser.clicks := linearClicks l;
     VASTParser.tracking := linearTracking l; VASTParser.errors := [] |}.

Definition creativeCatalog (c : Creative) : TrackingURLs :=
  match c_data c with
  | LinearData l => linearCatalog l
  | _ => noTracking
  end.

(** The loops of the parser, as lists: the non-empty texts of a list
    of elements, the impression entries and the tracking events they
    give. *)
Definition texts (l : list Node) : list string :=
  List.filter (fun u => negb (String.eqb u "")) (map text l).

Definition impressionEntries (l : list Node) : list Tracker.Impression :=
  flat_map (fun imp =>
              if String.eqb (text imp) "" then []
              else [Tracker.ImpObject (text imp)
                                      (VASTParser.or_null (getAttribute "id" imp))]) l.

Definition trackingEntries (l : list Node) : list TrackingEvent :=
  flat_map (fun n =>
              match VASTParser.or_null (getAttribute "event" n) with
              | Some ev => if String.eqb (text n) "" then []
                           else [ {| event := ev; url := text n |} ]
              | None => []
              end) l.

Definition catalogOf (imps : list Tracker.Impression) (cl : list Tracker.Click)
    (tr : list Tracker.EventTracker) (er : list string) : TrackingURLs :=
  {| VASTParser.impressions := imps; VASTParser.clicks := cl;
     VASTParser.tracking := tr; VASTParser.errors := er |}.

Definition adClicks (a : Ad) : list Tracker.Click := flat_map linearClicks (linears a).

Definition adTracking (a : Ad) : list Tracker.EventTracker :=
  flat_map linearTracking (linears a).

(** The catalog holds what the ads of the data hold, ad by ad. *)
Definition represents (l : list Ad) (t : TrackingURLs) : Prop :=
  map VideoPlayer.impressionURLOf (VASTParser.impressions t) = flat_map adImpressions l /\
  VASTParser.clicks t = flat_map adClicks l /\
  VASTParser.tracking t = flat_map adTracking l.

(** No entry of the catalog has an empty URL, except for the
    click-through; every click entry is an object of one of the two
    types; and no tracking entry has an empty event. *)
Definition wellFormed (t : TrackingURLs) : Prop :=
  Forall (fun i => VideoPlayer.impressionURLOf i <> "") (VASTParser.impressions t) /\
  Forall (fun c => exists u, c = Tracker.ClickObject "clickThrough" u \/
                             c = Tracker.ClickObject "clickTracking" u /\ u <> "")
         (VASTParser.clicks t) /\
  Forall (fun e => Tracker.et_event e <> "" /\ Tracker.et_url e <> "")
         (VASTParser.tracking t) /\
  Forall (fun u => u <> "") (VASTParser.errors t).

End VAST.

(** ** UIController: the helpers of the page *)

Module UIController.

(** A string of the page, as its UTF-16 code units: [length] and
    [substring] count code units. *)
Definition jsstring := list N.

(** ['...']. *)
Definition dots : jsstring := [46; 46; 46]%N.

(** [s.substring(0, n)]: a negative [n] counts as 0, one beyond the
    length as the length. *)
Definition substring0 (n : Z) (s : jsstring) : jsstring := firstn (Z.to_nat n) s.

Section TruncateURL.

(** [decodeURIComponent]; [None] when it throws. *)
Variable decodeURIComponent : jsstring -> option jsstring.

(** [truncateURL(url, maxLength)]; [url] is [None] when it is [null] or
    [undefined]. *)
Definition truncateURL (url : option jsstring) (maxLength : Z) : jsstring :=
  match url with
  | None => []
  | Some [] => []
  | Some u =>
    let url := match decodeURIComponent u with
               | Some decoded => decoded
               | None => u
               end in
    if (Z.of_nat (length url) <=? maxLength)%Z then url
    else substring0 (maxLength - 3) url ++ dots
  end.

End TruncateURL.

Section EventLog.

(** The children of [eventLogDiv], first child first; [Entry] is the
    [div] built for an event. *)
Context {Entry : Type}.

(** [while (children.length > 100) removeChild(lastChild)], with the
    number of rounds bounded by [fuel]. *)
Fixpoint limit (fuel : nat) (children : list Entry) : list Entry :=
  match fuel with
  | O => children
  | S fuel' =>
    if (100 <? length children)%nat then limit fuel' (removelast children)
    else children
  end.

(** [addEventLog(event)]: the new entry goes before the first child,
    then the list is cut; the loop ends within as many rounds as there
    are children. *)
Definition addEventLog (logEntry : Entry) (children : list Entry) : list Entry :=
  limit (S (length children)) (logEntry :: children).

(** The panel after the events [entries] have arrived, in this order. *)
Definition addAll (entries children : list Entry) : list Entry :=
  fold_left (fun cs e => addEventLog e cs) entries children.

End EventLog.

End UIController.

(** ** Sample data *)

Module Sample.

Import VASTParser VideoPlayer.

Definition env : Tracker.Env :=
  {| Tracker.dateNow := 1700000000000; Tracker.random1 := 192837465;
     Tracker.random2 := 847362819; Tracker.random3 := 564738291;
     Tracker.userAgent := "Mozilla/5.0 (X11)";
     Tracker.href := "https://inspector.example/index.html?x=1";
     Tracker.hostname := "inspector.example" |}.

Definition ambient : Tracker.Ambient :=
  {| Tracker.clock := 1700000000000; Tracker.env_at := fun _ => env |}.

(** A thirty-second video that plays MP4 only, at second [t]. *)
Definition videoAt (t : Z) : Video :=
  {| currentTime := Double.of_Z t; duration := Double.of_Z 30; ended := false;
     muted := false; volume := 1%Q; error := None;
     canPlayType := fun ty => String.eqb ty "video/mp4" |}.

Definition mp4 : MediaFileElement :=
  {| a_id := None; a_delivery := Some "progressive"; a_type := Some "video/mp4";
     a_width := Some "1920"; a_height := Some "1080"; a_codec := None;
     a_bitrate := Some "2000"; a_apiFramework := None;
     a_text := "https://cdn.example/ad.mp4" |}.

Definition simidFile : MediaFileElement :=
  {| a_id := None; a_delivery := Some "progressive"; a_type := Some "text/html";
     a_width := Some "1920"; a_height := Some "1080"; a_codec := None;
     a_bitrate := None; a_apiFramework := Some "SIMID-1.1";
     a_text := "https://cdn.example/simid/creative.html" |}.

Definition flash : MediaFileElement :=
  {| a_id := None; a_delivery := None;
     a_type := Some "application/x-shockwave-flash";
     a_width := None; a_height := None; a_codec := None;
     a_bitrate := None; a_apiFramework := None;
     a_text := "https://cdn.example/ad.swf" |}.

Definition vast : VASTData :=
  {| ads := [ {| ad_id := "ad-0";
                 ad_body := InLine (Some "Sample")
                   [ {| creative_id := None;
                        creative_data :=
                          Linear (parseMediaFiles [mp4])
                                 (Some "https://brand.example/") |} ] |} ];
     version := "3.0" |}.

Definition impressionURL : string := "https://t.example/imp?cb=[CACHEBUSTER]".

Definition eventURL (ev : string) : Tracker.EventTracker :=
  {| Tracker.et_event := ev; Tracker.et_url := "https://t.example/ev?e=" ++ ev |}.

(** One impression and one tracker for each of the five lifecycle
    points and for [pause]. *)
Definition catalog : TrackingURLs :=
  {| impressions := [Tracker.ImpObject impressionURL None];
     clicks := [Tracker.ClickObject "clickThrough" "https://brand.example/"];
     tracking := map eventURL
       ["start"; "firstQuartile"; "midpoint"; "thirdQuartile"; "complete"; "pause"];
     errors := ["https://t.example/err"] |}.

(** A catalog whose [start] tracker has the URL of the impression. *)
Definition sharedCatalog : TrackingURLs :=
  {| impressions := [Tracker.ImpObject impressionURL None];
     clicks := [];
     tracking := [ {| Tracker.et_event := "start"; Tracker.et_url := impressionURL |} ];
     errors := [] |}.

Definition task (e : Event) (t : Z) : Task :=
  {| amb := ambient; video := videoAt t; event := e |}.

(** The ad with [sharedCatalog] is loaded and played at once; the two
    requests end afterwards. *)
Definition sharedRun : System * list Effect :=
  run [ task (LoadAd vast sharedCatalog) 0;
        task (Media play) 0;
        task (Settle 0 Tracker.ImgError) 0;
        task (Settle 0 Tracker.ImgError) 0 ]
      initial.

(** A whole run: the ad is loaded and played to its end, and the six
    requests (the impression and the five lifecycle trackers) have
    ended. *)
Definition finished : System :=
  fst (run (task (LoadAd vast catalog) 0 :: playThrough ambient (videoAt 0) 30 ++
            repeat (task (Settle 0 Tracker.ImgError) 30) 6)
           initial).

(** A catalog that declares the same impression twice. *)
Definition duplicateCatalog : TrackingURLs :=
  {| impressions := [Tracker.ImpObject impressionURL None;
                     Tracker.ImpObject impressionURL (Some "second")];
     clicks := []; tracking := []; errors := [] |}.

(** The ad with [duplicateCatalog] is loaded; the two requests end. *)
Definition duplicateRun : System * list Effect :=
  run [ task (LoadAd vast duplicateCatalog) 0;
        task (Settle 0 Tracker.ImgLoad) 0;
        task (Settle 0 Tracker.ImgLoad) 0 ]
      initial.

(** A tracking URL, cut at its placeholders. *)
Definition segments : list Tracker.Segment :=
  [ Tracker.Lit "https://t.example/imp?a="; Tracker.Tok "[CACHEBUSTER]";
    Tracker.Lit "&b="; Tracker.Tok "[cacheBuster]";
    Tracker.Lit "&p="; Tracker.Tok "[PlayerName]";
    Tracker.Lit "&e="; Tracker.Tok "[ERRORCODE]" ].

Definition bridge : SIMIDBridge.Bridge :=
  {| SIMIDBridge.iframeReady := true; SIMIDBridge.creative := true;
     SIMIDBridge.sessionId := "simid_1700000000000_k3j9x0q1z";
     SIMIDBridge.isInitialized := true;
     SIMIDBridge.protocolVersion := "1.1";
     SIMIDBridge.environmentData :=
       {| SIMIDBridge.videoDimensions :=
            {| SIMIDBridge.width := 640; SIMIDBridge.height := 360 |};
          SIMIDBridge.creativeDimensions :=
            {| SIMIDBridge.width := 640; SIMIDBridge.height := 360 |};
          SIMIDBridge.env_fullscreen := false;
          SIMIDBridge.env_muted := false;
          SIMIDBridge.env_volume := 1 |};
     SIMIDBridge.creativeData :=
       {| SIMIDBridge.adParameters := ""; SIMIDBridge.creative_duration := 0 |};
     SIMIDBridge.trackingURLs := None |}.

(** A pause request of another session. *)
Definition foreignMessage : SIMIDBridge.Message :=
  {| SIMIDBridge.m_sessionId := JS.VString "simid_1600000000000_other";
     SIMIDBridge.m_messageId := JS.VString "msg_1";
     SIMIDBridge.m_type := JS.VString "Creative.requestPause";
     SIMIDBridge.m_args := None |}.

Definition media : SIMIDBridge.Media :=
  {| SIMIDBridge.currentTime := 3; SIMIDBridge.duration := Some 30%Q;
     SIMIDBridge.muted := false; SIMIDBridge.volume := 1;
     SIMIDBridge.paused := false; SIMIDBridge.ended := false;
     SIMIDBridge.fullscreen := false |}.

Definition bridgeAmbient : SIMIDBridge.Ambient :=
  {| SIMIDBridge.now := 1700000000500;
     SIMIDBridge.messageId := "msg_1700000000500_ab12c" |}.

(** The state of a player that has loaded [vast] with [catalog] into a
    fresh system. *)
Definition loaded : System := fst (step (task (LoadAd vast catalog) 0) initial).

(** The loaded ad after the play event and a first position update at
    0%: [start] has fired, no quartile has. *)
Definition started : System :=
  fst (run [task (Media play) 0; task (Media timeupdate) 0] loaded).

(** The sample video at its natural end. *)
Definition videoEnded : Video :=
  {| currentTime := Double.of_Z 30; duration := Double.of_Z 30; ended := true;
     muted := false; volume := 1%Q; error := None;
     canPlayType := fun ty => String.eqb ty "video/mp4" |}.

(** The started ad is paused at second 12, and the request of the pause
    tracker (the third one sent, after the impression and [start]) has
    ended. *)
Definition pausedOnce : System :=
  fst (run [task (Media pause) 12; task (Settle 2 Tracker.ImgLoad) 12] started).


(** The started ad after two position updates at second 24, which have
    fired [firstQuartile] and [midpoint]. *)
Definition afterMidpoint : System :=
  fst (run [task (Media timeupdate) 24; task (Media timeupdate) 24] started).


(** A video of 0.32 seconds at 0.24 seconds. *)
Definition shortVideo : Video :=
  {| currentTime := Double.ratio 24 100; duration := Double.ratio 32 100;
     ended := false; muted := false; volume := 1%Q; error := None;
     canPlayType := fun ty => String.eqb ty "video/mp4" |}.

(** Requests of the session of [bridge]. *)
Definition ownMessage (ty : string) (args : option SIMIDBridge.Args) : SIMIDBridge.Message :=
  {| SIMIDBridge.m_sessionId := JS.VString "simid_1700000000000_k3j9x0q1z";
     SIMIDBridge.m_messageId := JS.VString "msg_7";
     SIMIDBridge.m_type := JS.VString ty;
     SIMIDBridge.m_args := args |}.

(** The bridge of a player whose catalog is [catalog]. *)
Definition bridgeWithCatalog : SIMIDBridge.Bridge :=
  {| SIMIDBridge.iframeReady := true; SIMIDBridge.creative := true;
     SIMIDBridge.sessionId := "simid_1700000000000_k3j9x0q1z";
     SIMIDBridge.isInitialized := true;
     SIMIDBridge.protocolVersion := "1.1";
     SIMIDBridge.environmentData := SIMIDBridge.environmentData bridge;
     SIMIDBridge.creativeData := SIMIDBridge.creativeData bridge;
     SIMIDBridge.trackingURLs := Some (tracking catalog) |}.

(** A document with a wrapper ad and an inline ad. *)
Definition el (name : string) (attrs : list (string * string)) (cs : list DOM.Node)
    : DOM.Node := DOM.Element name attrs cs.

Definition leaf (name : string) (attrs : list (string * string)) (txt : string)
    : DOM.Node := DOM.Element name attrs [DOM.Text txt].

Definition document : DOM.Document :=
  {| DOM.documentElement :=
       el "VAST" [("version", "3.0")]
         [ el "Ad" [("id", "w1")]
             [ el "Wrapper" []
                 [ leaf "AdSystem" [] "Relay";
                   leaf "VASTAdTagURI" [] "https://ads.example/next.xml";
                   leaf "Impression" [] "https://t.example/wrapper-imp";
                   el "Creatives" []
                     [ el "Creative" []
                         [ el "Linear" []
                             [ el "TrackingEvents" []
                                 [ leaf "Tracking" [("event", "start")]
                                        "https://t.example/wrapper-start" ] ] ] ] ] ];
           el "Ad" []
             [ el "InLine" []
                 [ leaf "AdSystem" [] "Demo";
                   leaf "AdTitle" [] "Sample";
                   leaf "Impression" [("id", "a")] "
                     https://t.example/imp?cb=[CACHEBUSTER]
                   ";
                   leaf "Impression" [] "   ";
                   leaf "Error" [] "https://t.example/err?code=[ERRORCODE]";
                   el "Creatives" []
                     [ el "Creative" [("id", "c1")]
                         [ el "Linear" []
                             [ leaf "Duration" [] "00:00:30";
                               el "TrackingEvents" []
                                 [ leaf "Tracking" [("event", "start")]
                                        "https://t.example/ev?e=start";
                                   leaf "Tracking" [("event", "complete")]
                                        "https://t.example/ev?e=complete";
                                   leaf "Tracking" [] "https://t.example/ev?e=none";
                                   leaf "Tracking" [("event", "pause")] "" ];
                               el "VideoClicks" []
                                 [ leaf "ClickThrough" [] "https://brand.example/";
                                   leaf "ClickTracking" [] "https://t.example/click" ];
                               el "MediaFiles" []
                                 [ leaf "MediaFile"
                                        [("delivery", "progressive"); ("type", "video/mp4");
                                         ("width", "1920"); ("height", "1080")]
                                        "https://cdn.example/ad.mp4" ] ] ] ] ] ] ] |}.

(** A response with no ad. *)
Definition emptyDocument : DOM.Document :=
  {| DOM.documentElement := el "VAST" [("version", "4.0")] [] |}.

(** A response made of one wrapper. *)
Definition wrapperDocument : DOM.Document :=
  {| DOM.documentElement :=
       el "VAST" [("version", "3.0")]
         [ el "Ad" [("id", "w1")]
             [ el "Wrapper" []
                 [ leaf "VASTAdTagURI" [] "https://ads.example/next.xml";
                   leaf "Impression" [] "https://t.example/wrapper-imp" ] ] ] |}.

(** What [parse] returns for [document], and the player that has
    loaded it. *)
Definition parsed : VAST.VASTData * VASTParser.TrackingURLs :=
  match VAST.parse document with
  | VAST.Success _ data t => (data, t)
  | VAST.Failure _ => ({| VAST.ads := []; VAST.version := "" |}, VAST.noTracking)
  end.

Definition documentLoaded : System :=
  fst (fst (loadAd ambient (videoAt 0) (VAST.playerData (fst parsed)) (snd parsed) initial)).

(** A volume request of the session of [bridge]. *)
Definition volumeRequest : SIMIDBridge.Message :=
  ownMessage "Creative.requestChangeVolume"
    (Some {| SIMIDBridge.trackingUrls := None; SIMIDBridge.arg_volume := Some (1 # 2) |}).

End Sample.

(** ** Tasks, as the tracker sees them *)

Module Steps.

Import VideoPlayer.

(** What a task does to the world of the tracker: it clears the ledger,
    it ends one request, or it makes one batch of calls of [fireTracker]
    (possibly empty) whose requests are the requests among its effects. *)
Inductive Change (k : Task) (s : System) (s' : System) (fx : list Effect) : Prop :=
| Cleared :
    event k = ClearAll ->
    world s' = Tracker.resetWorld (world s) -> requested fx = [] ->
    Change k s s' fx
| Settled i o :
    event k = Settle i o ->
    world s' = fst (Tracker.settle (Tracker.clock (amb k)) i o (world s)) ->
    requested fx = [] ->
    Change k s s' fx
| Batch ctx calls :
    event k <> ClearAll ->
    Forall (fun c => In (Tracker.c_type c) Tracker.callTypes) calls ->
    world s' = fst (Tracker.fireAll (amb k) ctx 0 calls (world s)) ->
    requested fx = map Tracker.s_url (snd (Tracker.fireAll (amb k) ctx 0 calls (world s))) ->
    Change k s s' fx.

End Steps.

(** * Properties *)

(** ** The firing ledger *)

Section Ledger.

Import Tracker.

(** The guard of [fireTracker]: a URL in [firedTrackers] is turned away
    before anything is done. *)
Lemma fireTracker_start_fired env now u ty ev ctx tr :
  u ∈ firedTrackers tr -> fireTracker_start env now u ty ev ctx tr = None.
Proof.
  intros Hin. unfold fireTracker_start.
  rewrite (bool_decide_eq_true_2 _ Hin). now rewrite orb_true_r.
Qed.

Lemma fireTracker_start_empty env now ty ev ctx tr :
  fireTracker_start env now "" ty ev ctx tr = None.
Proof. reflexivity. Qed.

Lemma fireTracker_start_new env now u ty ev ctx tr :
  u <> "" -> u ∉ firedTrackers tr ->
  fireTracker_start env now u ty ev ctx tr =
    Some {| s_url := u; s_type := ty; s_event := ev; s_timestamp := now;
            s_processedURL := replaceMacros env ctx u |}.
Proof.
  intros Hne Hnin. unfold fireTracker_start.
  rewrite (bool_decide_eq_false_2 _ Hnin).
  destruct (String.eqb_spec u ""); [contradiction | reflexivity].
Qed.

(** A batch leaves the ledger as it is: the calls only add waiting
    activations. *)
Lemma fireAll_ledger amb ctx calls : forall i w,
  ledger (fst (fireAll amb ctx i calls w)) = ledger w.
Proof.
  induction calls as [|c rest IH]; intros i w; simpl; [reflexivity|].
  destruct (fireTracker_start _ _ _ _ _ _ _) as [s|].
  - specialize (IH (S i) {| ledger := ledger w; inflight := inflight w ++ [s] |}).
    destruct (fireAll _ _ _ _ _) as [w' issued]. exact IH.
  - apply IH.
Qed.

(** With every URL of the batch already fired, the batch does nothing. *)
Lemma fireAll_all_fired amb ctx calls : forall i w,
  Forall (fun c => c_url c ∈ firedTrackers (ledger w)) calls ->
  fireAll amb ctx i calls w = (w, []).
Proof.
  induction calls as [|c rest IH]; intros i w Hall; simpl; [reflexivity|].
  inversion Hall as [|? ? Hc Hrest]; subst.
  rewrite (fireTracker_start_fired _ _ _ _ _ _ _ Hc). now apply IH.
Qed.

End Ledger.

(** Two calls for one URL in one batch both get past the guard: the
    first has not marked the URL when the second is made. *)
Lemma fireAll_twice a ctx u ty ev :
  u <> "" ->
  map Tracker.s_url
    (snd (Tracker.fireAll a ctx 0
            [ {| Tracker.c_url := u; Tracker.c_type := ty; Tracker.c_event := ev |};
              {| Tracker.c_url := u; Tracker.c_type := ty; Tracker.c_event := ev |} ]
            Tracker.fresh))
  = [u; u].
Proof.
  intros Hne. cbn [Tracker.fireAll Tracker.c_url Tracker.c_type Tracker.c_event
                   Tracker.ledger Tracker.fresh Tracker.inflight].
  rewrite !fireTracker_start_new by (assumption || apply not_elem_of_empty).
  reflexivity.
Qed.

(** C1 (failing runs).  In [Sample.sharedRun] the impression and the
    [start] tracker share one raw URL, and the ad is played before the
    impression request has ended; in [Sample.duplicateRun] the same
    impression is declared twice.  In both, two calls of [fireTracker] for
    the one raw URL pass the guard, two requests leave, and once they have
    ended the log holds two records for that URL. *)
Theorem shared_url_fires_twice :
  (VideoPlayer.requested (snd Sample.sharedRun)
     = [Sample.impressionURL; Sample.impressionURL] /\
   map Tracker.originalURL
       (Tracker.trackingLog (Tracker.ledger (VideoPlayer.world (fst Sample.sharedRun))))
     = [Some Sample.impressionURL; Some Sample.impressionURL] /\
   map Tracker.type
       (Tracker.trackingLog (Tracker.ledger (VideoPlayer.world (fst Sample.sharedRun))))
     = ["impression"; "event"] /\
   map Tracker.status
       (Tracker.trackingLog (Tracker.ledger (VideoPlayer.world (fst Sample.sharedRun))))
     = [Tracker.success; Tracker.success]) /\
  (VideoPlayer.requested (snd Sample.duplicateRun)
     = [Sample.impressionURL; Sample.impressionURL] /\
   map Tracker.originalURL
       (Tracker.trackingLog
          (Tracker.ledger (VideoPlayer.world (fst Sample.duplicateRun))))
     = [Some Sample.impressionURL; Some Sample.impressionURL] /\
   map Tracker.status
       (Tracker.trackingLog
          (Tracker.ledger (VideoPlayer.world (fst Sample.duplicateRun))))
     = [Tracker.success; Tracker.success]).
Proof. vm_compute. repeat split. Qed.

(** C10.  [sendTracking] resolves with [true] however the image ends, so
    a call of [fireTracker] for a non-empty URL that is not yet in
    [firedTrackers] gets past the guard, and whenever its request ends the
    call returns [true], having marked the URL and appended one record
    with status [success]; the [catch] branch is not taken. *)
Theorem fireTracker_always_succeeds env now u ty ev ctx tr :
  u <> "" -> u ∉ Tracker.firedTrackers tr ->
  (forall o, Tracker.sendTracking o = Tracker.Resolved true) /\
  exists s,
    Tracker.fireTracker_start env now u ty ev ctx tr = Some s /\
    Tracker.s_url s = u /\
    forall o now' tr', exists r,
      Tracker.fireTracker_resume now' s (Tracker.sendTracking o) tr' =
        ({| Tracker.firedTrackers := {[ u ]} ∪ Tracker.firedTrackers tr';
            Tracker.trackingLog := Tracker.trackingLog tr' ++ [r] |}, true) /\
      Tracker.status r = Tracker.success /\
      Tracker.originalURL r = Some u.
Proof.
  intros Hne Hnin. split.
  - intros []; reflexivity.
  - eexists. split; [apply fireTracker_start_new; assumption|].
    split; [reflexivity|].
    intros o now' tr'. destruct o; simpl; eexists; repeat split.
Qed.

Lemma fireTracker_always_succeeds_witness :
  ("https://t.example/ev" <> "" /\
   "https://t.example/ev" ∉ Tracker.firedTrackers Tracker.create) /\
  ((forall o, Tracker.sendTracking o = Tracker.Resolved true) /\
   exists s,
     Tracker.fireTracker_start Sample.env 7 "https://t.example/ev" "event"
       (Some "start") Tracker.noContext Tracker.create = Some s /\
     Tracker.s_url s = "https://t.example/ev" /\
     forall o now' tr', exists r,
       Tracker.fireTracker_resume now' s (Tracker.sendTracking o) tr' =
         ({| Tracker.firedTrackers :=
               {[ "https://t.example/ev" ]} ∪ Tracker.firedTrackers tr';
             Tracker.trackingLog := Tracker.trackingLog tr' ++ [r] |}, true) /\
       Tracker.status r = Tracker.success /\
       Tracker.originalURL r = Some "https://t.example/ev").
Proof.
  split.
  - split; [discriminate | apply not_elem_of_empty].
  - apply (fireTracker_always_succeeds Sample.env 7 "https://t.example/ev" "event"
             (Some "start") Tracker.noContext Tracker.create);
      [discriminate | apply not_elem_of_empty].
Defined.

(** ** The SIMID bridge *)

Lemma strict_eq_true a b : JS.strict_eq a b = true -> a = b.
Proof.
  destruct a, b; simpl; try discriminate; intros H; try reflexivity.
  - f_equal. now apply Bool.eqb_prop.
  - f_equal. now apply N.eqb_eq.
  - f_equal. now apply String.eqb_eq.
Qed.

(** C9.  A message whose [sessionId] is not the bridge's, or that has no
    [type] or no [sessionId], is dropped by [onMessage] before the
    dispatch, whether it arrives as an object or as JSON text: the bridge
    is returned as it was, nothing is posted or done to the video or the
    tracker, and no handler runs. *)
Theorem foreign_message_ignored parse amb v (b : SIMIDBridge.Bridge) m d :
  (SIMIDBridge.m_sessionId m <> JS.VString (SIMIDBridge.sessionId b) \/
   SIMIDBridge.m_type m = JS.VUndefined \/
   SIMIDBridge.m_sessionId m = JS.VUndefined) ->
  (d = SIMIDBridge.ObjectData m \/
   exists s, d = SIMIDBridge.TextData s /\ parse s = SIMIDBridge.ParsedObject m) ->
  SIMIDBridge.onMessage parse amb v d b = (b, [], SIMIDBridge.Ignored).
Proof.
  intros Hm Hd.
  assert (Hf : SIMIDBridge.foreign b m = true).
  { unfold SIMIDBridge.foreign.
    destruct Hm as [Hs | [Ht | Hs]].
    - destruct (JS.strict_eq (SIMIDBridge.m_sessionId m)
                  (JS.VString (SIMIDBridge.sessionId b))) eqn:E.
      + apply strict_eq_true in E. contradiction.
      + now rewrite orb_true_r.
    - now rewrite Ht.
    - rewrite Hs. simpl. now rewrite orb_true_r. }
  destruct Hd as [-> | (s & -> & Hp)]; simpl.
  - now rewrite Hf.
  - now rewrite Hp, Hf.
Qed.

Lemma foreign_message_ignored_witness :
  (SIMIDBridge.m_sessionId Sample.foreignMessage
     <> JS.VString (SIMIDBridge.sessionId Sample.bridge) \/
   SIMIDBridge.m_type Sample.foreignMessage = JS.VUndefined \/
   SIMIDBridge.m_sessionId Sample.foreignMessage = JS.VUndefined) /\
  SIMIDBridge.onMessage (fun _ => SIMIDBridge.SyntaxError) Sample.bridgeAmbient
    Sample.media (SIMIDBridge.ObjectData Sample.foreignMessage) Sample.bridge
  = (Sample.bridge, [], SIMIDBridge.Ignored).
Proof.
  assert (H : SIMIDBridge.m_sessionId Sample.foreignMessage
                <> JS.VString (SIMIDBridge.sessionId Sample.bridge) \/
              SIMIDBridge.m_type Sample.foreignMessage = JS.VUndefined \/
              SIMIDBridge.m_sessionId Sample.foreignMessage = JS.VUndefined)
    by (left; discriminate).
  split; [exact H|].
  apply (foreign_message_ignored (fun _ => SIMIDBridge.SyntaxError)
           Sample.bridgeAmbient Sample.media Sample.bridge Sample.foreignMessage
           (SIMIDBridge.ObjectData Sample.foreignMessage) H).
  left; reflexivity.
Defined.

(** With the session of the bridge the same message is dispatched: the
    guard is what drops the foreign one. *)
Lemma own_message_handled parse amb v (b : SIMIDBridge.Bridge) mid args :
  SIMIDBridge.sessionId b <> "" ->
  SIMIDBridge.onMessage parse amb v
    (SIMIDBridge.ObjectData
       {| SIMIDBridge.m_sessionId := JS.VString (SIMIDBridge.sessionId b);
          SIMIDBridge.m_messageId := mid;
          SIMIDBridge.m_type := JS.VString "Creative.requestPause";
          SIMIDBridge.m_args := args |}) b
  = (b, SIMIDBridge.PauseVideo :: SIMIDBridge.sendResolve amb b mid SIMIDBridge.Nothing,
     SIMIDBridge.Handled "Creative.requestPause").
Proof.
  intros Hne. unfold SIMIDBridge.onMessage, SIMIDBridge.foreign. simpl.
  rewrite String.eqb_refl.
  destruct (String.eqb_spec (SIMIDBridge.sessionId b) ""); [contradiction|].
  reflexivity.
Qed.

(** ** Media files *)

(** [isVPAID] is set exactly for the framework [VPAID] and for the two
    executable types. *)
Lemma parseMediaFile_isVPAID mf :
  VASTParser.isVPAID (VASTParser.parseMediaFile mf) = true <->
  VASTParser.a_apiFramework mf = Some "VPAID" \/
  VASTParser.a_type mf = Some "application/x-shockwave-flash" \/
  VASTParser.a_type mf = Some "application/javascript".
Proof.
  unfold VASTParser.parseMediaFile; simpl.
  rewrite !orb_true_iff.
  assert (Hor : forall x lit, lit <> "" ->
            VASTParser.attr_is (VASTParser.or_null x) lit = true <-> x = Some lit).
  { intros [x|] lit Hl; simpl; [|split; discriminate].
    destruct (String.eqb_spec x "") as [->|Hx]; simpl.
    - split; [discriminate | intros [= <-]; contradiction].
    - destruct (String.eqb_spec x lit) as [->|Hn]; split; try reflexivity;
        try discriminate. intros [= ->]. contradiction. }
  assert (Hat : forall x lit, VASTParser.attr_is x lit = true <-> x = Some lit).
  { intros [x|] lit; simpl; [|split; discriminate].
    destruct (String.eqb_spec x lit) as [->|Hn]; split; try reflexivity;
      try discriminate. intros [= ->]. contradiction. }
  rewrite Hat, !Hor by discriminate. tauto.
Qed.

Lemma flash_isVPAID :
  VASTParser.isVPAID (VASTParser.parseMediaFile Sample.flash) = true.
Proof. reflexivity. Qed.

(** The parser sets neither [isSIMID] nor [isInteractive]. *)
Lemma parseMediaFile_no_simid mf :
  VASTParser.get (VASTParser.parseMediaFile mf) "isSIMID" = JS.VUndefined /\
  VASTParser.get (VASTParser.parseMediaFile mf) "isInteractive" = JS.VUndefined.
Proof. split; reflexivity. Qed.

(** On objects that do carry both flags, the selection of the SIMID
    player takes the first such file. *)
Lemma selectMediaFileSIMID_prefers {Obj} (prop : Obj -> string -> JS.value)
    canPlay files f :
  List.find (Select.simid prop) files = Some f ->
  Select.selectMediaFileSIMID prop canPlay files = Some f.
Proof. intros H. unfold Select.selectMediaFileSIMID. now rewrite H. Qed.

(** C6 (failing input).  Parsed from a document, a media file with the
    framework [SIMID-1.1] gets no interactive flag ([isVPAID] is the only
    classification the parser computes), and of that file and an MP4 the
    SIMID player selects the MP4. *)
Theorem simid_file_not_classified :
  let files := VASTParser.parseMediaFiles [Sample.simidFile; Sample.mp4] in
  map (fun mf => VASTParser.get mf "isInteractive") files
    = [JS.VUndefined; JS.VUndefined] /\
  map (fun mf => VASTParser.get mf "isSIMID") files
    = [JS.VUndefined; JS.VUndefined] /\
  map VASTParser.isVPAID files = [false; false] /\
  Select.selectMediaFileSIMID VASTParser.get
    (VideoPlayer.canPlayType (Sample.videoAt 0)) files
    = Some (VASTParser.parseMediaFile Sample.mp4).
Proof. repeat split. Qed.

(** ** The lifecycle handlers *)

Section Lifecycle.

Import VideoPlayer.

Lemma firedEvents_app a b : firedEvents (a ++ b) = firedEvents a ++ firedEvents b.
Proof. unfold firedEvents. now rewrite flat_map_app. Qed.

Lemma firedEvents_requests l : firedEvents (map Request l) = [].
Proof. induction l; [reflexivity | exact IHl]. Qed.

Lemma logEvent_spec a v ty msg s s1 fx1 :
  logEvent a v ty msg s = (s1, fx1) ->
  view s1 = view s /\ world s1 = world s /\ vastData (player s1) = vastData (player s) /\
  firedEvents fx1 = [].
Proof. unfold logEvent. intros [= <- <-]. repeat split. Qed.

(** A call of [fireEventTrackers] from a handler, with the catalog in
    place: the event is handed to the tracker once, the flags change as
    the handler says, and the catalog and the listeners stay. *)
Lemma fireEvent_spec a v ev mark msg s t s2 fx2 :
  trackingURLs (player s) = Some t ->
  fireEvent a v ev mark msg s = (s2, fx2) ->
  view s2 = (mark (quartilesFired (player s)), Some t, listening (player s)) /\
  firedEvents fx2 = [ev].
Proof.
  intros Ht. unfold fireEvent. rewrite Ht.
  destruct (Tracker.fireEventTrackers _ _ _ _ _) as [w issued].
  destruct msg as [m|].
  - destruct (logEvent _ _ _ _ _) as [s3 fx3] eqn:E3.
    apply logEvent_spec in E3 as (Hv & _ & _ & Hf).
    intros [= <- <-]. split.
    + rewrite Hv. unfold view; simpl. now rewrite Ht.
    + change (firedEvents ((Fire (EventTrackers ev) :: map Request issued) ++ fx3) = [ev]).
      rewrite firedEvents_app, Hf. simpl. now rewrite firedEvents_requests.
  - intros [= <- <-]. split.
    + unfold view; simpl. now rewrite Ht.
    + simpl. now rewrite firedEvents_requests.
Qed.


Lemma onEnded_spec a v s t :
  trackingURLs (player s) = Some t ->
  view (fst (onEnded a v s)) =
    ({| start := start (quartilesFired (player s));
        firstQuartile := firstQuartile (quartilesFired (player s));
        midpoint := midpoint (quartilesFired (player s));
        thirdQuartile := thirdQuartile (quartilesFired (player s));
        complete := true |},
     Some t, listening (player s)) /\
  firedEvents (snd (onEnded a v s)) =
    if complete (quartilesFired (player s)) then [] else ["complete"].
Proof.
  intros Ht. unfold onEnded.
  destruct (logEvent _ _ _ _ s) as [s1 fx1] eqn:E1.
  apply logEvent_spec in E1 as (Hv & _ & _ & Hf).
  injection Hv as Hq Htr Hl. rewrite Hq.
  destruct (complete (quartilesFired (player s))) eqn:Hs; simpl.
  - split; [|exact Hf]. unfold view. rewrite Hq, Htr, Hl, Ht.
    destruct (quartilesFired (player s)); simpl in *; now subst.
  - destruct (fireEvent _ _ _ _ _ s1) as [s2 fx2] eqn:E2.
    eapply fireEvent_spec with (t := t) in E2 as (Hv2 & Hf2); [|congruence].
    simpl. rewrite firedEvents_app, Hf, Hf2. split; [|reflexivity].
    rewrite Hv2, Hq, Hl. reflexivity.
Qed.

Lemma onPause_spec a v s t :
  trackingURLs (player s) = Some t ->
  view (fst (onPause a v s)) = view s /\
  firedEvents (snd (onPause a v s)) = if ended v then [] else ["pause"].
Proof.
  intros Ht. unfold onPause. destruct (ended v); cbn [negb]; [split; reflexivity|].
  destruct (logEvent _ _ _ _ s) as [s1 fx1] eqn:E1.
  apply logEvent_spec in E1 as (Hv & _ & _ & Hf).
  injection Hv as Hq Htr Hl.
  destruct (fireEvent _ _ _ _ _ s1) as [s2 fx2] eqn:E2.
  eapply fireEvent_spec with (t := t) in E2 as (Hv2 & Hf2); [|congruence].
  simpl. rewrite firedEvents_app, Hf, Hf2. split; [|reflexivity].
  rewrite Hv2, Hq, Hl. unfold view. now rewrite Ht.
Qed.

End Lifecycle.

Section LifecycleClaims.

Import VideoPlayer.

Lemma run_cons_events k ks s :
  firedEvents (snd (run (k :: ks) s)) =
  firedEvents (snd (step k s)) ++ firedEvents (snd (run ks (fst (step k s)))).
Proof.
  simpl. destruct (step k s) as [s1 fx1]. simpl.
  destruct (run ks s1) as [s2 fx2]. simpl. apply firedEvents_app.
Qed.

Lemma step_media a v e s :
  listening (player s) = true ->
  step {| amb := a; video := v; event := Media e |} s = handler e a v s.
Proof. intros H. unfold step; simpl. now rewrite H. Qed.


End LifecycleClaims.

(** ** Reset and reload *)

Section Reload.

Import VideoPlayer.




Lemma fireAll_fresh_requests a ctx calls : forall i w,
  Tracker.firedTrackers (Tracker.ledger w) = ∅ ->
  map Tracker.s_url (snd (Tracker.fireAll a ctx i calls w))
  = List.filter nonEmpty (map Tracker.c_url calls).
Proof.
  induction calls as [|c rest IH]; intros i w Hw; [reflexivity|].
  cbn [Tracker.fireAll map List.filter]. unfold nonEmpty at 1.
  destruct (String.eqb_spec (Tracker.c_url c) "") as [E|E].
  - rewrite E. cbn [negb]. rewrite fireTracker_start_empty. now apply IH.
  - rewrite fireTracker_start_new; [|assumption|rewrite Hw; apply not_elem_of_empty].
    specialize (IH (S i)
      {| Tracker.ledger := Tracker.ledger w;
         Tracker.inflight := Tracker.inflight w ++
           [ {| Tracker.s_url := Tracker.c_url c; Tracker.s_type := Tracker.c_type c;
                Tracker.s_event := Tracker.c_event c;
                Tracker.s_timestamp := Tracker.clock a;
                Tracker.s_processedURL :=
                  Tracker.replaceMacros (Tracker.env_at a i) ctx (Tracker.c_url c) |} ] |}
      Hw).
    destruct (Tracker.fireAll _ _ _ _ _) as [w' issued]. cbn [negb snd map] in *.
    now rewrite IH.
Qed.

(** [loadAd] fires no event tracker. *)
Lemma loadAd_no_events a v d t s : firedEvents (snd (fst (loadAd a v d t s))) = [].
Proof.
  unfold loadAd.
  destruct (findInline d) as [[title creatives]|]; [|reflexivity].
  destruct (findLinear creatives) as [[mediaFiles ct]|]; [|reflexivity].
  destruct (selectMediaFile v mediaFiles) as [mf|]; [|reflexivity].
  unfold logEvent. cbn -[Tracker.fireImpressions].
  destruct (Tracker.fireImpressions _ _ _ _) as [w issued]. cbn [fst snd].
  change (firedEvents (map Request issued) = []). apply firedEvents_requests.
Qed.

Lemma requested_requests l : requested (map Request l) = map Tracker.s_url l.
Proof. induction l; [reflexivity | simpl; now f_equal]. Qed.

End Reload.

(** On the sample ad the run of C3 sends one request for each of the five
    lifecycle trackers, in order. *)
Lemma lifecycle_requests_sample :
  VideoPlayer.requested
    (snd (VideoPlayer.run (VideoPlayer.playThrough Sample.ambient (Sample.videoAt 0) 30)
            Sample.loaded))
  = [ "https://t.example/ev?e=start"; "https://t.example/ev?e=firstQuartile";
      "https://t.example/ev?e=midpoint"; "https://t.example/ev?e=thirdQuartile";
      "https://t.example/ev?e=complete" ].
Proof. vm_compute. reflexivity. Qed.

(** The sample run has fired everything, and nothing is left waiting. *)
Lemma finished_run :
  VideoPlayer.complete (VideoPlayer.quartilesFired (VideoPlayer.player Sample.finished))
    = true /\
  Tracker.getFiredCount (Tracker.ledger (VideoPlayer.world Sample.finished)) = 6%nat /\
  length (Tracker.trackingLog (Tracker.ledger (VideoPlayer.world Sample.finished)))
    = 6%nat /\
  Tracker.inflight (VideoPlayer.world Sample.finished) = [].
Proof. vm_compute. repeat split. Qed.

(** A pending request that ends after the reset marks its URL in the
    cleared set: here the impression request of the first load ends
    between [clearAll] and the second load, which then sends nothing. *)
Lemma stale_request_after_reset :
  VideoPlayer.requested
    (snd (VideoPlayer.run
            [ Sample.task (VideoPlayer.LoadAd Sample.vast Sample.catalog) 0;
              Sample.task VideoPlayer.ClearAll 0;
              Sample.task (VideoPlayer.Settle 0 Tracker.ImgTimeout) 0;
              Sample.task (VideoPlayer.LoadAd Sample.vast Sample.catalog) 0 ]
            VideoPlayer.initial))
  = [Sample.impressionURL].
Proof. vm_compute. reflexivity. Qed.

(** ** Macro substitution *)

Section Macros.

Import JS.

#[local] Arguments String.append !s1 s2 : simpl nomatch.

Lemma append_assoc (a b c : string) : ((a ++ b) ++ c = a ++ (b ++ c))%string.
Proof. induction a as [|x a IH]; simpl; [reflexivity | now rewrite IH]. Qed.

Lemma append_nil_r (a : string) : (a ++ "")%string = a.
Proof. induction a as [|x a IH]; simpl; [reflexivity | now rewrite IH]. Qed.

Lemma length_append (a b : string) :
  String.length (a ++ b) = (String.length a + String.length b)%nat.
Proof. induction a as [|x a IH]; simpl; [reflexivity | now rewrite IH]. Qed.

Lemma all_append p (a b : string) : all p (a ++ b) = all p a && all p b.
Proof.
  induction a as [|x a IH]; simpl; [reflexivity|]. now rewrite IH, andb_assoc.
Qed.

(** *** Characters *)

Lemma lower_to_upper p :
  is_lower p = true -> is_upper (ascii_of_nat (nat_of_ascii p - 32)) = true.
Proof.
  destruct p as [[] [] [] [] [] [] [] []]; intros H; try discriminate H; reflexivity.
Qed.

Lemma digit_not_letter c : is_digit c = true -> is_letter c = false.
Proof.
  destruct c as [[] [] [] [] [] [] [] []]; intros H; try discriminate H; reflexivity.
Qed.

(** A character that is not a letter is matched by itself only. *)
Lemma eqb_ci_char_fixed p c :
  is_letter c = false -> eqb_ci_char p c = true -> p = c.
Proof.
  unfold is_letter, eqb_ci_char, upper. intros Hc H.
  apply orb_false_iff in Hc as [Hl Hu]. rewrite Hl in H.
  destruct (is_lower p) eqn:Hp.
  - apply Ascii.eqb_eq in H. apply lower_to_upper in Hp. rewrite H in Hp. congruence.
  - now apply Ascii.eqb_eq in H.
Qed.

Lemma eqb_ci_char_sym a b : eqb_ci_char a b = eqb_ci_char b a.
Proof. unfold eqb_ci_char. apply Ascii.eqb_sym. Qed.

Lemma eqb_ci_char_trans a b c :
  eqb_ci_char a b = true -> eqb_ci_char b c = true -> eqb_ci_char a c = true.
Proof.
  unfold eqb_ci_char. rewrite !Ascii.eqb_eq. congruence.
Qed.

Lemma eqb_ci_char_letter a b :
  is_letter a = true -> eqb_ci_char a b = true -> is_letter b = true.
Proof.
  intros Ha H. destruct (is_letter b) eqn:Hb; [reflexivity|].
  apply eqb_ci_char_fixed in H; [|assumption]. congruence.
Qed.

(** *** Matching *)

Lemma prefix_ci_length p s :
  prefix_ci p s = true -> (String.length p <= String.length s)%nat.
Proof.
  revert s. induction p as [|x p IH]; intros [|c s]; simpl; try lia; try discriminate.
  intros H. apply andb_true_iff in H as [_ H]. apply IH in H. lia.
Qed.

Lemma eqb_ci_prefix p t c : eqb_ci p t = true -> prefix_ci p (t ++ c) = true.
Proof.
  revert t. induction p as [|x p IH]; intros [|y t]; simpl; try discriminate;
    [reflexivity|].
  intros H. apply andb_true_iff in H as [-> H]. now apply IH.
Qed.

Lemma eqb_ci_length p t : eqb_ci p t = true -> String.length p = String.length t.
Proof.
  revert t. induction p as [|x p IH]; intros [|y t]; simpl; try discriminate;
    [reflexivity|].
  intros H. apply andb_true_iff in H as [_ H]. f_equal. now apply IH.
Qed.

Lemma eqb_ci_join p m t :
  eqb_ci p t = true -> eqb_ci m t = true -> eqb_ci p m = true.
Proof.
  revert m t. induction p as [|x p IH]; intros [|y m] [|z t]; simpl;
    try discriminate; [reflexivity|].
  intros H1 H2. apply andb_true_iff in H1 as [Hx H1], H2 as [Hy H2].
  rewrite (IH _ _ H1 H2), andb_true_r.
  rewrite eqb_ci_char_sym in Hy. exact (eqb_ci_char_trans _ _ _ Hx Hy).
Qed.

Lemma take_append (t c : string) : take (String.length t) (t ++ c) = t.
Proof. induction t as [|x t IH]; simpl; [now destruct c | now rewrite IH]. Qed.

Lemma drop_append (t c : string) : drop (String.length t) (t ++ c) = c.
Proof. induction t as [|x t IH]; simpl; [now destruct c | exact IH]. Qed.

(** A match that starts in [a] does not reach a character its tail
    avoids. *)
Lemma prefix_ci_avoid q k r : avoids q k ->
  forall a, prefix_ci q (a ++ String k r) = prefix_ci q a.
Proof.
  unfold avoids. induction q as [|x q IH]; intros Hq a; [reflexivity|].
  simpl in Hq. apply andb_true_iff in Hq as [Hx Hq].
  destruct a as [|c a]; simpl.
  - apply negb_true_iff in Hx. now rewrite Hx.
  - now rewrite IH.
Qed.

Lemma prefix_ci_cross p k r c a :
  avoids (drop 1 p) k ->
  prefix_ci p (String c a ++ String k r) = prefix_ci p (String c a).
Proof.
  destruct p as [|x p]; [reflexivity|]. simpl. intros H.
  now rewrite prefix_ci_avoid.
Qed.

(** *** The scan *)

Lemma getSubstitution_plain m b a tmpl :
  dollar_free tmpl = true -> getSubstitution m b a tmpl = tmpl.
Proof.
  unfold dollar_free. induction tmpl as [|c r IH]; [reflexivity|].
  simpl all. intros H. apply andb_true_iff in H as [Hc H].
  assert (E : getSubstitution m b a (String c r) = String c (getSubstitution m b a r)).
  { destruct c as [[] [] [] [] [] [] [] []]; try reflexivity. discriminate Hc. }
  rewrite E. f_equal. now apply IH.
Qed.

(** With a replacement text that is inserted as it is, the text already
    scanned does not matter. *)
Lemma replaceFrom_pre p tmpl :
  dollar_free tmpl = true ->
  forall s k pre pre', replaceFrom p tmpl pre k s = replaceFrom p tmpl pre' k s.
Proof.
  intros Hd. induction s as [|c s IH]; intros k pre pre'; [reflexivity|].
  simpl. destruct k as [|k].
  - rewrite !(getSubstitution_plain _ _ _ _ Hd).
    rewrite (IH _ (pre ++ String c "")%string (pre' ++ String c "")%string).
    now rewrite (IH 0%nat (pre ++ String c "")%string (pre' ++ String c "")%string).
  - apply IH.
Qed.

(** Stepping over the rest of a match. *)
Lemma replaceFrom_skip p tmpl c : forall x pre,
  replaceFrom p tmpl pre (String.length x) (x ++ c)
  = replaceFrom p tmpl (pre ++ x) 0 c.
Proof.
  induction x as [|y x IH]; intros pre; simpl.
  - rewrite append_nil_r. now destruct c.
  - rewrite IH, append_assoc. reflexivity.
Qed.

(** The scan of [a], followed by a character that the tail of the
    pattern avoids, stays inside [a]. *)
Lemma scan_frame p tmpl k0 r :
  avoids (drop 1 p) k0 ->
  forall a k pre, (k <= String.length a)%nat ->
  exists A,
    replaceFrom p tmpl pre k (a ++ String k0 r)
      = (A ++ replaceFrom p tmpl (pre ++ a) 0 (String k0 r))%string /\
    (dollar_free tmpl = true -> A = replaceFrom p tmpl "" k a).
Proof.
  intros Hav. induction a as [|c a IH]; intros k pre Hk.
  - assert (k = 0)%nat as -> by (simpl in Hk; lia).
    exists ""%string. rewrite append_nil_r. split; reflexivity.
  - destruct k as [|k].
    + change (String c a ++ String k0 r)%string with (String c (a ++ String k0 r)).
      cbn [replaceFrom].
      change (String c (a ++ String k0 r)) with (String c a ++ String k0 r)%string.
      rewrite (prefix_ci_cross p k0 r c a Hav).
      destruct (prefix_ci p (String c a)) eqn:Hm.
      * apply prefix_ci_length in Hm. simpl in Hm.
        destruct (IH (pred (String.length p)) (pre ++ String c "")%string
                    ltac:(lia)) as (A & HA & HAf).
        eexists. split.
        -- cbn [append]. rewrite HA, append_assoc. cbn [append].
           rewrite <- append_assoc. reflexivity.
        -- intros Hd. rewrite !(getSubstitution_plain _ _ _ _ Hd).
           rewrite (HAf Hd). f_equal. now apply replaceFrom_pre.
      * destruct (IH 0%nat (pre ++ String c "")%string ltac:(lia)) as (A & HA & HAf).
        exists (String c A). split.
        -- cbn [append]. rewrite HA, append_assoc. reflexivity.
        -- intros Hd. rewrite (HAf Hd). f_equal. now apply replaceFrom_pre.
    + simpl in Hk.
      destruct (IH k (pre ++ String c "")%string ltac:(lia)) as (A & HA & HAf).
      exists A. split.
      * cbn [append replaceFrom]. rewrite HA, append_assoc. reflexivity.
      * intros Hd. rewrite (HAf Hd). cbn [replaceFrom]. now apply replaceFrom_pre.
Qed.

Lemma scan_copy p tmpl c : forall K pre,
  no_start p K c ->
  replaceFrom p tmpl pre 0 (K ++ c) = (K ++ replaceFrom p tmpl (pre ++ K) 0 c)%string.
Proof.
  induction K as [|k K IH]; intros pre H.
  - simpl. now rewrite append_nil_r.
  - destruct H as [Hm H].
    change (String k K ++ c)%string with (String k (K ++ c)) in *.
    cbn [replaceFrom]. rewrite Hm. cbn [append]. rewrite (IH _ H), append_assoc.
    reflexivity.
Qed.

Lemma scan_hit p tmpl t c pre :
  eqb_ci p t = true -> t <> ""%string ->
  replaceFrom p tmpl pre 0 (t ++ c)
  = (getSubstitution t pre c tmpl ++ replaceFrom p tmpl (pre ++ t) 0 c)%string.
Proof.
  intros He Hne. destruct t as [|y t]; [contradiction|].
  pose proof (eqb_ci_prefix _ _ c He) as Hm.
  pose proof (eqb_ci_length _ _ He) as Hl.
  change (String y t ++ c)%string with (String y (t ++ c)) in *.
  cbn [replaceFrom]. rewrite Hm, Hl.
  change (String y (t ++ c)) with (String y t ++ c)%string.
  rewrite take_append, drop_append. f_equal.
  cbn [String.length pred]. rewrite replaceFrom_skip, append_assoc. reflexivity.
Qed.

(** One replacement, with a separator in the text. *)
Lemma step_sep p tmpl K : sep p K ->
  forall a c pre, exists A,
    replaceFrom p tmpl pre 0 (a ++ K ++ c)
      = (A ++ K ++ replaceFrom p tmpl (pre ++ a ++ K) 0 c)%string /\
    (dollar_free tmpl = true -> A = replaceAll_ci p tmpl a).
Proof.
  intros [(k0 & K' & -> & Hav) Hns] a c pre.
  destruct (scan_frame p tmpl k0 (K' ++ c) Hav a 0%nat pre ltac:(lia)) as (A & HA & HAf).
  exists A. split; [|exact HAf].
  change (String k0 K' ++ c)%string with (String k0 (K' ++ c)).
  rewrite HA. f_equal.
  change (String k0 (K' ++ c)) with (String k0 K' ++ c)%string.
  rewrite scan_copy by apply Hns. now rewrite append_assoc.
Qed.

(** One replacement, with an occurrence of the pattern in the text. *)
Lemma step_hit p tmpl t :
  (exists k0 t', t = String k0 t' /\ avoids (drop 1 p) k0) ->
  eqb_ci p t = true ->
  forall a c pre, exists A,
    replaceFrom p tmpl pre 0 (a ++ t ++ c)
      = (A ++ getSubstitution t (pre ++ a) c tmpl
           ++ replaceFrom p tmpl (pre ++ a ++ t) 0 c)%string /\
    (dollar_free tmpl = true -> A = replaceAll_ci p tmpl a).
Proof.
  intros (k0 & t' & -> & Hav) He a c pre.
  destruct (scan_frame p tmpl k0 (t' ++ c) Hav a 0%nat pre ltac:(lia)) as (A & HA & HAf).
  exists A. split; [|exact HAf].
  change (String k0 t' ++ c)%string with (String k0 (t' ++ c)).
  rewrite HA. f_equal.
  change (String k0 (t' ++ c)) with (String k0 t' ++ c)%string.
  rewrite scan_hit by (assumption || discriminate). now rewrite append_assoc.
Qed.

(** *** Tokens *)

Lemma is_token_inv p :
  is_token p = true -> exists r, p = String "[" r /\ token_body r = true.
Proof.
  destruct p as [|c r]; [discriminate|].
  destruct c as [[] [] [] [] [] [] [] []]; try discriminate.
  intros H. now exists r.
Qed.

Lemma is_bracketed_inv u :
  is_bracketed u = true -> exists w, u = String "[" w /\ bracket_body w = true.
Proof.
  destruct u as [|c r]; [discriminate|].
  destruct c as [[] [] [] [] [] [] [] []]; try discriminate.
  intros H. now exists r.
Qed.

Lemma eqb_ci_char_fixed_l c y :
  is_letter c = false -> eqb_ci_char c y = true -> y = c.
Proof. rewrite eqb_ci_char_sym. apply eqb_ci_char_fixed. Qed.

Lemma token_avoid r k :
  token_body r = true -> is_letter k = false -> k <> "]"%char -> avoids r k.
Proof.
  unfold avoids. intros Hr Hk Hne. induction r as [|x r IH]; [reflexivity|].
  cbn [all]. cbn [token_body] in Hr. destruct r as [|y r].
  - apply Ascii.eqb_eq in Hr as ->. rewrite andb_true_r. apply negb_true_iff.
    destruct (eqb_ci_char "]" k) eqn:E; [|reflexivity].
    apply eqb_ci_char_fixed in E; [congruence | assumption].
  - apply andb_true_iff in Hr as [Hx Hr]. rewrite (IH Hr), andb_true_r.
    apply negb_true_iff. destruct (eqb_ci_char x k) eqn:E; [|reflexivity].
    apply eqb_ci_char_fixed in E; [congruence | assumption].
Qed.

Lemma bracket_no_open w :
  bracket_body w = true -> all (fun c => negb (Ascii.eqb c "[")) w = true.
Proof.
  induction w as [|x w IH]; [reflexivity|]. cbn [bracket_body all].
  destruct w as [|y w].
  - intros H. apply Ascii.eqb_eq in H as ->. reflexivity.
  - intros H. apply andb_true_iff in H as [H Hw]. apply andb_true_iff in H as [H _].
    now rewrite H, (IH Hw).
Qed.

(** A token does not match where there is no opening bracket. *)
Lemma no_start_no_open r c : forall w,
  all (fun c => negb (Ascii.eqb c "[")) w = true ->
  no_start (String "[" r) w c.
Proof.
  induction w as [|x w IH]; intros H; [exact I|].
  cbn [all] in H. apply andb_true_iff in H as [Hx H]. split; [|now apply IH].
  change (String x w ++ c)%string with (String x (w ++ c)). cbn [prefix_ci].
  destruct (eqb_ci_char "[" x) eqn:E; [|reflexivity].
  apply eqb_ci_char_fixed_l in E; [|reflexivity]. subst x. discriminate Hx.
Qed.

(** A token that matches at a bracketed placeholder is that placeholder,
    up to case. *)
Lemma token_match_body c : forall r w,
  token_body r = true -> bracket_body w = true ->
  prefix_ci r (w ++ c) = true -> eqb_ci r w = true.
Proof.
  induction r as [|x r IH]; intros w Hr Hw Hm; [discriminate|].
  destruct w as [|y w]; [discriminate|].
  change (String y w ++ c)%string with (String y (w ++ c)) in Hm.
  cbn [prefix_ci] in Hm. apply andb_true_iff in Hm as [Hxy Hm].
  cbn [eqb_ci]. rewrite Hxy. cbn [andb].
  cbn [token_body] in Hr. cbn [bracket_body] in Hw.
  destruct r as [|x' r].
  - apply Ascii.eqb_eq in Hr as ->.
    apply eqb_ci_char_fixed_l in Hxy; [|reflexivity]. subst y.
    destruct w as [|y' w]; [reflexivity|]. discriminate Hw.
  - apply andb_true_iff in Hr as [Hx Hr]. destruct w as [|y' w].
    + apply Ascii.eqb_eq in Hw as ->.
      apply eqb_ci_char_fixed in Hxy; [|reflexivity]. subst x. discriminate Hx.
    + apply andb_true_iff in Hw as [_ Hw]. now apply IH.
Qed.

Lemma sep_bracketed p u :
  is_token p = true -> is_bracketed u = true -> eqb_ci p u = false -> sep p u.
Proof.
  intros Hp Hu Hne.
  apply is_token_inv in Hp as (r & -> & Hr).
  apply is_bracketed_inv in Hu as (w & -> & Hw).
  split.
  - exists "["%char, w. split; [reflexivity|].
    now apply token_avoid.
  - intros c. split.
    + change (String "[" w ++ c)%string with (String "[" (w ++ c)). cbn [prefix_ci].
      destruct (prefix_ci r (w ++ c)) eqn:E; [|apply andb_false_r].
      apply token_match_body in E; try assumption.
      cbn [eqb_ci] in Hne. rewrite E, andb_true_r in Hne. rewrite Hne. reflexivity.
    + apply no_start_no_open. now apply bracket_no_open.
Qed.

Lemma all_impl (f g : ascii -> bool) s :
  (forall c, f c = true -> g c = true) -> all f s = true -> all g s = true.
Proof.
  intros Hfg. induction s as [|x s IH]; [reflexivity|]. cbn [all].
  intros H. apply andb_true_iff in H as [Hx H]. now rewrite (Hfg _ Hx), (IH H).
Qed.

Lemma sep_digits p v :
  is_token p = true -> all is_digit v = true -> v <> ""%string -> sep p v.
Proof.
  intros Hp Hv Hne.
  apply is_token_inv in Hp as (r & -> & Hr).
  destruct v as [|d v]; [contradiction|]. split.
  - exists d, v. split; [reflexivity|].
    cbn [all] in Hv. apply andb_true_iff in Hv as [Hd _].
    apply token_avoid; [assumption | now apply digit_not_letter |].
    intros ->. discriminate Hd.
  - intros c. apply no_start_no_open.
    apply (all_impl is_digit); [|assumption].
    intros x Hx. apply negb_true_iff.
    destruct (Ascii.eqb_spec x "["); [subst x; discriminate Hx | reflexivity].
Qed.

(** What matches a token up to case is bracketed. *)
Lemma token_ci_bracketed m t :
  is_token m = true -> eqb_ci m t = true -> is_bracketed t = true.
Proof.
  intros Hm He. apply is_token_inv in Hm as (r & -> & Hr).
  destruct t as [|y t]; [discriminate|].
  cbn [eqb_ci] in He. apply andb_true_iff in He as [Hy He].
  apply eqb_ci_char_fixed_l in Hy; [|reflexivity]. subst y.
  cbn [is_bracketed]. revert t He. induction r as [|x r IH]; intros t He;
    [discriminate|].
  destruct t as [|y t]; [discriminate|].
  cbn [eqb_ci] in He. apply andb_true_iff in He as [Hxy He].
  cbn [token_body] in Hr. cbn [bracket_body]. destruct r as [|x' r].
  - apply Ascii.eqb_eq in Hr as ->.
    apply eqb_ci_char_fixed_l in Hxy; [|reflexivity]. subst y.
    destruct t; [reflexivity | discriminate He].
  - apply andb_true_iff in Hr as [Hx Hr].
    destruct t as [|y' t]; [discriminate He|].
    rewrite (IH Hr _ He), andb_true_r.
    pose proof (eqb_ci_char_letter _ _ Hx Hxy) as Hl.
    destruct (Ascii.eqb_spec y "["); [subst y; discriminate Hl|].
    destruct (Ascii.eqb_spec y "]"); [subst y; discriminate Hl|]. reflexivity.
Qed.

(** *** The loop over the table *)

Lemma replaceEach_app ms1 ms2 x :
  Tracker.replaceEach (ms1 ++ ms2) x = Tracker.replaceEach ms2 (Tracker.replaceEach ms1 x).
Proof. unfold Tracker.replaceEach. apply fold_left_app. Qed.

Lemma replaceEach_cons p v ms x :
  Tracker.replaceEach ((p, v) :: ms) x
  = Tracker.replaceEach ms (replaceAll_ci p (toString v) x).
Proof. reflexivity. Qed.

Lemma replaceEach_empty ms : Tracker.replaceEach ms "" = ""%string.
Proof. induction ms as [|[p v] ms IH]; [reflexivity | exact IH]. Qed.

Lemma replaceMacros_each env ctx x :
  Tracker.replaceMacros env ctx x = Tracker.replaceEach (Tracker.macros env ctx) x.
Proof.
  unfold Tracker.replaceMacros. destruct (String.eqb_spec x ""); [|reflexivity].
  subst x. now rewrite replaceEach_empty.
Qed.

Lemma step_sep2 p tmpl K1 K2 : sep p K1 -> sep p K2 ->
  forall a b c, exists A B C,
    replaceAll_ci p tmpl (a ++ K1 ++ b ++ K2 ++ c) = (A ++ K1 ++ B ++ K2 ++ C)%string /\
    (dollar_free tmpl = true ->
     A = replaceAll_ci p tmpl a /\ B = replaceAll_ci p tmpl b /\
     C = replaceAll_ci p tmpl c).
Proof.
  intros H1 H2 a b c. unfold replaceAll_ci.
  destruct (step_sep p tmpl K1 H1 a (b ++ K2 ++ c) "") as (A & HA & HAf).
  destruct (step_sep p tmpl K2 H2 b c ("" ++ a ++ K1)) as (B & HB & HBf).
  exists A, B, (replaceFrom p tmpl (("" ++ a ++ K1) ++ b ++ K2) 0 c).
  split; [now rewrite HA, HB|].
  intros Hd. split; [now apply HAf|]. split; [now apply HBf|].
  now apply replaceFrom_pre.
Qed.

Lemma replaceEach_sep ms u :
  Forall (fun mv => sep (fst mv) u) ms ->
  forall a c,
    (exists A C, Tracker.replaceEach ms (a ++ u ++ c) = (A ++ u ++ C)%string) /\
    (Tracker.plain_table ms ->
     Tracker.replaceEach ms (a ++ u ++ c)
     = (Tracker.replaceEach ms a ++ u ++ Tracker.replaceEach ms c)%string).
Proof.
  induction 1 as [|[p v] ms Hp _ IH]; intros a c.
  - split; [now exists a, c | reflexivity].
  - rewrite !replaceEach_cons. cbn [fst] in Hp.
    destruct (step_sep p (toString v) u Hp a c "") as (A & HA & HAf).
    fold (replaceAll_ci p (toString v) (a ++ u ++ c)) in HA. rewrite HA.
    destruct (IH A (replaceFrom p (toString v) ("" ++ a ++ u) 0 c)) as [Hex Hst].
    split; [exact Hex|].
    intros Hpl. inversion Hpl as [|? ? Hv Hms]; subst. cbn [snd] in Hv.
    rewrite (Hst Hms), (HAf Hv).
    now rewrite (replaceFrom_pre p _ Hv c 0%nat ("" ++ a ++ u)%string ""%string).
Qed.

Lemma replaceEach_sep2 ms K1 K2 :
  Forall (fun mv => sep (fst mv) K1 /\ sep (fst mv) K2) ms ->
  forall a b c,
    (exists A B C,
       Tracker.replaceEach ms (a ++ K1 ++ b ++ K2 ++ c)
       = (A ++ K1 ++ B ++ K2 ++ C)%string /\
       (Tracker.plain_table ms ->
        A = Tracker.replaceEach ms a /\ B = Tracker.replaceEach ms b /\
        C = Tracker.replaceEach ms c)).
Proof.
  induction 1 as [|[p v] ms [Hp1 Hp2] _ IH]; intros a b c.
  - exists a, b, c. split; [reflexivity | now intros _].
  - rewrite replaceEach_cons. cbn [fst] in Hp1, Hp2.
    destruct (step_sep2 p (toString v) K1 K2 Hp1 Hp2 a b c) as (A & B & C & HE & HEf).
    rewrite HE.
    destruct (IH A B C) as (A' & B' & C' & HE' & HEf').
    exists A', B', C'. split; [exact HE'|].
    intros Hpl. inversion Hpl as [|? ? Hv Hms]; subst. cbn [snd] in Hv.
    destruct (HEf Hv) as (-> & -> & ->). now apply HEf'.
Qed.

(** The replacement of a token by a text inserted as it is, at two
    occurrences. *)
Lemma step_hit2 p v t1 t2 :
  is_token p = true -> eqb_ci p t1 = true -> eqb_ci p t2 = true ->
  dollar_free v = true ->
  forall a b c,
    replaceAll_ci p v (a ++ t1 ++ b ++ t2 ++ c)
    = (replaceAll_ci p v a ++ v ++ replaceAll_ci p v b ++ v ++ replaceAll_ci p v c)%string.
Proof.
  intros Hp H1 H2 Hv a b c.
  assert (Hopen : forall t, eqb_ci p t = true ->
            exists k0 t', t = String k0 t' /\ avoids (drop 1 p) k0).
  { intros t Ht. pose proof (token_ci_bracketed _ _ Hp Ht) as Hb.
    apply is_bracketed_inv in Hb as (w & -> & _).
    apply is_token_inv in Hp as (r & -> & Hr).
    exists "["%char, w. split; [reflexivity|]. now apply token_avoid. }
  unfold replaceAll_ci.
  destruct (step_hit p v t1 (Hopen _ H1) H1 a (b ++ t2 ++ c) "") as (A & HA & HAf).
  destruct (step_hit p v t2 (Hopen _ H2) H2 b c ("" ++ a ++ t1)) as (B & HB & HBf).
  rewrite HA, HB, !(getSubstitution_plain _ _ _ _ Hv), (HAf Hv), (HBf Hv).
  unfold replaceAll_ci.
  now rewrite (replaceFrom_pre p _ Hv c 0%nat (("" ++ a ++ t1) ++ b ++ t2)%string ""%string).
Qed.

(** *** Values *)

Lemma digits_of_uint d : all is_digit (NilEmpty.string_of_uint d) = true.
Proof. induction d; simpl; try rewrite IHd; reflexivity. Qed.

Lemma string_of_N_digits n :
  all is_digit (string_of_N n) = true /\ string_of_N n <> ""%string.
Proof.
  unfold string_of_N, NilZero.string_of_uint.
  destruct (N.to_uint n) eqn:E; try (split; [|discriminate]);
    try reflexivity; cbn [NilEmpty.string_of_uint all]; apply digits_of_uint.
Qed.

Lemma digits_dollar_free v : all is_digit v = true -> dollar_free v = true.
Proof.
  apply all_impl. intros c Hc. apply negb_true_iff.
  destruct (Ascii.eqb_spec c "$"); [subst c; discriminate Hc | reflexivity].
Qed.

Lemma encodeURIComponent_dollar_free s : dollar_free (encodeURIComponent s) = true.
Proof.
  unfold dollar_free. induction s as [|c s IH]; [reflexivity|].
  destruct c as [[] [] [] [] [] [] [] []]; cbn; exact IH.
Qed.

Lemma or_else_dollar_free x d :
  dollar_free (toString x) = true -> dollar_free d = true ->
  dollar_free (toString (or_else x (VString d))) = true.
Proof. intros Hx Hd. unfold or_else. now destruct (truthy x). Qed.

Lemma plain_macros env ctx :
  Tracker.plain ctx -> Tracker.plain_table (Tracker.macros env ctx).
Proof.
  unfold Tracker.plain. intros H.
  repeat match goal with
         | H : Forall _ (_ :: _) |- _ =>
           let Hx := fresh "Hx" in let Hr := fresh "Hr" in
           inversion H as [|? ? Hx Hr]; subst; clear H
         end.
  unfold Tracker.plain_table, Tracker.macros.
  repeat (apply List.Forall_cons; [cbn [snd toString]|]); try apply List.Forall_nil;
    try (apply digits_dollar_free, string_of_N_digits);
    try apply encodeURIComponent_dollar_free;
    try (apply or_else_dollar_free; [assumption | reflexivity]);
    reflexivity.
Qed.

Lemma eqb_ci_other p m t :
  eqb_ci p m = false -> eqb_ci m t = true -> eqb_ci p t = false.
Proof.
  intros Hpm Hmt. destruct (eqb_ci p t) eqn:E; [|reflexivity].
  rewrite (eqb_ci_join _ _ _ E Hmt) in Hpm. discriminate.
Qed.

(** A table that holds the token [m] with a number as its value, among
    other tokens: the two occurrences of [m] get the digits of the
    number. *)
Lemma generated_core ms1 m n ms2 t1 t2 :
  Forall (fun mv => is_token (fst mv) = true /\ eqb_ci (fst mv) m = false) ms1 ->
  is_token m = true ->
  Forall (fun mv => is_token (fst mv) = true) ms2 ->
  eqb_ci m t1 = true -> eqb_ci m t2 = true ->
  forall a b c,
    (exists A B C,
       Tracker.replaceEach (ms1 ++ (m, VNumber n) :: ms2) (a ++ t1 ++ b ++ t2 ++ c)
       = (A ++ string_of_N n ++ B ++ string_of_N n ++ C)%string) /\
    (Tracker.plain_table (ms1 ++ (m, VNumber n) :: ms2) ->
     Tracker.replaceEach (ms1 ++ (m, VNumber n) :: ms2) (a ++ t1 ++ b ++ t2 ++ c)
     = (Tracker.replaceEach (ms1 ++ (m, VNumber n) :: ms2) a ++ string_of_N n ++
        Tracker.replaceEach (ms1 ++ (m, VNumber n) :: ms2) b ++ string_of_N n ++
        Tracker.replaceEach (ms1 ++ (m, VNumber n) :: ms2) c)%string).
Proof.
  intros H1 Hm H2 Ht1 Ht2 a b c.
  destruct (string_of_N_digits n) as [Hdig Hne].
  assert (S1 : Forall (fun mv => sep (fst mv) t1 /\ sep (fst mv) t2) ms1).
  { eapply List.Forall_impl; [|exact H1]. intros [p v] [Hp Hpm]. cbn [fst] in *.
    split; apply sep_bracketed; try assumption;
      try (apply (token_ci_bracketed m); assumption);
      apply (eqb_ci_other p m); assumption. }
  assert (S2 : Forall (fun mv => sep (fst mv) (string_of_N n)
                                 /\ sep (fst mv) (string_of_N n)) ms2).
  { eapply List.Forall_impl; [|exact H2]. intros [p v] Hp. cbn [fst] in *.
    split; now apply sep_digits. }
  destruct (replaceEach_sep2 ms1 t1 t2 S1 a b c) as (A & B & C & HE & HEf).
  destruct (replaceEach_sep2 ms2 _ _ S2 (replaceAll_ci m (string_of_N n) A)
              (replaceAll_ci m (string_of_N n) B)
              (replaceAll_ci m (string_of_N n) C)) as (A' & B' & C' & HE' & HEf').
  assert (Hall : forall x,
            Tracker.replaceEach (ms1 ++ (m, VNumber n) :: ms2) x
            = Tracker.replaceEach ms2
                (replaceAll_ci m (string_of_N n) (Tracker.replaceEach ms1 x))).
  { intros x. now rewrite replaceEach_app. }
  rewrite !Hall, HE.
  rewrite (step_hit2 m (string_of_N n) t1 t2 Hm Ht1 Ht2 (digits_dollar_free _ Hdig)).
  rewrite HE'. split; [now exists A', B', C'|].
  intros Hpl. unfold Tracker.plain_table in Hpl. apply Forall_app in Hpl as [Hp1 Hp2].
  inversion Hp2 as [|? ? _ Hp2']; subst.
  destruct (HEf Hp1) as (-> & -> & ->). destruct (HEf' Hp2') as (-> & -> & ->).
  reflexivity.
Qed.

(** *** Whole URLs *)

Lemma eqb_ci_char_refl a : eqb_ci_char a a = true.
Proof. unfold eqb_ci_char. apply Ascii.eqb_refl. Qed.

Lemma eqb_ci_sym a : forall b, eqb_ci a b = eqb_ci b a.
Proof.
  induction a as [|x a IH]; intros [|y b]; try reflexivity.
  cbn [eqb_ci]. now rewrite IH, eqb_ci_char_sym.
Qed.

Lemma eqb_ci_same p t1 t2 : eqb_ci t1 t2 = true -> eqb_ci p t1 = eqb_ci p t2.
Proof.
  intros H. destruct (eqb_ci p t2) eqn:E2.
  - exact (eqb_ci_join p t1 t2 E2 H).
  - destruct (eqb_ci p t1) eqn:E1; [|reflexivity].
    rewrite eqb_ci_sym in H. rewrite <- E2. symmetry.
    exact (eqb_ci_join p t2 t1 E1 H).
Qed.

(** Placeholders that are equal up to case stand for the same text. *)
Lemma lookup_ci_same ms t1 t2 :
  eqb_ci t1 t2 = true -> Tracker.lookup_ci ms t1 = Tracker.lookup_ci ms t2.
Proof.
  intros H. induction ms as [|[p v] ms IH]; [reflexivity|].
  cbn [Tracker.lookup_ci]. now rewrite (eqb_ci_same p t1 t2 H), IH.
Qed.

(** One replacement over a well-formed URL goes segment by segment. *)
Lemma scan_segments p v :
  is_token p = true -> dollar_free v = true ->
  forall gs pre, Tracker.well_formed gs ->
    replaceFrom p v pre 0 (Tracker.render gs)
    = Tracker.render (map (Tracker.replaceSegment p v) gs).
Proof.
  intros Hp Hv. induction gs as [|g gs IH]; intros pre Hwf; [reflexivity|].
  inversion Hwf as [|? ? Hg Hgs]; subst.
  unfold Tracker.render in *. cbn [map Tracker.join].
  destruct g as [s|u]; cbn [Tracker.text Tracker.replaceSegment].
  - destruct (is_token_inv _ Hp) as (r & -> & _).
    rewrite scan_copy by (apply no_start_no_open; exact Hg).
    now rewrite IH.
  - destruct (eqb_ci p u) eqn:E.
    + rewrite scan_hit; [|assumption|].
      * rewrite getSubstitution_plain by assumption. cbn [Tracker.text].
        now rewrite IH.
      * intros ->. discriminate Hg.
    + destruct (sep_bracketed p u Hp Hg E) as [_ Hns].
      rewrite scan_copy by apply Hns. cbn [Tracker.text]. now rewrite IH.
Qed.

Lemma well_formed_replace p v gs :
  Tracker.no_open v = true -> Tracker.well_formed gs ->
  Tracker.well_formed (map (Tracker.replaceSegment p v) gs).
Proof.
  intros Hv Hwf. induction Hwf as [|g gs Hg _ IH]; [apply List.Forall_nil|].
  cbn [map]. apply List.Forall_cons; [|exact IH].
  destruct g as [s|u]; cbn [Tracker.replaceSegment]; [exact Hg|].
  now destruct (eqb_ci p u).
Qed.

Lemma expandWith_replace p v ms g :
  Tracker.expandWith ms (Tracker.replaceSegment p (toString v) g)
  = Tracker.expandWith ((p, v) :: ms) g.
Proof.
  destruct g as [s|u]; [reflexivity|].
  cbn [Tracker.replaceSegment Tracker.expandWith Tracker.lookup_ci].
  now destruct (eqb_ci p u).
Qed.

(** The loop over a table of tokens with inert values, on a well-formed
    URL: every placeholder becomes what the table says, at once. *)
Lemma replaceEach_segments ms :
  Forall (fun mv => is_token (fst mv) = true) ms ->
  Tracker.inert_table ms ->
  forall gs, Tracker.well_formed gs ->
    Tracker.replaceEach ms (Tracker.render gs)
    = Tracker.join (map (Tracker.expandWith ms) gs).
Proof.
  induction ms as [|[p v] ms IH]; intros Htok Hin gs Hwf.
  - reflexivity.
  - inversion Htok as [|? ? Hp Htok']; inversion Hin as [|? ? Hv Hin']; subst.
    cbn [fst snd] in Hp, Hv. unfold Tracker.inert in Hv.
    apply andb_true_iff in Hv as [Hd Hno].
    rewrite replaceEach_cons. unfold replaceAll_ci.
    rewrite (scan_segments p (toString v) Hp Hd gs "" Hwf).
    rewrite (IH Htok' Hin' _ (well_formed_replace p _ gs Hno Hwf)).
    rewrite map_map. f_equal. apply map_ext. intros g. apply expandWith_replace.
Qed.

Lemma encodeURIComponent_no_open s :
  Tracker.no_open (encodeURIComponent s) = true.
Proof.
  unfold Tracker.no_open. induction s as [|c s IH]; [reflexivity|].
  destruct c as [[] [] [] [] [] [] [] []]; cbn; exact IH.
Qed.

Lemma digits_inert v : all is_digit v = true -> Tracker.inert v = true.
Proof.
  intros H. unfold Tracker.inert. rewrite (digits_dollar_free _ H). cbn [andb].
  revert H. apply all_impl. intros c Hc. apply negb_true_iff.
  destruct (Ascii.eqb_spec c "["); [subst c; discriminate Hc | reflexivity].
Qed.

Lemma or_else_inert x d :
  Tracker.inert (toString x) = true -> Tracker.inert d = true ->
  Tracker.inert (toString (or_else x (VString d))) = true.
Proof. intros Hx Hd. unfold or_else. now destruct (truthy x). Qed.

Lemma inert_macros env ctx :
  Tracker.inert_context ctx -> Tracker.inert_table (Tracker.macros env ctx).
Proof.
  unfold Tracker.inert_context. intros H.
  repeat match goal with
         | H : Forall _ (_ :: _) |- _ =>
           let Hx := fresh "Hx" in let Hr := fresh "Hr" in
           inversion H as [|? ? Hx Hr]; subst; clear H
         end.
  unfold Tracker.inert_table, Tracker.macros.
  repeat (apply List.Forall_cons; [cbn [snd toString]|]); try apply List.Forall_nil;
    try (apply digits_inert, string_of_N_digits);
    try (apply or_else_inert; [assumption | reflexivity]);
    try (unfold Tracker.inert;
         rewrite encodeURIComponent_dollar_free, encodeURIComponent_no_open);
    reflexivity.
Qed.

Lemma tokens_macros env ctx :
  Forall (fun mv => is_token (fst mv) = true) (Tracker.macros env ctx).
Proof.
  unfold Tracker.macros.
  repeat (apply List.Forall_cons; [reflexivity|]). apply List.Forall_nil.
Qed.

(** On a well-formed URL and with inert values, [replaceMacros] is the
    expansion of the placeholders, segment by segment. *)
Lemma replaceMacros_segments env ctx gs :
  Tracker.inert_context ctx -> Tracker.well_formed gs ->
  Tracker.replaceMacros env ctx (Tracker.render gs)
  = Tracker.join (map (Tracker.expand env ctx) gs).
Proof.
  intros Hctx Hwf. rewrite replaceMacros_each.
  apply replaceEach_segments; [apply tokens_macros | now apply inert_macros | exact Hwf].
Qed.

Lemma lookup_ci_known ms u :
  existsb (fun p => eqb_ci p u) (map fst ms) = true ->
  exists v, Tracker.lookup_ci ms u = Some v.
Proof.
  induction ms as [|[p v] ms IH]; [discriminate|].
  cbn [map fst existsb Tracker.lookup_ci]. destruct (eqb_ci p u).
  - intros _. now exists v.
  - exact IH.
Qed.

Lemma lookup_ci_unknown ms u :
  existsb (fun p => eqb_ci p u) (map fst ms) = false ->
  Tracker.lookup_ci ms u = None.
Proof.
  induction ms as [|[p v] ms IH]; [reflexivity|].
  cbn [map fst existsb Tracker.lookup_ci]. destruct (eqb_ci p u); [discriminate|].
  exact IH.
Qed.

(** A generated token, in any case, stands for the digits of its
    number. *)
Lemma expand_generated env ctx m n t :
  In (m, n) (Tracker.generated env) -> eqb_ci m t = true ->
  Tracker.expand env ctx (Tracker.Tok t) = string_of_N n.
Proof.
  intros Hin Ht. unfold Tracker.expand, Tracker.expandWith, Tracker.macros.
  cbn [Tracker.generated In] in Hin.
  destruct Hin as [E | [E | [E | [E | []]]]]; injection E as <- <-;
    cbn [Tracker.lookup_ci];
    repeat match goal with
           | |- context [eqb_ci ?p t] =>
             lazymatch type of Ht with
             | eqb_ci p t = true => rewrite Ht
             | eqb_ci ?k t = true => rewrite (eqb_ci_other p k t eq_refl Ht)
             end
           end;
    reflexivity.
Qed.

(** C4.  In one call of [replaceMacros], two occurrences of a generated
    token (the timestamp, either cache-buster, the random number),
    written in any mix of upper and lower case, are both replaced by the
    digits of the one number the call drew for that token, whatever the
    URL and the context; with a context whose values hold no dollar sign
    the rest of the URL is substituted on its own.  On a URL made of
    literal text and bracketed placeholders, with a context whose values
    are inert, every placeholder, at every occurrence, becomes what the
    table holds for it, and placeholders that differ in case only become
    the same text. *)
Theorem macro_occurrences_same_value env ctx m n t1 t2 a b c gs :
  In (m, n) (Tracker.generated env) ->
  eqb_ci m t1 = true -> eqb_ci m t2 = true ->
  (exists A B C,
     Tracker.replaceMacros env ctx (a ++ t1 ++ b ++ t2 ++ c)
     = (A ++ string_of_N n ++ B ++ string_of_N n ++ C)%string) /\
  (Tracker.plain ctx ->
   Tracker.replaceMacros env ctx (a ++ t1 ++ b ++ t2 ++ c)
   = (Tracker.replaceMacros env ctx a ++ string_of_N n ++
      Tracker.replaceMacros env ctx b ++ string_of_N n ++
      Tracker.replaceMacros env ctx c)%string) /\
  (Tracker.inert_context ctx -> Tracker.well_formed gs ->
   Tracker.replaceMacros env ctx (Tracker.render gs)
   = Tracker.join (map (Tracker.expand env ctx) gs)) /\
  (forall u1 u2, Tracker.known u1 = true -> eqb_ci u1 u2 = true ->
     Tracker.expand env ctx (Tracker.Tok u1) = Tracker.expand env ctx (Tracker.Tok u2)) /\
  Tracker.expand env ctx (Tracker.Tok t1) = string_of_N n /\
  Tracker.expand env ctx (Tracker.Tok t2) = string_of_N n.
Proof.
  intros Hin H1 H2.
  assert (Hcore : forall k,
            nth_error (Tracker.macros env ctx) k = Some (m, VNumber n) ->
            Forall (fun mv => is_token (fst mv) = true /\ eqb_ci (fst mv) m = false)
                   (firstn k (Tracker.macros env ctx)) ->
            is_token m = true ->
            Forall (fun mv => is_token (fst mv) = true)
                   (skipn (S k) (Tracker.macros env ctx)) ->
            (exists A B C,
               Tracker.replaceEach (Tracker.macros env ctx) (a ++ t1 ++ b ++ t2 ++ c)
               = (A ++ string_of_N n ++ B ++ string_of_N n ++ C)%string) /\
            (Tracker.plain_table (Tracker.macros env ctx) ->
             Tracker.replaceEach (Tracker.macros env ctx) (a ++ t1 ++ b ++ t2 ++ c)
             = (Tracker.replaceEach (Tracker.macros env ctx) a ++ string_of_N n ++
                Tracker.replaceEach (Tracker.macros env ctx) b ++ string_of_N n ++
                Tracker.replaceEach (Tracker.macros env ctx) c)%string)).
  { intros k Hk Hb Hm Ha.
    assert (E : Tracker.macros env ctx
                = firstn k (Tracker.macros env ctx) ++
                  (m, VNumber n) :: skipn (S k) (Tracker.macros env ctx)).
    { rewrite <- (firstn_skipn k (Tracker.macros env ctx)) at 1. f_equal.
      clear -Hk. revert k Hk. generalize (Tracker.macros env ctx).
      induction l as [|x l IH]; intros [|k] Hk; try discriminate.
      - now injection Hk as ->.
      - now apply IH. }
    rewrite E. now apply generated_core. }
  assert (Hany :
    (exists A B C,
       Tracker.replaceEach (Tracker.macros env ctx) (a ++ t1 ++ b ++ t2 ++ c)
       = (A ++ string_of_N n ++ B ++ string_of_N n ++ C)%string) /\
    (Tracker.plain_table (Tracker.macros env ctx) ->
     Tracker.replaceEach (Tracker.macros env ctx) (a ++ t1 ++ b ++ t2 ++ c)
     = (Tracker.replaceEach (Tracker.macros env ctx) a ++ string_of_N n ++
        Tracker.replaceEach (Tracker.macros env ctx) b ++ string_of_N n ++
        Tracker.replaceEach (Tracker.macros env ctx) c)%string)).
  { pose proof Hin as Hin'. cbn [Tracker.generated In] in Hin'.
    destruct Hin' as [E | [E | [E | [E | []]]]]; injection E as <- <-.
    - apply (Hcore 0%nat); [reflexivity | | reflexivity |];
        cbn [firstn skipn Tracker.macros];
        repeat (apply List.Forall_cons; [cbn [fst]; try split; reflexivity|]);
        apply List.Forall_nil.
    - apply (Hcore 1%nat); [reflexivity | | reflexivity |];
        cbn [firstn skipn Tracker.macros];
        repeat (apply List.Forall_cons; [cbn [fst]; try split; reflexivity|]);
        apply List.Forall_nil.
    - apply (Hcore 2%nat); [reflexivity | | reflexivity |];
        cbn [firstn skipn Tracker.macros];
        repeat (apply List.Forall_cons; [cbn [fst]; try split; reflexivity|]);
        apply List.Forall_nil.
    - apply (Hcore 12%nat); [reflexivity | | reflexivity |];
        cbn [firstn skipn Tracker.macros];
        repeat (apply List.Forall_cons; [cbn [fst]; try split; reflexivity|]);
        apply List.Forall_nil. }
  destruct Hany as [Hex Hst]. rewrite !replaceMacros_each.
  split; [exact Hex|]. split.
  { intros Hpl. apply Hst. now apply plain_macros. }
  split.
  { intros Hctx Hwf. rewrite <- replaceMacros_each. now apply replaceMacros_segments. }
  split.
  { intros u1 u2 Hk Hu. unfold Tracker.expand, Tracker.expandWith.
    rewrite <- (lookup_ci_same _ u1 u2 Hu).
    destruct (lookup_ci_known (Tracker.macros env ctx) u1 Hk) as [v ->].
    reflexivity. }
  split; now apply (expand_generated env ctx m n).
Qed.

Lemma macro_occurrences_same_value_witness :
  (In ("[CACHEBUSTER]", 847362819%N) (Tracker.generated Sample.env) /\
   eqb_ci "[CACHEBUSTER]" "[CACHEBUSTER]" = true /\
   eqb_ci "[CACHEBUSTER]" "[cacheBuster]" = true /\
   Tracker.plain Tracker.noContext /\
   Tracker.inert_context Tracker.noContext /\
   Tracker.well_formed Sample.segments) /\
  Tracker.replaceMacros Sample.env Tracker.noContext
    ("https://t.example/imp?a=" ++ "[CACHEBUSTER]" ++ "&b=" ++ "[cacheBuster]"
       ++ "&ts=[timestamp]")
  = (Tracker.replaceMacros Sample.env Tracker.noContext "https://t.example/imp?a="
       ++ string_of_N 847362819 ++
     Tracker.replaceMacros Sample.env Tracker.noContext "&b="
       ++ string_of_N 847362819 ++
     Tracker.replaceMacros Sample.env Tracker.noContext "&ts=[timestamp]")%string /\
  Tracker.replaceMacros Sample.env Tracker.noContext (Tracker.render Sample.segments)
  = Tracker.join (map (Tracker.expand Sample.env Tracker.noContext) Sample.segments).
Proof.
  assert (Hin : In ("[CACHEBUSTER]", 847362819%N) (Tracker.generated Sample.env))
    by (right; right; left; reflexivity).
  assert (Hpl : Tracker.plain Tracker.noContext)
    by (repeat (apply List.Forall_cons; [reflexivity|]); apply List.Forall_nil).
  assert (Hctx : Tracker.inert_context Tracker.noContext)
    by (repeat (apply List.Forall_cons; [reflexivity|]); apply List.Forall_nil).
  assert (Hwf : Tracker.well_formed Sample.segments)
    by (repeat (apply List.Forall_cons; [reflexivity|]); apply List.Forall_nil).
  split; [repeat split; assumption|].
  destruct (macro_occurrences_same_value Sample.env Tracker.noContext "[CACHEBUSTER]"
              847362819%N "[CACHEBUSTER]" "[cacheBuster]" "https://t.example/imp?a="
              "&b=" "&ts=[timestamp]" Sample.segments Hin eq_refl eq_refl)
    as (_ & Hany & Hseg & _).
  split; [exact (Hany Hpl) | exact (Hseg Hctx Hwf)].
Defined.

(** The expansion of the sample segments, evaluated. *)
Lemma expand_sample :
  map (Tracker.expand Sample.env Tracker.noContext) Sample.segments
  = [ "https://t.example/imp?a="; "847362819"; "&b="; "847362819";
      "&p="; "VAST-Inspector"; "&e="; "[ERRORCODE]" ]%string.
Proof. vm_compute. reflexivity. Qed.

(** The substitution of the sample URL, evaluated. *)
Lemma replaceMacros_sample :
  Tracker.replaceMacros Sample.env Tracker.noContext
    "https://t.example/imp?a=[CACHEBUSTER]&b=[cacheBuster]&ts=[timestamp]&e=[ERRORCODE]"
  = "https://t.example/imp?a=847362819&b=847362819&ts=1700000000000&e=[ERRORCODE]"%string.
Proof. vm_compute. reflexivity. Qed.

(** C5.  A bracketed placeholder that is not a key of the table, in any
    case, comes out of [replaceMacros] as it went in, for every URL and
    every context; with a context whose values hold no dollar sign, what
    is before it and what is after it are substituted on their own.  In
    the expansion of a whole URL such a placeholder stands for itself. *)
Theorem unknown_macro_untouched env ctx a u c :
  is_bracketed u = true -> Tracker.known u = false ->
  (exists A C,
     Tracker.replaceMacros env ctx (a ++ u ++ c) = (A ++ u ++ C)%string) /\
  (Tracker.plain ctx ->
   Tracker.replaceMacros env ctx (a ++ u ++ c)
   = (Tracker.replaceMacros env ctx a ++ u ++ Tracker.replaceMacros env ctx c)%string) /\
  Tracker.expand env ctx (Tracker.Tok u) = u.
Proof.
  intros Hu Hk. rewrite !replaceMacros_each.
  assert (Hs : Forall (fun mv => sep (fst mv) u) (Tracker.macros env ctx)).
  { unfold Tracker.known, Tracker.tokens in Hk. cbn [existsb] in Hk.
    repeat match type of Hk with
           | (_ || _) = false =>
             let H := fresh "Hn" in apply orb_false_iff in Hk as [H Hk]
           end.
    unfold Tracker.macros.
    repeat (apply List.Forall_cons;
            [cbn [fst]; apply sep_bracketed; [reflexivity | assumption | assumption]|]).
    apply List.Forall_nil. }
  destruct (replaceEach_sep _ u Hs a c) as [Hex Hst].
  split; [exact Hex|]. split.
  - intros Hpl. apply Hst. now apply plain_macros.
  - unfold Tracker.expand, Tracker.expandWith.
    now rewrite (lookup_ci_unknown (Tracker.macros env ctx) u Hk).
Qed.

Lemma unknown_macro_untouched_witness :
  (is_bracketed "[ERRORCODE]" = true /\ Tracker.known "[ERRORCODE]" = false /\
   Tracker.plain Tracker.noContext) /\
  Tracker.replaceMacros Sample.env Tracker.noContext
    ("https://t.example/err?cb=[RANDOM]&code=" ++ "[ERRORCODE]" ++ "&d=[domain]")
  = (Tracker.replaceMacros Sample.env Tracker.noContext
       "https://t.example/err?cb=[RANDOM]&code="
     ++ "[ERRORCODE]" ++
     Tracker.replaceMacros Sample.env Tracker.noContext "&d=[domain]")%string.
Proof.
  assert (Hpl : Tracker.plain Tracker.noContext)
    by (repeat (apply List.Forall_cons; [reflexivity|]); apply List.Forall_nil).
  split; [repeat split; assumption|].
  destruct (unknown_macro_untouched Sample.env Tracker.noContext
              "https://t.example/err?cb=[RANDOM]&code=" "[ERRORCODE]" "&d=[domain]"
              eq_refl eq_refl) as (_ & Hst & _).
  exact (Hst Hpl).
Defined.

End Macros.

(** * Further properties of the tracking core *)

(** ** What a task does to the tracker *)

Section Tasks.

Import VideoPlayer Steps.

Ltac split_matches :=
  repeat match goal with
         | |- context [match ?x with _ => _ end] =>
           lazymatch x with
           | context [match _ with _ => _ end] => fail
           | _ => destruct x eqn:?
           end
         end.

Ltac req_norm :=
  cbn [fst snd]; unfold requested;
  repeat first [rewrite flat_map_app | progress (cbn [flat_map app])];
  repeat match goal with
         | |- context [flat_map ?f (map Request ?l)] =>
           change (flat_map f (map Request l)) with (requested (map Request l));
           rewrite (requested_requests l)
         end;
  rewrite ?app_nil_r; try reflexivity.

Lemma requested_app a b : requested (a ++ b) = requested a ++ requested b.
Proof. unfold requested. now rewrite flat_map_app. Qed.

Lemma requested_cons_notify e fx : requested (Notify e :: fx) = requested fx.
Proof. reflexivity. Qed.

Lemma call_types_impressions l :
  Forall (fun c => In (Tracker.c_type c) Tracker.callTypes) (Tracker.impressionCalls l).
Proof.
  unfold Tracker.impressionCalls. apply List.Forall_forall. intros c Hc.
  apply in_map_iff in Hc as (i & <- & _). simpl. tauto.
Qed.

Lemma call_types_clicks l :
  Forall (fun c => In (Tracker.c_type c) Tracker.callTypes) (Tracker.clickCalls l).
Proof.
  unfold Tracker.clickCalls. apply List.Forall_forall. intros c Hc.
  apply in_map_iff in Hc as ([u|ty u] & <- & _); simpl; tauto.
Qed.

Lemma call_types_events ev l :
  Forall (fun c => In (Tracker.c_type c) Tracker.callTypes) (Tracker.eventCalls ev l).
Proof.
  unfold Tracker.eventCalls. apply List.Forall_forall. intros c Hc.
  apply in_map_iff in Hc as (i & <- & _). simpl. tauto.
Qed.

Lemma call_types_errors l :
  Forall (fun c => In (Tracker.c_type c) Tracker.callTypes) (errorCalls l).
Proof.
  unfold errorCalls. apply List.Forall_forall. intros c Hc.
  apply in_map_iff in Hc as (i & <- & _). simpl. tauto.
Qed.

Lemma batch_none k s s' fx :
  event k <> ClearAll -> world s' = world s -> requested fx = [] -> Change k s s' fx.
Proof.
  intros Hk Hw Hr. apply (Batch k s s' fx Tracker.noContext []); try assumption.
  constructor.
Qed.

Lemma fireEvent_change k ev mark msg s s' fx :
  event k <> ClearAll ->
  fireEvent (amb k) (video k) ev mark msg s = (s', fx) -> Change k s s' fx.
Proof.
  intros Hk. unfold fireEvent.
  destruct (trackingURLs (player s)) as [t|].
  - unfold Tracker.fireEventTrackers.
    destruct (Tracker.fireAll _ _ _ _ _) as [w issued] eqn:E.
    destruct msg as [m|]; unfold logEvent; cbn; intros [= <- <-];
      apply (Batch _ _ _ _ Tracker.noContext (Tracker.eventCalls ev (VASTParser.tracking t)));
      try assumption; try apply call_types_events; rewrite E; try reflexivity; req_norm.
  - intros [= <- <-]. now apply batch_none.
Qed.

Lemma change_prefix k s s1 s2 fx1 fx2 :
  world s1 = world s -> requested fx1 = [] ->
  Change k s1 s2 fx2 -> Change k s s2 (fx1 ++ fx2).
Proof.
  intros Hw Hr [Hk H1 H2 | i o Hk H1 H2 | ctx calls Hk Hc H1 H2];
    rewrite Hw in *.
  - apply Cleared; try assumption. now rewrite requested_app, Hr, H2.
  - apply (Settled _ _ _ _ i o); try assumption. now rewrite requested_app, Hr, H2.
  - apply (Batch _ _ _ _ ctx calls); try assumption.
    now rewrite requested_app, Hr, H2.
Qed.

Lemma logged_fireEvent_change k ty msg ev mark m s :
  event k <> ClearAll ->
  Change k s
    (fst (let '(s1, fx1) := logEvent (amb k) (video k) ty msg s in
          let '(s2, fx2) := fireEvent (amb k) (video k) ev mark m s1 in
          (s2, fx1 ++ fx2)))
    (snd (let '(s1, fx1) := logEvent (amb k) (video k) ty msg s in
          let '(s2, fx2) := fireEvent (amb k) (video k) ev mark m s1 in
          (s2, fx1 ++ fx2))).
Proof.
  intros Hk.
  destruct (logEvent _ _ _ _ s) as [s1 fx1] eqn:E1.
  destruct (fireEvent _ _ _ _ _ s1) as [s2 fx2] eqn:E2. cbn [fst snd].
  unfold logEvent in E1. injection E1 as <- <-.
  eapply change_prefix; [| |eapply fireEvent_change; eassumption]; reflexivity.
Qed.

Lemma handler_change e k s :
  event k <> ClearAll ->
  Change k s (fst (handler e (amb k) (video k) s)) (snd (handler e (amb k) (video k) s)).
Proof.
  intros Hk. destruct e; cbn [handler].
  - apply batch_none; [assumption|reflexivity|reflexivity].
  - unfold onPlay.
    destruct (negb (start (quartilesFired (player (fst (logEvent (amb k) (video k) "play"
                (Text "Video started playing") s)))))) eqn:Hs.
    + unfold logEvent in Hs |- *. cbn [fst] in Hs. rewrite Hs.
      apply (logged_fireEvent_change k "play" (Text "Video started playing") "start"
               _ (Some "Fired start tracking") s Hk).
    + unfold logEvent in Hs |- *. cbn [fst] in Hs. rewrite Hs.
      apply batch_none; [assumption|reflexivity|reflexivity].
  - unfold onPause. destruct (negb (ended (video k))).
    + apply (logged_fireEvent_change k "pause" (Text "Video paused") "pause" _ None s Hk).
    + apply batch_none; [assumption|reflexivity|reflexivity].
  - unfold onEnded.
    destruct (negb (complete (quartilesFired (player (fst (logEvent (amb k) (video k) "ended"
                (Text "Video completed") s)))))) eqn:Hs.
    + unfold logEvent in Hs |- *. cbn [fst] in Hs. rewrite Hs.
      apply (logged_fireEvent_change k "ended" (Text "Video completed") "complete"
               _ (Some "Fired complete tracking") s Hk).
    + unfold logEvent in Hs |- *. cbn [fst] in Hs. rewrite Hs.
      apply batch_none; [assumption|reflexivity|reflexivity].
  - unfold onError, logEvent. cbn [player with_player trackingURLs world].
    destruct (trackingURLs (player s)) as [t|].
    + destruct (Tracker.fireAll _ _ _ _ _) as [w issued] eqn:E. cbn [fst snd].
      apply (Batch _ _ _ _ Tracker.noContext (errorCalls (VASTParser.errors t)));
        [assumption | apply call_types_errors | now rewrite E |].
      rewrite E. destruct (VASTParser.errors t) as [|u l] eqn:El.
      * cbn in E. injection E as <- <-. reflexivity.
      * req_norm.
    + apply batch_none; [assumption|reflexivity|reflexivity].
  - unfold onTimeUpdate.
    destruct (Double.falsy (duration (video k)));
      [apply batch_none; [assumption|reflexivity|reflexivity]|].
    cbv zeta.
    repeat match goal with
           | |- context [if ?b then _ else _] => destruct b
           end;
      try (apply batch_none; [assumption|reflexivity|reflexivity]);
      (destruct (fireEvent _ _ _ _ _ s) as [s2 fx2] eqn:E2;
       eapply fireEvent_change; eassumption).
  - unfold onVolumeChange. destruct (muted (video k)).
    + apply (logged_fireEvent_change k "mute" (Text "Video muted") "mute" _ None s Hk).
    + apply (logged_fireEvent_change k "unmute" (VolumeOf (volume (video k))) "unmute"
               _ None s Hk).
  - unfold onClick, logEvent. cbn [player with_player trackingURLs world vastData].
    destruct (trackingURLs (player s)) as [t|];
      [|apply batch_none; [assumption|reflexivity|reflexivity]].
    destruct (vastData (player s)) as [d|];
      [|apply batch_none; [assumption|reflexivity|reflexivity]].
    unfold Tracker.fireClicks.
    destruct (Tracker.fireAll _ _ _ _ _) as [w issued] eqn:E. cbn [fst snd].
    apply (Batch _ _ _ _ Tracker.noContext (Tracker.clickCalls (VASTParser.clicks t)));
      [assumption | apply call_types_clicks | now rewrite E |].
    rewrite E. req_norm.
    assert (Hnil : forall l : list string, l ++ [] = l) by apply app_nil_r.
    destruct (findInline d) as [[title creatives]|]; [|apply Hnil].
    destruct (findLinear creatives) as [[mf [u|]]|]; try apply Hnil.
    destruct (String.eqb u ""); apply Hnil.
Qed.

(** Every task is one of the three kinds of change. *)
Lemma step_change k s : Change k s (fst (step k s)) (snd (step k s)).
Proof.
  unfold step. destruct (event k) as [d t| |e|i o] eqn:Hk.
  - unfold loadAd.
    destruct (findInline d) as [[title creatives]|];
      [|apply batch_none; [congruence|reflexivity|reflexivity]].
    destruct (findLinear creatives) as [[mediaFiles ct]|];
      [|apply batch_none; [congruence|reflexivity|reflexivity]].
    destruct (selectMediaFile (video k) mediaFiles) as [mf|];
      [|apply batch_none; [congruence|reflexivity|reflexivity]].
    unfold logEvent. cbn -[Tracker.fireImpressions].
    unfold Tracker.fireImpressions.
    destruct (Tracker.fireAll _ _ _ _ _) as [w issued] eqn:E. cbn [fst snd].
    apply (Batch _ _ _ _ Tracker.noContext
             (Tracker.impressionCalls (VASTParser.impressions t)));
      [congruence | apply call_types_impressions | now rewrite E |].
    rewrite E. req_norm.
  - apply Cleared; [assumption|reflexivity|reflexivity].
  - destruct (listening (player s)).
    + apply handler_change. congruence.
    + apply batch_none; [congruence|reflexivity|reflexivity].
  - apply (Settled _ _ _ _ i o); [assumption|reflexivity|reflexivity].
Qed.

End Tasks.

(** ** Batches of calls and the ledger *)

Section Batches.

Import Tracker.

(** The guard of [fireTracker], as a test on the URL. *)
Lemma fireTracker_start_guard env now u ty ev ctx tr :
  fireTracker_start env now u ty ev ctx tr =
    if VideoPlayer.nonEmpty u && negb (hasFired u tr)
    then Some {| s_url := u; s_type := ty; s_event := ev; s_timestamp := now;
                 s_processedURL := replaceMacros env ctx u |}
    else None.
Proof.
  unfold fireTracker_start, VideoPlayer.nonEmpty, hasFired.
  destruct (String.eqb u ""), (bool_decide (u ∈ firedTrackers tr)); reflexivity.
Qed.

Lemma fireAll_inflight amb ctx calls : forall i w,
  inflight (fst (fireAll amb ctx i calls w)) = inflight w ++ snd (fireAll amb ctx i calls w).
Proof.
  induction calls as [|c rest IH]; intros i w; cbn [fireAll].
  - cbn. now rewrite app_nil_r.
  - destruct (fireTracker_start _ _ _ _ _ _ _) as [s|]; [|apply IH].
    specialize (IH (S i) {| ledger := ledger w; inflight := inflight w ++ [s] |}).
    destruct (fireAll _ _ _ _ _) as [w' issued]. cbn [fst snd inflight] in *.
    rewrite IH, <- app_assoc. reflexivity.
Qed.

Lemma fireAll_issued amb ctx calls : forall i w,
  map (fun s => (s_url s, s_type s, s_event s)) (snd (fireAll amb ctx i calls w)) =
  map (fun c => (c_url c, c_type c, c_event c))
      (List.filter (fun c => VideoPlayer.nonEmpty (c_url c) &&
                             negb (hasFired (c_url c) (ledger w))) calls).
Proof.
  induction calls as [|c rest IH]; intros i w; cbn [fireAll List.filter]; [reflexivity|].
  rewrite fireTracker_start_guard.
  destruct (VideoPlayer.nonEmpty (c_url c) && negb (hasFired (c_url c) (ledger w))).
  - specialize (IH (S i) {| ledger := ledger w; inflight := inflight w ++
        [ {| s_url := c_url c; s_type := c_type c; s_event := c_event c;
             s_timestamp := clock amb;
             s_processedURL := replaceMacros (env_at amb i) ctx (c_url c) |} ] |}).
    destruct (fireAll _ _ _ _ _) as [w' issued]. cbn [fst snd ledger map] in *.
    now rewrite IH.
  - apply IH.
Qed.

Lemma fireAll_typed amb ctx calls i w :
  Forall (fun c => In (c_type c) callTypes) calls ->
  Forall (fun s => In (s_type s) callTypes) (snd (fireAll amb ctx i calls w)).
Proof.
  intros Hc. apply List.Forall_forall. intros s Hs.
  apply (in_map (fun s => (s_url s, s_type s, s_event s))) in Hs.
  rewrite fireAll_issued in Hs. apply in_map_iff in Hs as (c & Heq & Hin).
  apply filter_In in Hin as [Hin _].
  injection Heq as _ <- _. revert c Hin. now apply List.Forall_forall.
Qed.

Lemma fireAll_consistent amb ctx calls i w :
  Forall (fun c => In (c_type c) callTypes) calls ->
  consistent w -> consistent (fst (fireAll amb ctx i calls w)).
Proof.
  intros Hc (H1 & H2 & H3). unfold consistent.
  rewrite fireAll_ledger, fireAll_inflight. repeat split; try assumption.
  apply Forall_app. split; [assumption | now apply fireAll_typed].
Qed.

Lemma remove_nth_Forall {A} (P : A -> Prop) i (l : list A) :
  Forall P l -> Forall P (remove_nth i l).
Proof.
  revert i. induction l as [|x l IH]; intros i H; [destruct i; constructor|].
  inversion H; subst. destruct i; cbn; [assumption|]. constructor; auto.
Qed.

Lemma settle_consistent now i o w :
  consistent w -> consistent (fst (settle now i o w)).
Proof.
  intros (H1 & H2 & H3). unfold settle.
  destruct (nth_error (inflight w) i) as [s|] eqn:E; [|now repeat split].
  assert (Hs : In (s_type s) callTypes).
  { apply nth_error_In in E. revert s E. now apply List.Forall_forall. }
  assert (Hr : sendTracking o = Resolved true) by now destruct o.
  rewrite Hr. unfold fireTracker_resume, consistent.
  cbn [fst ledger inflight firedTrackers trackingLog].
  split; [|split].
  - apply Forall_app. split.
    + eapply List.Forall_impl; [|exact H1].
      intros r (Ha & Hb & u & Hu & Hin). split; [assumption|]. split; [assumption|].
      exists u. split; [assumption | apply elem_of_union; now right].
    + apply List.Forall_cons; [|apply List.Forall_nil].
      cbn [status type originalURL]. split; [reflexivity|]. split; [assumption|].
      exists (s_url s). split; [reflexivity|].
      apply elem_of_union. left. now apply elem_of_singleton.
  - intros u Hu. rewrite map_app. apply in_or_app.
    apply elem_of_union in Hu as [Hu | Hu].
    + right. apply elem_of_singleton in Hu. subst. now left.
    + left. now apply H2.
  - now apply remove_nth_Forall.
Qed.

Lemma resetWorld_consistent w : consistent w -> consistent (resetWorld w).
Proof.
  intros (_ & _ & H3). repeat split; cbn; [constructor | | assumption].
  intros u Hu. now apply elem_of_empty in Hu.
Qed.

End Batches.

Section Reachable.

Import VideoPlayer Steps.

Lemma step_consistent k s :
  Tracker.consistent (world s) -> Tracker.consistent (world (fst (step k s))).
Proof.
  intros H. destruct (step_change k s) as [_ Hw _ | i o _ Hw _ | ctx calls _ Hc Hw _];
    rewrite Hw.
  - now apply resetWorld_consistent.
  - now apply settle_consistent.
  - now apply fireAll_consistent.
Qed.

Lemma run_consistent ks : forall s,
  Tracker.consistent (world s) -> Tracker.consistent (world (fst (run ks s))).
Proof.
  induction ks as [|k ks IH]; intros s H; [exact H|].
  cbn [run]. pose proof (step_consistent k s H) as H1.
  destruct (step k s) as [s1 fx1]. specialize (IH s1 H1).
  destruct (run ks s1) as [s2 fx2]. exact IH.
Qed.

Lemma initial_consistent : Tracker.consistent (world initial).
Proof.
  repeat split; cbn; [constructor | | constructor].
  intros u Hu. now apply elem_of_empty in Hu.
Qed.

End Reachable.

(** ** Statistics of the log *)

Section Stats.

Import Tracker.

Lemma countLog_fold log : forall st,
  let st' := fold_left countLog log st in
  total st' = total st /\
  successCount st' =
    (successCount st + length (List.filter (fun r => match status r with
                                                     | success => true
                                                     | failed => false
                                                     end) log))%nat /\
  failedCount st' =
    (failedCount st + length (List.filter (fun r => match status r with
                                                    | success => false
                                                    | failed => true
                                                    end) log))%nat /\
  forall ty,
    default 0%nat (byType st' !! ty) =
      (default 0%nat (byType st !! ty) +
       length (List.filter (fun r => String.eqb (type r) ty) log))%nat.
Proof.
  induction log as [|r log IH]; intros st; cbn [fold_left List.filter length].
  - cbv zeta. repeat split; intros; lia.
  - specialize (IH (countLog st r)). cbv zeta in IH |- *.
    destruct IH as (Ht & Hs & Hf & Hb).
    rewrite Ht, Hs, Hf. unfold countLog at 1 2 3. cbn [total successCount failedCount].
    split; [reflexivity|].
    split. { destruct (status r); simpl; lia. }
    split. { destruct (status r); simpl; lia. }
    intros ty. rewrite Hb. unfold countLog at 1. cbn [byType].
    destruct (String.eqb_spec (type r) ty) as [->|Hne].
    + rewrite lookup_insert_eq. simpl. lia.
    + rewrite lookup_insert_ne by assumption. reflexivity.
Qed.

Lemma filter_all {A} (f : A -> bool) l :
  Forall (fun x => f x = true) l -> List.filter f l = l.
Proof.
  induction 1 as [|x l Hx _ IH]; [reflexivity|]. cbn. now rewrite Hx, IH.
Qed.

Lemma filter_none {A} (f : A -> bool) l :
  Forall (fun x => f x = false) l -> List.filter f l = [].
Proof.
  induction 1 as [|x l Hx _ IH]; [reflexivity|]. cbn. now rewrite Hx, IH.
Qed.

Lemma lookup_default_zero (m : gmap string nat) ty :
  (forall n, m !! ty = Some n -> n <> 0%nat) ->
  default 0%nat (m !! ty) = 0%nat -> m !! ty = None.
Proof.
  intros Hpos. destruct (m !! ty) as [n|] eqn:E; [|reflexivity].
  cbn. intros ->. now destruct (Hpos 0%nat eq_refl).
Qed.

Lemma countLog_positive log : forall st,
  (forall ty n, byType st !! ty = Some n -> n <> 0%nat) ->
  forall ty n, byType (fold_left countLog log st) !! ty = Some n -> n <> 0%nat.
Proof.
  induction log as [|r log IH]; intros st Hst; [exact Hst|].
  cbn [fold_left]. apply IH. intros ty n. unfold countLog. cbn [byType].
  destruct (String.eqb_spec (type r) ty) as [->|Hne].
  - rewrite lookup_insert_eq. intros [= <-]. discriminate.
  - rewrite lookup_insert_ne by assumption. apply Hst.
Qed.

End Stats.

Section LedgerProperties.

Import VideoPlayer Steps.

Lemma size_list_to_set_le (l : list string) :
  (size (list_to_set l : gset string) <= length l)%nat.
Proof.
  induction l as [|x l IH]; [rewrite list_to_set_nil, size_empty; cbn; lia|].
  rewrite list_to_set_cons, size_union_alt, size_singleton.
  pose proof (subseteq_size (list_to_set l ∖ {[x]}) (list_to_set l : gset string)
                ltac:(apply subseteq_difference_l; reflexivity)).
  simpl. lia.
Qed.

Lemma omap_length_le {A B} (f : A -> option B) (l : list A) :
  (length (omap f l) <= length l)%nat.
Proof.
  induction l as [|x l IH]; [reflexivity|].
  cbn. destruct (f x); simpl; lia.
Qed.

Lemma status_partition (l : list Tracker.FiringRecord) :
  (length (List.filter (fun r => match Tracker.status r with
                                 | Tracker.success => true
                                 | Tracker.failed => false
                                 end) l) +
   length (List.filter (fun r => match Tracker.status r with
                                 | Tracker.success => false
                                 | Tracker.failed => true
                                 end) l))%nat = length l.
Proof.
  induction l as [|r l IH]; [reflexivity|].
  cbn [List.filter]. destruct (Tracker.status r); simpl; lia.
Qed.

(** X1.  [getStats] on any ledger: [total] is the length of the
    log and the sum of [success] and [failed].  On the ledger of any state
    the page can reach from its initial state (ads loaded, video events,
    requests ending, [clearAll], in any order) [failed] is 0 and [success]
    is [total], since no request ever fails; [byType] counts, for each
    type, the records of that type, and has entries for the four call
    types only. *)
Theorem stats_count_the_log :
  (forall tr,
     Tracker.total (Tracker.getStats tr) = length (Tracker.getLog tr) /\
     (Tracker.successCount (Tracker.getStats tr) +
      Tracker.failedCount (Tracker.getStats tr))%nat
       = Tracker.total (Tracker.getStats tr)) /\
  (forall ks ty,
     let tr := Tracker.ledger (world (fst (run ks initial))) in
     Tracker.failedCount (Tracker.getStats tr) = 0%nat /\
     Tracker.successCount (Tracker.getStats tr) = length (Tracker.getLog tr) /\
     default 0%nat (Tracker.byType (Tracker.getStats tr) !! ty)
       = length (List.filter (fun r => String.eqb (Tracker.type r) ty)
                             (Tracker.getLog tr)) /\
     (Tracker.byType (Tracker.getStats tr) !! ty = None \/ In ty Tracker.callTypes)).
Proof.
  split.
  - intros tr. unfold Tracker.getStats, Tracker.getLog.
    destruct (countLog_fold (Tracker.trackingLog tr)
                {| Tracker.total := length (Tracker.trackingLog tr);
                   Tracker.successCount := 0; Tracker.failedCount := 0;
                   Tracker.byType := ∅ |}) as (Ht & Hs & Hf & _).
    rewrite Ht, Hs, Hf. cbn [Tracker.total Tracker.successCount Tracker.failedCount].
    split; [reflexivity|]. simpl. apply status_partition.
  - intros ks ty tr.
    destruct (run_consistent ks initial initial_consistent) as (Hlog & _ & _).
    fold tr in Hlog. unfold Tracker.getStats, Tracker.getLog.
    destruct (countLog_fold (Tracker.trackingLog tr)
                {| Tracker.total := length (Tracker.trackingLog tr);
                   Tracker.successCount := 0; Tracker.failedCount := 0;
                   Tracker.byType := ∅ |}) as (_ & Hs & Hf & Hb).
    rewrite Hs, Hf, (Hb ty).
    cbn [Tracker.successCount Tracker.failedCount Tracker.byType].
    rewrite lookup_empty. cbn [default].
    rewrite filter_none, filter_all.
    + repeat split.
      destruct (in_dec String.string_dec ty Tracker.callTypes) as [Hin|Hnin];
        [now right | left].
      apply lookup_default_zero.
      * intros n. apply countLog_positive. intros ty' n'. cbn [Tracker.byType].
        rewrite lookup_empty. discriminate.
      * rewrite (Hb ty). cbn [Tracker.byType]. rewrite lookup_empty. cbn [default].
        rewrite filter_none; [reflexivity|].
        eapply List.Forall_impl; [|exact Hlog]. intros r (_ & Hty & _).
        destruct (String.eqb_spec (Tracker.type r) ty) as [<-|]; [contradiction|reflexivity].
    + eapply List.Forall_impl; [|exact Hlog]. now intros r (-> & _).
    + eapply List.Forall_impl; [|exact Hlog]. now intros r (-> & _).
Qed.

(** X2.  On the ledger of any reachable state, [hasFired(u)] is
    true exactly when the log holds a record whose [originalURL] is [u],
    and [getFiredCount()] is at most the number of records (it is smaller
    when one URL was fired twice). *)
Theorem hasFired_iff_logged ks u :
  let tr := Tracker.ledger (world (fst (run ks initial))) in
  (Tracker.hasFired u tr = true <->
   In (Some u) (map Tracker.originalURL (Tracker.getLog tr))) /\
  (Tracker.getFiredCount tr <= length (Tracker.getLog tr))%nat.
Proof.
  intros tr.
  destruct (run_consistent ks initial initial_consistent) as (Hlog & Hfired & _).
  fold tr in Hlog, Hfired. unfold Tracker.hasFired, Tracker.getLog. split.
  - rewrite bool_decide_eq_true. split; [apply Hfired|].
    intros Hin. apply in_map_iff in Hin as (r & Hr & Hin).
    pose proof (proj1 (List.Forall_forall _ _) Hlog r Hin) as (_ & _ & u' & Hu' & Hf).
    congruence.
  - unfold Tracker.getFiredCount.
    assert (Hsub : Tracker.firedTrackers tr ⊆
                   list_to_set (omap Tracker.originalURL (Tracker.trackingLog tr))).
    { intros x Hx. apply elem_of_list_to_set, list_elem_of_omap.
      apply Hfired in Hx. apply in_map_iff in Hx as (r & Hr & Hin).
      exists r. split; [now apply list_elem_of_In | assumption]. }
    apply subseteq_size in Hsub.
    pose proof (size_list_to_set_le (omap Tracker.originalURL (Tracker.trackingLog tr))).
    pose proof (omap_length_le Tracker.originalURL (Tracker.trackingLog tr)) as Hlen.
    lia.
Qed.

Lemma filter_filter {A} (f g : A -> bool) l :
  List.filter f (List.filter g l) = List.filter (fun x => g x && f x) l.
Proof.
  induction l as [|x l IH]; [reflexivity|]. cbn.
  destruct (g x); cbn; [destruct (f x)|]; now rewrite IH.
Qed.

Lemma map_filter_ext {A B} (f g : A -> B) (p q : A -> bool) l :
  (forall x, p x = q x /\ f x = g x) ->
  map f (List.filter p l) = map g (List.filter q l).
Proof.
  intros H. induction l as [|x l IH]; [reflexivity|]. cbn.
  destruct (H x) as [<- Hf]. destruct (p x); cbn; now rewrite ?Hf, IH.
Qed.

Lemma filter_map_swap {A B} (f : B -> bool) (g : A -> B) l :
  List.filter f (map g l) = map g (List.filter (fun x => f (g x)) l).
Proof.
  induction l as [|x l IH]; [reflexivity|]. cbn.
  destruct (f (g x)); cbn; now rewrite IH.
Qed.

(** X3.  What the three batch helpers do before they return to
    the handler: [fireImpressions], [fireClicks] and [fireEventTrackers]
    send a request for exactly those entries, in catalog order and with
    repetitions, whose URL is non-empty and not marked as fired
    ([fireEventTrackers]: among the entries whose event is exactly the
    given name); the requests carry the type of the helper; the ledger is
    unchanged, and the requests are appended to the waiting ones. *)
Theorem batch_requests_unfired_urls amb ctx w :
  let fresh u := nonEmpty u && negb (Tracker.hasFired u (Tracker.ledger w)) in
  let sent r := map (fun s => (Tracker.s_url s, Tracker.s_type s, Tracker.s_event s))
                    (snd r) in
  let kept (r : Tracker.World * list Tracker.Suspended) :=
    Tracker.ledger (fst r) = Tracker.ledger w /\
    Tracker.inflight (fst r) = Tracker.inflight w ++ snd r in
  (forall l,
     sent (Tracker.fireImpressions amb l ctx w)
       = map (fun i => (impressionURLOf i, "impression", None))
             (List.filter (fun i => fresh (impressionURLOf i)) l) /\
     kept (Tracker.fireImpressions amb l ctx w)) /\
  (forall l,
     sent (Tracker.fireClicks amb l ctx w)
       = map (fun c => match c with
                       | Tracker.ClickString u => (u, "click", None)
                       | Tracker.ClickObject ty u =>
                         (u, "click", if String.eqb ty "" then None else Some ty)
                       end)
             (List.filter (fun c => match c with
                                    | Tracker.ClickString u => fresh u
                                    | Tracker.ClickObject _ u => fresh u
                                    end) l) /\
     kept (Tracker.fireClicks amb l ctx w)) /\
  (forall ev l,
     sent (Tracker.fireEventTrackers amb ev l ctx w)
       = map (fun t => (Tracker.et_url t, "event", Some ev))
             (List.filter (fun t => String.eqb (Tracker.et_event t) ev &&
                                    fresh (Tracker.et_url t)) l) /\
     kept (Tracker.fireEventTrackers amb ev l ctx w)).
Proof.
  intros fresh sent kept.
  assert (Hkept : forall calls, kept (Tracker.fireAll amb ctx 0 calls w)).
  { intros calls. split; [apply fireAll_ledger | apply fireAll_inflight]. }
  split; [|split].
  - intros l. split; [|apply Hkept].
    unfold sent, Tracker.fireImpressions. rewrite fireAll_issued.
    unfold Tracker.impressionCalls. rewrite filter_map_swap, map_map.
    cbn [Tracker.c_url Tracker.c_type Tracker.c_event]. reflexivity.
  - intros l. split; [|apply Hkept].
    unfold sent, Tracker.fireClicks. rewrite fireAll_issued.
    unfold Tracker.clickCalls. rewrite filter_map_swap, map_map.
    apply map_filter_ext; intros [u|ty u]; split; reflexivity.
  - intros ev l. split; [|apply Hkept].
    unfold sent, Tracker.fireEventTrackers. rewrite fireAll_issued.
    unfold Tracker.eventCalls. rewrite filter_map_swap, map_map, filter_filter.
    cbn [Tracker.c_url Tracker.c_type Tracker.c_event]. reflexivity.
Qed.

Lemma change_keeps_fired k s s' fx u :
  Change k s s' fx -> event k <> ClearAll ->
  Tracker.hasFired u (Tracker.ledger (world s)) = true ->
  ~ In u (requested fx) /\ Tracker.hasFired u (Tracker.ledger (world s')) = true.
Proof.
  intros [Hk _ _ | i o _ Hw Hr | ctx calls _ _ Hw Hr] Hne Hu; [contradiction| |].
  - rewrite Hr. split; [intros []|]. rewrite Hw. unfold Tracker.settle.
    destruct (nth_error _ i) as [x|]; [|exact Hu].
    assert (Hs : Tracker.sendTracking o = Tracker.Resolved true) by now destruct o.
    rewrite Hs. cbn. unfold Tracker.hasFired in *. cbn.
    apply bool_decide_eq_true. apply bool_decide_eq_true in Hu.
    apply elem_of_union. now right.
  - rewrite Hw, fireAll_ledger. split; [|exact Hu].
    rewrite Hr. intros Hin.
    apply in_map_iff in Hin as (x & Hx & Hin).
    apply (in_map (fun s => (Tracker.s_url s, Tracker.s_type s, Tracker.s_event s)))
      in Hin.
    rewrite fireAll_issued in Hin. apply in_map_iff in Hin as (c & Heq & Hc).
    apply filter_In in Hc as [_ Hc]. injection Heq as Hurl _ _.
    rewrite Hurl, Hx, Hu in Hc. now rewrite andb_false_r in Hc.
Qed.

(** X4.  Once a URL is marked as fired, no task requests it again,
    whatever is loaded or played and whichever requests end, until
    [clearAll]; and it stays marked. *)
Theorem fired_url_not_requested_again ks : forall s u,
  Forall (fun k => event k <> ClearAll) ks ->
  Tracker.hasFired u (Tracker.ledger (world s)) = true ->
  ~ In u (requested (snd (run ks s))) /\
  Tracker.hasFired u (Tracker.ledger (world (fst (run ks s)))) = true.
Proof.
  induction ks as [|k ks IH]; intros s u Hks Hu; [split; [intros []|exact Hu]|].
  inversion Hks as [|? ? Hk Hrest]; subst. cbn [run].
  destruct (change_keeps_fired k s _ _ u (step_change k s) Hk Hu) as [Hno Hu1].
  destruct (step k s) as [s1 fx1]. cbn [fst snd] in *.
  destruct (IH s1 u Hrest Hu1) as [Hno2 Hu2].
  destruct (run ks s1) as [s2 fx2]. cbn [fst snd] in *.
  split; [|exact Hu2]. rewrite requested_app. intros Hin.
  apply in_app_or in Hin as [Hin|Hin]; [now apply Hno | now apply Hno2].
Qed.

Lemma fired_url_not_requested_again_witness :
  Forall (fun k => event k <> ClearAll)
    [ Sample.task (LoadAd Sample.vast Sample.catalog) 0; Sample.task (Media play) 0;
      Sample.task (Media pause) 3 ] /\
  Tracker.hasFired "https://t.example/ev?e=start"
    (Tracker.ledger (world Sample.finished)) = true /\
  ~ In "https://t.example/ev?e=start"
      (requested (snd (run [ Sample.task (LoadAd Sample.vast Sample.catalog) 0;
                             Sample.task (Media play) 0;
                             Sample.task (Media pause) 3 ] Sample.finished))) /\
  Tracker.hasFired "https://t.example/ev?e=start"
    (Tracker.ledger
       (world (fst (run [ Sample.task (LoadAd Sample.vast Sample.catalog) 0;
                          Sample.task (Media play) 0;
                          Sample.task (Media pause) 3 ] Sample.finished)))) = true.
Proof.
  assert (H1 : Forall (fun k => event k <> ClearAll)
                 [ Sample.task (LoadAd Sample.vast Sample.catalog) 0;
                   Sample.task (Media play) 0; Sample.task (Media pause) 3 ])
    by (repeat constructor; discriminate).
  assert (H2 : Tracker.hasFired "https://t.example/ev?e=start"
                 (Tracker.ledger (world Sample.finished)) = true)
    by (vm_compute; reflexivity).
  split; [exact H1|]. split; [exact H2|].
  exact (fired_url_not_requested_again _ Sample.finished
           "https://t.example/ev?e=start" H1 H2).
Defined.

Lemma remove_nth_perm {A} (l : list A) : forall i x,
  nth_error l i = Some x -> Permutation l (x :: Tracker.remove_nth i l).
Proof.
  induction l as [|y l IH]; intros [|i] x H; try discriminate.
  - injection H as ->. reflexivity.
  - cbn in H |- *. rewrite (IH i x H) at 1. apply perm_swap.
Qed.

Lemma change_balance k s s' fx :
  Change k s s' fx -> event k <> ClearAll ->
  Permutation
    (requested fx ++ map Tracker.s_url (Tracker.inflight (world s)) ++
     omap Tracker.originalURL (Tracker.trackingLog (Tracker.ledger (world s))))
    (map Tracker.s_url (Tracker.inflight (world s')) ++
     omap Tracker.originalURL (Tracker.trackingLog (Tracker.ledger (world s')))).
Proof.
  intros [Hk _ _ | i o _ Hw Hr | ctx calls _ _ Hw Hr] Hne; [contradiction| |].
  - rewrite Hr, Hw. cbn [app]. unfold Tracker.settle.
    destruct (nth_error _ i) as [x|] eqn:E; [|reflexivity].
    assert (Hs : Tracker.sendTracking o = Tracker.Resolved true) by now destruct o.
    rewrite Hs. cbn [fst Tracker.fireTracker_resume Tracker.ledger Tracker.inflight
                     Tracker.trackingLog].
    rewrite omap_app. cbn [omap Tracker.originalURL]. 
    rewrite (Permutation_map Tracker.s_url (remove_nth_perm _ _ _ E)). cbn [map].
    change (omap Tracker.originalURL []) with (@nil string).
    rewrite (Permutation_app_comm _ [Tracker.s_url x]).
    apply Permutation_middle.
  - rewrite Hr, Hw, fireAll_ledger, fireAll_inflight, map_app.
    rewrite <- app_assoc. rewrite Permutation_app_swap_app. reflexivity.
Qed.

(** X5.  Between two [clearAll]s no request is lost or counted
    twice: the URLs requested during a run, together with those waiting
    and those logged before it, are those waiting and those logged after
    it, each as often.  From the initial state: every request sent is
    either still waiting or has exactly one record in the log. *)
Theorem requests_are_waiting_or_logged ks : forall s,
  Forall (fun k => event k <> ClearAll) ks ->
  Permutation
    (requested (snd (run ks s)) ++ map Tracker.s_url (Tracker.inflight (world s)) ++
     omap Tracker.originalURL (Tracker.trackingLog (Tracker.ledger (world s))))
    (map Tracker.s_url (Tracker.inflight (world (fst (run ks s)))) ++
     omap Tracker.originalURL
       (Tracker.trackingLog (Tracker.ledger (world (fst (run ks s)))))).
Proof.
  induction ks as [|k ks IH]; intros s Hks; [reflexivity|].
  inversion Hks as [|? ? Hk Hrest]; subst. cbn [run].
  pose proof (change_balance k s _ _ (step_change k s) Hk) as H1.
  destruct (step k s) as [s1 fx1]. cbn [fst snd] in *.
  specialize (IH s1 Hrest).
  destruct (run ks s1) as [s2 fx2]. cbn [fst snd] in *.
  rewrite requested_app, <- IH.
  rewrite <- H1. rewrite !app_assoc.
  apply Permutation_app_tail, Permutation_app_tail, Permutation_app_comm.
Qed.

Lemma requests_are_waiting_or_logged_witness :
  Forall (fun k => event k <> ClearAll)
    [ Sample.task (LoadAd Sample.vast Sample.catalog) 0; Sample.task (Media play) 0;
      Sample.task (Settle 0 Tracker.ImgError) 1 ] /\
  Permutation
    (requested (snd (run [ Sample.task (LoadAd Sample.vast Sample.catalog) 0;
                           Sample.task (Media play) 0;
                           Sample.task (Settle 0 Tracker.ImgError) 1 ] initial)) ++
     map Tracker.s_url (Tracker.inflight (world initial)) ++
     omap Tracker.originalURL (Tracker.trackingLog (Tracker.ledger (world initial))))
    (map Tracker.s_url
       (Tracker.inflight
          (world (fst (run [ Sample.task (LoadAd Sample.vast Sample.catalog) 0;
                             Sample.task (Media play) 0;
                             Sample.task (Settle 0 Tracker.ImgError) 1 ] initial)))) ++
     omap Tracker.originalURL
       (Tracker.trackingLog
          (Tracker.ledger
             (world (fst (run [ Sample.task (LoadAd Sample.vast Sample.catalog) 0;
                                Sample.task (Media play) 0;
                                Sample.task (Settle 0 Tracker.ImgError) 1 ] initial)))))).
Proof.
  assert (H1 : Forall (fun k => event k <> ClearAll)
                 [ Sample.task (LoadAd Sample.vast Sample.catalog) 0;
                   Sample.task (Media play) 0;
                   Sample.task (Settle 0 Tracker.ImgError) 1 ])
    by (repeat constructor; discriminate).
  split; [exact H1|].
  exact (requests_are_waiting_or_logged _ initial H1).
Defined.

End LedgerProperties.

(** ** URLs without placeholders *)

Section PlainURL.

Import JS.

Lemma replaceAll_no_open r tmpl s :
  Tracker.no_open s = true -> replaceAll_ci (String "[" r) tmpl s = s.
Proof.
  intros H. unfold replaceAll_ci.
  pose proof (scan_copy (String "[" r) tmpl "" s "" (no_start_no_open r "" s H)) as Hc.
  rewrite append_nil_r in Hc. rewrite Hc. cbn [replaceFrom]. apply append_nil_r.
Qed.

Lemma replaceEach_no_open ms s :
  Forall (fun mv => is_token (fst mv) = true) ms ->
  Tracker.no_open s = true -> Tracker.replaceEach ms s = s.
Proof.
  intros Hms Hs. induction Hms as [|[p v] ms Hp _ IH]; [reflexivity|].
  rewrite replaceEach_cons. cbn [fst] in Hp.
  destruct p as [|c r]; [discriminate|].
  unfold is_token in Hp.
  destruct (Ascii.eqb_spec c "[") as [->|Hc].
  - now rewrite replaceAll_no_open.
  - exfalso. revert Hp Hc. clear.
    destruct c as [[] [] [] [] [] [] [] []]; try discriminate; intros _ H; now apply H.
Qed.

(** X6.  A URL with no opening bracket holds no placeholder:
    [replaceMacros] returns it as it is, for every context and whatever
    the clock and the random numbers are.  (This includes the empty URL,
    which is returned before the table is built.) *)
Theorem url_without_bracket_unchanged env ctx url :
  Tracker.no_open url = true -> Tracker.replaceMacros env ctx url = url.
Proof.
  intros H. rewrite replaceMacros_each.
  apply replaceEach_no_open; [apply tokens_macros | exact H].
Qed.

Lemma url_without_bracket_unchanged_witness :
  Tracker.no_open "https://t.example/pixel?id=7&r=$1" = true /\
  Tracker.replaceMacros Sample.env Tracker.noContext "https://t.example/pixel?id=7&r=$1"
    = "https://t.example/pixel?id=7&r=$1".
Proof.
  split; [reflexivity|].
  apply (url_without_bracket_unchanged Sample.env Tracker.noContext
           "https://t.example/pixel?id=7&r=$1").
  reflexivity.
Defined.

End PlainURL.

(** ** The player *)

Section PlayerProperties.

Import VideoPlayer.

Ltac ev_norm :=
  cbn [fst snd]; unfold firedEvents;
  repeat first [rewrite flat_map_app | progress (cbn [flat_map app])];
  repeat match goal with
         | |- context [flat_map ?f (map Request ?l)] =>
           change (flat_map f (map Request l)) with (firedEvents (map Request l));
           rewrite (firedEvents_requests l)
         end;
  cbn [app].

(** What [fireEvent] hands to the tracker and does to the flags. *)
Lemma fireEvent_fires a v ev mark msg s :
  match trackingURLs (player s) with
  | Some _ =>
    firedEvents (snd (fireEvent a v ev mark msg s)) = [ev] /\
    quartilesFired (player (fst (fireEvent a v ev mark msg s)))
      = mark (quartilesFired (player s))
  | None =>
    firedEvents (snd (fireEvent a v ev mark msg s)) = [] /\
    quartilesFired (player (fst (fireEvent a v ev mark msg s)))
      = quartilesFired (player s)
  end.
Proof.
  unfold fireEvent. destruct (trackingURLs (player s)) as [t|]; [|split; reflexivity].
  destruct (Tracker.fireEventTrackers _ _ _ _ _) as [w issued].
  destruct msg as [m|]; unfold logEvent; cbn [fst snd player with_player quartilesFired
                                               set_fired]; split; try reflexivity; ev_norm;
    reflexivity.
Qed.

Lemma logged_fire_fires a v ty msg ev mark m s :
  match trackingURLs (player s) with
  | Some _ =>
    firedEvents (snd (let '(s1, fx1) := logEvent a v ty msg s in
                      let '(s2, fx2) := fireEvent a v ev mark m s1 in
                      (s2, fx1 ++ fx2))) = [ev] /\
    quartilesFired (player (fst (let '(s1, fx1) := logEvent a v ty msg s in
                                 let '(s2, fx2) := fireEvent a v ev mark m s1 in
                                 (s2, fx1 ++ fx2))))
      = mark (quartilesFired (player s))
  | None =>
    firedEvents (snd (let '(s1, fx1) := logEvent a v ty msg s in
                      let '(s2, fx2) := fireEvent a v ev mark m s1 in
                      (s2, fx1 ++ fx2))) = [] /\
    quartilesFired (player (fst (let '(s1, fx1) := logEvent a v ty msg s in
                                 let '(s2, fx2) := fireEvent a v ev mark m s1 in
                                 (s2, fx1 ++ fx2))))
      = quartilesFired (player s)
  end.
Proof.
  destruct (logEvent a v ty msg s) as [s1 fx1] eqn:E1.
  pose proof (fireEvent_fires a v ev mark m s1) as H.
  destruct (fireEvent a v ev mark m s1) as [s2 fx2].
  unfold logEvent in E1. injection E1 as <- <-.
  cbn [player with_player trackingURLs quartilesFired fst snd] in *.
  destruct (trackingURLs (player s)); destruct H as [H1 H2]; (split; [|exact H2]);
    rewrite firedEvents_app, H1; reflexivity.
Qed.

Ltac flag_cases x :=
  unfold flagged;
  cbn [start firstQuartile midpoint thirdQuartile complete existsb lifecycle];
  destruct (String.eqb_spec x "start") as [->|?];
    [ cbn; rewrite ?orb_false_r, ?orb_true_r; reflexivity |];
  destruct (String.eqb_spec x "firstQuartile") as [->|?];
    [ cbn; rewrite ?orb_false_r, ?orb_true_r; reflexivity |];
  destruct (String.eqb_spec x "midpoint") as [->|?];
    [ cbn; rewrite ?orb_false_r, ?orb_true_r; reflexivity |];
  destruct (String.eqb_spec x "thirdQuartile") as [->|?];
    [ cbn; rewrite ?orb_false_r, ?orb_true_r; reflexivity |];
  destruct (String.eqb_spec x "complete") as [->|?];
    [ cbn; rewrite ?orb_false_r, ?orb_true_r; reflexivity |];
  cbn; rewrite ?andb_false_r, ?orb_false_r; reflexivity.

(** A video event fires nothing and leaves the flags, or it fires one
    event whose flag was clear and sets that flag. *)
Lemma handler_fires e a v s :
  (firedEvents (snd (handler e a v s)) = [] /\
   quartilesFired (player (fst (handler e a v s))) = quartilesFired (player s)) \/
  (exists ev,
     firedEvents (snd (handler e a v s)) = [ev] /\
     flagged (quartilesFired (player s)) ev = false /\
     forall x, flagged (quartilesFired (player (fst (handler e a v s)))) x
               = flagged (quartilesFired (player s)) x ||
                 (String.eqb x ev && existsb (String.eqb ev) lifecycle)).
Proof.
  destruct e; cbn [handler].
  - left. split; reflexivity.
  - unfold onPlay.
    pose proof (logged_fire_fires a v "play" (Text "Video started playing") "start"
      (fun q => {| start := true; firstQuartile := firstQuartile q;
                   midpoint := midpoint q; thirdQuartile := thirdQuartile q;
                   complete := complete q |}) (Some "Fired start tracking") s) as H.
    unfold logEvent in H |- *. cbn [player with_player quartilesFired] in H |- *.
    destruct (start (quartilesFired (player s))) eqn:Hs; cbn [negb];
      [left; split; reflexivity|].
    destruct (trackingURLs (player s)); destruct H as [H1 H2]; [right|left; now split].
    exists "start". rewrite H1, H2. split; [reflexivity|]. split.
    + unfold flagged. cbn. exact Hs.
    + intros x. destruct (quartilesFired (player s)) as [b1 b2 b3 b4 b5].
      cbn in Hs. subst b1. flag_cases x.
  - unfold onPause.
    pose proof (logged_fire_fires a v "pause" (Text "Video paused") "pause"
      (fun q => q) None s) as H.
    destruct (ended v); cbn [negb]; [left; split; reflexivity|].
    destruct (trackingURLs (player s)); destruct H as [H1 H2]; [right|left; now split].
    exists "pause". rewrite H1, H2. split; [reflexivity|]. split; [reflexivity|].
    intros x. destruct (quartilesFired (player s)) as [b1 b2 b3 b4 b5]. flag_cases x.
  - unfold onEnded.
    pose proof (logged_fire_fires a v "ended" (Text "Video completed") "complete"
      (fun q => {| start := start q; firstQuartile := firstQuartile q;
                   midpoint := midpoint q; thirdQuartile := thirdQuartile q;
                   complete := true |}) (Some "Fired complete tracking") s) as H.
    unfold logEvent in H |- *. cbn [player with_player quartilesFired] in H |- *.
    destruct (complete (quartilesFired (player s))) eqn:Hs; cbn [negb];
      [left; split; reflexivity|].
    destruct (trackingURLs (player s)); destruct H as [H1 H2]; [right|left; now split].
    exists "complete". rewrite H1, H2. split; [reflexivity|]. split.
    + unfold flagged. cbn. exact Hs.
    + intros x. destruct (quartilesFired (player s)) as [b1 b2 b3 b4 b5].
      cbn in Hs. subst b5. flag_cases x.
  - left. unfold onError, logEvent. cbn [player with_player trackingURLs world].
    destruct (trackingURLs (player s)) as [t|]; [|split; reflexivity].
    destruct (Tracker.fireAll _ _ _ _ _) as [w issued]. split; [|reflexivity].
    destruct (VASTParser.errors t); ev_norm; reflexivity.
  - unfold onTimeUpdate.
    destruct (Double.falsy (duration v)); [left; split; reflexivity|]. cbv zeta.
    destruct (Double.geb (Double.div (currentTime v) (duration v)) quarter &&
              negb (firstQuartile (quartilesFired (player s)))) eqn:H25.
    { pose proof (fireEvent_fires a v "firstQuartile"
        (fun q => {| start := start q; firstQuartile := true;
                     midpoint := midpoint q; thirdQuartile := thirdQuartile q;
                     complete := complete q |})
        (Some "Fired first quartile tracking (25%)") s) as H.
      destruct (trackingURLs (player s)); destruct H as [H1 H2]; [right|left; now split].
      exists "firstQuartile". rewrite H1, H2. split; [reflexivity|].
      apply andb_true_iff in H25 as [_ Hf]. apply negb_true_iff in Hf. split.
      - unfold flagged. cbn. exact Hf.
      - intros x. destruct (quartilesFired (player s)) as [b1 b2 b3 b4 b5].
        cbn in Hf. subst b2. flag_cases x. }
    destruct (Double.geb (Double.div (currentTime v) (duration v)) half &&
              negb (midpoint (quartilesFired (player s)))) eqn:H50.
    { pose proof (fireEvent_fires a v "midpoint"
        (fun q => {| start := start q; firstQuartile := firstQuartile q;
                     midpoint := true; thirdQuartile := thirdQuartile q;
                     complete := complete q |})
        (Some "Fired midpoint tracking (50%)") s) as H.
      destruct (trackingURLs (player s)); destruct H as [H1 H2]; [right|left; now split].
      exists "midpoint". rewrite H1, H2. split; [reflexivity|].
      apply andb_true_iff in H50 as [_ Hf]. apply negb_true_iff in Hf. split.
      - unfold flagged. cbn. exact Hf.
      - intros x. destruct (quartilesFired (player s)) as [b1 b2 b3 b4 b5].
        cbn in Hf. subst b3. flag_cases x. }
    destruct (Double.geb (Double.div (currentTime v) (duration v)) threeQuarters &&
              negb (thirdQuartile (quartilesFired (player s)))) eqn:H75.
    { pose proof (fireEvent_fires a v "thirdQuartile"
        (fun q => {| start := start q; firstQuartile := firstQuartile q;
                     midpoint := midpoint q; thirdQuartile := true;
                     complete := complete q |})
        (Some "Fired third quartile tracking (75%)") s) as H.
      destruct (trackingURLs (player s)); destruct H as [H1 H2]; [right|left; now split].
      exists "thirdQuartile". rewrite H1, H2. split; [reflexivity|].
      apply andb_true_iff in H75 as [_ Hf]. apply negb_true_iff in Hf. split.
      - unfold flagged. cbn. exact Hf.
      - intros x. destruct (quartilesFired (player s)) as [b1 b2 b3 b4 b5].
        cbn in Hf. subst b4. flag_cases x. }
    left. split; reflexivity.
  - unfold onVolumeChange. destruct (muted v).
    + pose proof (logged_fire_fires a v "mute" (Text "Video muted") "mute"
        (fun q => q) None s) as H.
      destruct (trackingURLs (player s)); destruct H as [H1 H2]; [right|left; now split].
      exists "mute". rewrite H1, H2. split; [reflexivity|]. split; [reflexivity|].
      intros x. destruct (quartilesFired (player s)) as [b1 b2 b3 b4 b5]. flag_cases x.
    + pose proof (logged_fire_fires a v "unmute" (VolumeOf (volume v)) "unmute"
        (fun q => q) None s) as H.
      destruct (trackingURLs (player s)); destruct H as [H1 H2]; [right|left; now split].
      exists "unmute". rewrite H1, H2. split; [reflexivity|]. split; [reflexivity|].
      intros x. destruct (quartilesFired (player s)) as [b1 b2 b3 b4 b5]. flag_cases x.
  - left. unfold onClick, logEvent. cbn [player with_player trackingURLs world vastData].
    destruct (trackingURLs (player s)) as [t|]; [|split; reflexivity].
    destruct (vastData (player s)) as [d|]; [|split; reflexivity].
    destruct (Tracker.fireClicks _ _ _ _) as [w issued]. split; [|reflexivity].
    ev_norm.
    destruct (findInline d) as [[title creatives]|]; [|reflexivity].
    destruct (findLinear creatives) as [[mf [u|]]|]; try reflexivity.
    destruct (String.eqb u ""); reflexivity.
Qed.

Lemma step_fires k s :
  isPlayback k = true ->
  (firedEvents (snd (step k s)) = [] /\
   quartilesFired (player (fst (step k s))) = quartilesFired (player s)) \/
  (exists ev,
     firedEvents (snd (step k s)) = [ev] /\
     flagged (quartilesFired (player s)) ev = false /\
     forall x, flagged (quartilesFired (player (fst (step k s)))) x
               = flagged (quartilesFired (player s)) x ||
                 (String.eqb x ev && existsb (String.eqb ev) lifecycle)).
Proof.
  unfold isPlayback, step. destruct (event k) as [d t| |e|i o]; try discriminate; intros _.
  - destruct (listening (player s)); [apply handler_fires | left; split; reflexivity].
  - left. split; reflexivity.
Qed.

(** X7.  While one ad plays (no load and no reset in
    between), whatever the video element reports and in whatever order
    (seeks back and forth, repeated plays and ends, requests ending in
    between), each of [start], [firstQuartile], [midpoint],
    [thirdQuartile] and [complete] is handed to the tracker at most once,
    and an event whose flag is already set is not handed over at all. *)
Theorem lifecycle_event_at_most_once ks : forall s,
  Forall (fun k => isPlayback k = true) ks ->
  List.NoDup (List.filter (fun ev => existsb (String.eqb ev) lifecycle)
                     (firedEvents (snd (run ks s)))) /\
  (forall ev, flagged (quartilesFired (player s)) ev = true ->
              ~ In ev (firedEvents (snd (run ks s)))).
Proof.
  induction ks as [|k ks IH]; intros s Hks.
  - split; [apply List.NoDup_nil | intros ev _ []].
  - inversion Hks as [|? ? Hk Hrest]; subst. cbn [run].
    pose proof (step_fires k s Hk) as Hstep.
    destruct (step k s) as [s1 fx1]. cbn [fst snd] in Hstep.
    destruct (IH s1 Hrest) as [Hnd Hfl].
    destruct (run ks s1) as [s2 fx2]. cbn [fst snd] in *.
    rewrite firedEvents_app.
    destruct Hstep as [[-> Hq] | (ev0 & -> & Hf0 & Hq)]; cbn [app].
    + rewrite <- Hq. split; assumption.
    + split.
      * cbn [List.filter].
        destruct (existsb (String.eqb ev0) lifecycle) eqn:Hl; [|exact Hnd].
        apply List.NoDup_cons; [|exact Hnd]. intros Hin.
        apply filter_In in Hin as [Hin _].
        apply (Hfl ev0); [|exact Hin]. rewrite Hq, String.eqb_refl.
        apply orb_true_r.
      * intros ev Hev [<-|Hin]; [congruence|].
        apply (Hfl ev); [|exact Hin]. rewrite Hq, Hev. reflexivity.
Qed.

Lemma lifecycle_event_at_most_once_witness :
  Forall (fun k => isPlayback k = true)
    (playThrough Sample.ambient (Sample.videoAt 0) 30 ++
     playThrough Sample.ambient (Sample.videoAt 0) 30) /\
  List.NoDup (List.filter (fun ev => existsb (String.eqb ev) lifecycle)
           (firedEvents
              (snd (run (playThrough Sample.ambient (Sample.videoAt 0) 30 ++
                         playThrough Sample.ambient (Sample.videoAt 0) 30)
                        Sample.loaded)))) /\
  (forall ev, flagged (quartilesFired (player Sample.loaded)) ev = true ->
              ~ In ev (firedEvents
                         (snd (run (playThrough Sample.ambient (Sample.videoAt 0) 30 ++
                                    playThrough Sample.ambient (Sample.videoAt 0) 30)
                                   Sample.loaded)))).
Proof.
  assert (H : Forall (fun k => isPlayback k = true)
                (playThrough Sample.ambient (Sample.videoAt 0) 30 ++
                 playThrough Sample.ambient (Sample.videoAt 0) 30))
    by (repeat constructor).
  split; [exact H|].
  exact (lifecycle_event_at_most_once _ Sample.loaded H).
Defined.

(** Twice through the sample ad, the five events are fired once each. *)
Lemma replay_fires_nothing_new :
  firedEvents
    (snd (run (playThrough Sample.ambient (Sample.videoAt 0) 30 ++
               playThrough Sample.ambient (Sample.videoAt 0) 30) Sample.loaded))
  = ["start"; "firstQuartile"; "midpoint"; "thirdQuartile"; "complete"].
Proof. vm_compute. reflexivity. Qed.

Lemma has_type_iff ty mf :
  Select.has_type VASTParser.get ty mf = true <-> VASTParser.type mf = Some ty.
Proof.
  unfold Select.has_type. cbn. destruct (VASTParser.type mf) as [x|]; cbn.
  - rewrite String.eqb_eq. split; [now intros -> | now intros [= ->]].
  - split; discriminate.
Qed.

Lemma byPreference_tier v ty rest files :
  (playable v files ty ->
   exists f, List.find (Select.has_type VASTParser.get ty) files = Some f /\
             VASTParser.type f = Some ty /\
             Select.byPreference VASTParser.get (canPlayType v) (ty :: rest) files = Some f) /\
  (~ playable v files ty ->
   Select.byPreference VASTParser.get (canPlayType v) (ty :: rest) files
   = Select.byPreference VASTParser.get (canPlayType v) rest files).
Proof.
  cbn [Select.byPreference].
  destruct (List.find (Select.has_type VASTParser.get ty) files) as [f|] eqn:E.
  - apply find_some in E as [Hin Hty]. apply has_type_iff in Hty.
    destruct (canPlayType v ty) eqn:Hc; split.
    + intros _. exists f. now repeat split.
    + intros Hn. exfalso. apply Hn. split; [assumption|]. now exists f.
    + intros [Hp _]. congruence.
    + reflexivity.
  - split; [|reflexivity]. intros [_ (g & Hg & Hty)]. exfalso.
    apply has_type_iff in Hty. pose proof (find_none _ _ E g Hg). congruence.
Qed.

Lemma byPreference_in v types files f :
  Select.byPreference VASTParser.get (canPlayType v) types files = Some f -> In f files.
Proof.
  induction types as [|ty rest IH]; cbn [Select.byPreference].
  - destruct files; [discriminate|]. intros [= ->]. now left.
  - destruct (List.find _ files) as [g|] eqn:E; [|exact IH].
    destruct (canPlayType v ty); [|exact IH].
    intros [= ->]. now apply find_some in E as [Hin _].
Qed.

Lemma selectMediaFile_none v files : selectMediaFile v files = None <-> files = [].
Proof.
  unfold selectMediaFile, Select.selectMediaFile, Select.preferredTypes. split.
  - intros H. destruct files as [|g files]; [reflexivity|]. exfalso.
    revert H. cbn [Select.byPreference].
    repeat match goal with
           | |- context [match ?x with _ => _ end] => destruct x
           | |- context [if ?x then _ else _] => destruct x
           end; discriminate.
  - intros ->. reflexivity.
Qed.

(** X8.  [selectMediaFile] returns [null] only for an empty
    list, and what it returns is one of the files.  It returns the first
    MP4 file when there is one and the browser plays MP4; otherwise the
    first WebM file, on the same condition; otherwise the first Ogg file;
    and when none of the three types is both present and playable, the
    first file of the list, whatever it is. *)
Theorem selectMediaFile_choice v files :
  (selectMediaFile v files = None <-> files = []) /\
  (forall f, selectMediaFile v files = Some f -> In f files) /\
  (playable v files "video/mp4" ->
   exists f, selectMediaFile v files = Some f /\ VASTParser.type f = Some "video/mp4" /\
             List.find (Select.has_type VASTParser.get "video/mp4") files = Some f) /\
  (~ playable v files "video/mp4" -> playable v files "video/webm" ->
   exists f, selectMediaFile v files = Some f /\ VASTParser.type f = Some "video/webm" /\
             List.find (Select.has_type VASTParser.get "video/webm") files = Some f) /\
  (~ playable v files "video/mp4" -> ~ playable v files "video/webm" ->
   playable v files "video/ogg" ->
   exists f, selectMediaFile v files = Some f /\ VASTParser.type f = Some "video/ogg" /\
             List.find (Select.has_type VASTParser.get "video/ogg") files = Some f) /\
  (~ playable v files "video/mp4" -> ~ playable v files "video/webm" ->
   ~ playable v files "video/ogg" -> selectMediaFile v files = head files).
Proof.
  unfold selectMediaFile, Select.selectMediaFile, Select.preferredTypes.
  pose proof (byPreference_tier v "video/mp4" ["video/webm"; "video/ogg"] files) as [A1 B1].
  pose proof (byPreference_tier v "video/webm" ["video/ogg"] files) as [A2 B2].
  pose proof (byPreference_tier v "video/ogg" [] files) as [A3 B3].
  split; [|split; [|split; [|split; [|split]]]].
  - apply selectMediaFile_none.
  - intros f. apply byPreference_in.
  - intros H. destruct (A1 H) as (f & Hf & Hty & Hs). now exists f.
  - intros N1 H. rewrite (B1 N1). destruct (A2 H) as (f & Hf & Hty & Hs). now exists f.
  - intros N1 N2 H. rewrite (B1 N1), (B2 N2).
    destruct (A3 H) as (f & Hf & Hty & Hs). now exists f.
  - intros N1 N2 N3. now rewrite (B1 N1), (B2 N2), (B3 N3).
Qed.

(** X9.  [loadAd] succeeds exactly when the first inline ad of
    the document has a linear creative whose first one has a media file.
    When it fails it has set no source and fired no impression: its only
    effect is one [error] entry in the event log; but it has already
    replaced the catalog and cleared the flags, and the listeners of a
    previous ad stay as they were.  When it succeeds the first effect is
    the new source of the video, and the impressions are handed to the
    tracker. *)
Theorem loadAd_outcome a v d t s :
  (snd (loadAd a v d t s) = true <->
   exists title cs mfs ct,
     findInline d = Some (title, cs) /\ findLinear cs = Some (mfs, ct) /\ mfs <> []) /\
  (snd (loadAd a v d t s) = false ->
   requested (snd (fst (loadAd a v d t s))) = [] /\
   (exists e, snd (fst (loadAd a v d t s)) = [Notify e] /\ le_type e = "error") /\
   world (fst (fst (loadAd a v d t s))) = world s /\
   listening (player (fst (fst (loadAd a v d t s)))) = listening (player s) /\
   trackingURLs (player (fst (fst (loadAd a v d t s)))) = Some t /\
   quartilesFired (player (fst (fst (loadAd a v d t s)))) = noneFired) /\
  (snd (loadAd a v d t s) = true ->
   (exists mf rest, snd (fst (loadAd a v d t s)) = SetSrc (VASTParser.url mf) :: rest /\
                    In (Fire Impressions) rest) /\
   listening (player (fst (fst (loadAd a v d t s)))) = true /\
   trackingURLs (player (fst (fst (loadAd a v d t s)))) = Some t /\
   quartilesFired (player (fst (fst (loadAd a v d t s)))) = noneFired).
Proof.
  unfold loadAd.
  destruct (findInline d) as [[title cs]|].
  2:{ split; [|split]; cbn.
      - split; [discriminate | intros (? & ? & ? & ? & H & _); discriminate H].
      - intros _. repeat split. eexists. split; reflexivity.
      - discriminate. }
  destruct (findLinear cs) as [[mfs ct]|] eqn:El.
  2:{ split; [|split]; cbn.
      - split; [discriminate | intros (? & ? & ? & ? & [= <- <-] & H & _); congruence].
      - intros _. repeat split. eexists. split; reflexivity.
      - discriminate. }
  pose proof (selectMediaFile_none v mfs) as Hnone.
  destruct (selectMediaFile v mfs) as [mf|] eqn:Hsel.
  - unfold logEvent. cbn -[Tracker.fireImpressions].
    destruct (Tracker.fireImpressions _ _ _ _) as [w issued]. cbn [fst snd].
    split; [|split].
    + split; intros H; [|reflexivity]. exists title, cs, mfs, ct.
      split; [reflexivity|]. split; [exact El|].
      intros ->. now destruct (proj2 Hnone eq_refl).
    + discriminate.
    + intros _. cbn. repeat split. exists mf. eexists. split; [reflexivity|].
      right. now left.
  - pose proof (proj1 Hnone eq_refl) as ->. split; [|split]; cbn.
    + split; [discriminate|]. intros (? & ? & ? & ? & [= <- <-] & H1 & H).
      rewrite El in H1. injection H1 as <- <-. now destruct H.
    + intros _. repeat split. eexists. split; reflexivity.
    + discriminate.
Qed.

Lemma notified_app a b : notified (a ++ b) = notified a ++ notified b.
Proof. unfold notified. now rewrite flat_map_app. Qed.

Lemma notified_requests l : notified (map Request l) = [].
Proof. induction l; [reflexivity | exact IHl]. Qed.

Ltac note_norm :=
  cbn [fst snd player with_player eventLog set_fired]; unfold notified;
  repeat first [rewrite flat_map_app | progress (cbn [flat_map app])];
  repeat match goal with
         | |- context [flat_map ?f (map Request ?l)] =>
           change (flat_map f (map Request l)) with (notified (map Request l));
           rewrite (notified_requests l)
         end;
  cbn [app]; rewrite ?app_nil_r, <- ?app_assoc; try reflexivity.

Lemma fireEvent_log a v ev mark msg s :
  eventLog (player (fst (fireEvent a v ev mark msg s)))
  = eventLog (player s) ++ notified (snd (fireEvent a v ev mark msg s)).
Proof.
  unfold fireEvent. destruct (trackingURLs (player s)) as [t|]; [|note_norm].
  destruct (Tracker.fireEventTrackers _ _ _ _ _) as [w issued].
  destruct msg as [m|]; unfold logEvent; note_norm.
Qed.

Lemma logged_fire_log a v ty msg ev mark m s :
  eventLog (player (fst (let '(s1, fx1) := logEvent a v ty msg s in
                         let '(s2, fx2) := fireEvent a v ev mark m s1 in
                         (s2, fx1 ++ fx2))))
  = eventLog (player s) ++
    notified (snd (let '(s1, fx1) := logEvent a v ty msg s in
                   let '(s2, fx2) := fireEvent a v ev mark m s1 in
                   (s2, fx1 ++ fx2))).
Proof.
  destruct (logEvent a v ty msg s) as [s1 fx1] eqn:E1.
  pose proof (fireEvent_log a v ev mark m s1) as H.
  destruct (fireEvent a v ev mark m s1) as [s2 fx2].
  unfold logEvent in E1. injection E1 as <- <-. cbn [fst snd] in *.
  rewrite H, notified_app. note_norm.
Qed.

Lemma handler_log e a v s :
  eventLog (player (fst (handler e a v s)))
  = eventLog (player s) ++ notified (snd (handler e a v s)).
Proof.
  destruct e; cbn [handler].
  - unfold onLoadedMetadata, logEvent. note_norm.
  - unfold onPlay.
    pose proof (logged_fire_log a v "play" (Text "Video started playing") "start"
      (fun q => {| start := true; firstQuartile := firstQuartile q;
                   midpoint := midpoint q; thirdQuartile := thirdQuartile q;
                   complete := complete q |}) (Some "Fired start tracking") s) as H.
    unfold logEvent in H |- *. cbn [player with_player quartilesFired] in H |- *.
    destruct (start (quartilesFired (player s))); cbn [negb]; [note_norm | exact H].
  - unfold onPause. destruct (ended v); cbn [negb]; [note_norm|].
    apply logged_fire_log.
  - unfold onEnded.
    pose proof (logged_fire_log a v "ended" (Text "Video completed") "complete"
      (fun q => {| start := start q; firstQuartile := firstQuartile q;
                   midpoint := midpoint q; thirdQuartile := thirdQuartile q;
                   complete := true |}) (Some "Fired complete tracking") s) as H.
    unfold logEvent in H |- *. cbn [player with_player quartilesFired] in H |- *.
    destruct (complete (quartilesFired (player s))); cbn [negb]; [note_norm | exact H].
  - unfold onError, logEvent. cbn [player with_player trackingURLs world].
    destruct (trackingURLs (player s)) as [t|]; [|note_norm].
    destruct (Tracker.fireAll _ _ _ _ _) as [w issued].
    destruct (VASTParser.errors t); note_norm.
  - unfold onTimeUpdate.
    destruct (Double.falsy (duration v)); [note_norm|]. cbv zeta.
    repeat match goal with
           | |- context [if ?b then _ else _] => destruct b
           end; try apply fireEvent_log. note_norm.
  - unfold onVolumeChange. destruct (muted v); apply logged_fire_log.
  - unfold onClick, logEvent. cbn [player with_player trackingURLs world vastData].
    destruct (trackingURLs (player s)) as [t|]; [|note_norm].
    destruct (vastData (player s)) as [d|]; [|note_norm].
    destruct (Tracker.fireClicks _ _ _ _) as [w issued]. note_norm.
    destruct (findInline d) as [[title creatives]|]; [|reflexivity].
    destruct (findLinear creatives) as [[mf [u|]]|]; try reflexivity.
    destruct (String.eqb u ""); reflexivity.
Qed.

Lemma step_log k s :
  eventLog (player (fst (step k s)))
  = eventLog (player s) ++ notified (snd (step k s)).
Proof.
  unfold step. destruct (event k) as [d t| |e|i o].
  - unfold loadAd.
    destruct (findInline d) as [[title cs]|]; [|unfold logEvent; note_norm].
    destruct (findLinear cs) as [[mfs ct]|]; [|unfold logEvent; note_norm].
    destruct (selectMediaFile (video k) mfs) as [mf|]; [|unfold logEvent; note_norm].
    unfold logEvent. cbn -[Tracker.fireImpressions].
    destruct (Tracker.fireImpressions _ _ _ _) as [w issued]. note_norm.
  - unfold clearAll, reset. note_norm.
  - destruct (listening (player s)); [apply handler_log | note_norm].
  - note_norm.
Qed.

(** X10.  The event log of the player only grows: after any run it
    is the log from before followed by the entries the run dispatched to
    the page, in order.  Neither [reset] nor [clearAll] removes an entry
    (only [destroy] empties the log). *)
Theorem eventLog_keeps_every_entry ks : forall s,
  eventLog (player (fst (run ks s)))
  = eventLog (player s) ++ notified (snd (run ks s)).
Proof.
  induction ks as [|k ks IH]; intros s; cbn [run].
  - cbn. now rewrite app_nil_r.
  - pose proof (step_log k s) as H1.
    destruct (step k s) as [s1 fx1]. specialize (IH s1).
    destruct (run ks s1) as [s2 fx2]. cbn [fst snd] in *.
    rewrite IH, H1, notified_app. now rewrite app_assoc.
Qed.

End PlayerProperties.

(** ** The bridge *)

Section BridgeProperties.

Import SIMIDBridge.

Lemma find_existsb {A} (f : A -> bool) l :
  existsb f l = match List.find f l with Some _ => true | None => false end.
Proof.
  induction l as [|x l IH]; [reflexivity|]. cbn. destruct (f x); [reflexivity | exact IH].
Qed.

Lemma posts_resolve amb (b : Bridge) replyTo value :
  posts (sendResolve amb b replyTo value) =
    if creative b
    then [ {| o_sessionId := sessionId b; o_messageId := messageId amb;
              o_type := "resolve"; o_timestamp := now amb;
              o_replyTo := replyTo; o_value := value |} ]
    else [].
Proof. unfold sendResolve, sendMessage. now destruct (creative b). Qed.

Lemma posts_app a b : posts (a ++ b) = posts a ++ posts b.
Proof. unfold posts. now rewrite flat_map_app. Qed.

Lemma posts_tracking l : posts (map SendTracking l) = [].
Proof. induction l; [reflexivity | exact IHl]. Qed.

(** What a handler of the table posts and does to the bridge: one
    [resolve] for the message, unless it throws. *)
Lemma handler_posts ty h amb v m b :
  messageHandlers ty = Some h ->
  (exists value,
     posts (snd (h amb v m b)) =
       if creative b
       then [ {| o_sessionId := sessionId b; o_messageId := messageId amb;
                 o_type := "resolve"; o_timestamp := now amb;
                 o_replyTo := m_messageId m; o_value := value |} ]
       else []) \/
  (ty = "Creative.requestSkip" /\ declaresComplete b = true /\
   snd (h amb v m b) = [Throw]).
Proof.
  unfold messageHandlers.
  repeat match goal with
         | |- context [String.eqb ty ?lit] => destruct (String.eqb_spec ty lit) as [->|?]
         end; try discriminate; intros [= <-].
  - left. exists Nothing. unfold handleCreativeLoaded. cbn [snd].
    rewrite posts_resolve. reflexivity.
  - left. eexists. unfold handleInit. cbn [snd]. now rewrite posts_resolve.
  - left. eexists. unfold handleStart. cbn [snd]. now rewrite posts_resolve.
  - left. eexists. unfold handleStop. cbn [snd]. now rewrite posts_resolve.
  - left. eexists. unfold handleSkip. cbn [snd]. now rewrite posts_resolve.
  - left. eexists. unfold handleFatal. cbn [snd]. now rewrite posts_resolve.
  - left. eexists. unfold handleReportTracking. cbn [snd].
    now rewrite posts_app, posts_tracking, posts_resolve.
  - left. eexists. unfold handleRequestChangeVolume. cbn [snd].
    rewrite posts_app, posts_resolve.
    destruct (m_args m) as [[tu [x|]]|]; try reflexivity.
    destruct (Qle_bool 0 x && Qle_bool x 1); reflexivity.
  - left. eexists. unfold handleRequestPause. cbn [snd].
    change (PauseVideo :: ?l) with ([PauseVideo] ++ l).
    now rewrite posts_app, posts_resolve.
  - left. eexists. unfold handleRequestPlay. cbn [snd].
    change (PlayVideo :: ?l) with ([PlayVideo] ++ l).
    now rewrite posts_app, posts_resolve.
  - unfold handleRequestSkip, declaresComplete.
    destruct (trackingURLs b) as [l|].
    + rewrite find_existsb. destruct (List.find _ l).
      * right. repeat split.
      * left. eexists. cbn [snd]. now rewrite posts_resolve.
    + left. eexists. cbn [snd]. now rewrite posts_resolve.
  - left. eexists. unfold handleGetMediaState. cbn [snd]. now rewrite posts_resolve.
Qed.

Lemma handler_bridge ty h amb v m b :
  messageHandlers ty = Some h ->
  fst (h amb v m b) = b \/
  (ty = "Session.creativeLoaded" /\ fst (h amb v m b) = set_initialized b).
Proof.
  unfold messageHandlers.
  repeat match goal with
         | |- context [String.eqb ty ?lit] => destruct (String.eqb_spec ty lit) as [->|?]
         end; try discriminate; intros [= <-];
    try (left; reflexivity).
  - right. split; reflexivity.
  - left. unfold handleRequestSkip. destruct (trackingURLs b) as [l|]; [|reflexivity].
    destruct (List.find _ l); reflexivity.
Qed.

Lemma handled_type ty :
  In ty handledTypes -> exists h, messageHandlers ty = Some h.
Proof.
  unfold handledTypes. cbn [In]. intros H.
  repeat (destruct H as [<-|H]; [eexists; reflexivity|]). destruct H.
Qed.

Lemma own_not_foreign (b : Bridge) m ty :
  sessionId b <> "" -> m_sessionId m = JS.VString (sessionId b) ->
  m_type m = JS.VString ty -> ty <> "" -> foreign b m = false.
Proof.
  intros Hb Hs Ht Hty. unfold foreign. rewrite Hs, Ht. cbn.
  rewrite String.eqb_refl.
  destruct (String.eqb_spec ty ""); [contradiction|].
  destruct (String.eqb_spec (sessionId b) ""); [contradiction|]. reflexivity.
Qed.

Lemma handled_nonempty ty : In ty handledTypes -> ty <> "".
Proof.
  unfold handledTypes. cbn [In]. intros H.
  repeat (destruct H as [<-|H]; [discriminate|]). destruct H.
Qed.

(** X11.  A message of the bridge's own session whose type is one
    of the twelve keys of the handler table is dispatched to its handler,
    and once the creative window is set the creative gets exactly one
    message back: a [resolve] with the bridge's session id that names the
    [messageId] of the request, whether the request came as an object or
    as JSON text.  (The one exception, a skip request with a [complete]
    tracker declared, is excluded here.) *)
Theorem handled_message_acknowledged parse amb v (b : Bridge) m ty d :
  sessionId b <> "" -> creative b = true ->
  m_sessionId m = JS.VString (sessionId b) ->
  m_type m = JS.VString ty -> In ty handledTypes ->
  (ty = "Creative.requestSkip" -> declaresComplete b = false) ->
  (d = ObjectData m \/ exists s, d = TextData s /\ parse s = ParsedObject m) ->
  snd (onMessage parse amb v d b) = Handled ty /\
  exists value,
    posts (snd (fst (onMessage parse amb v d b))) =
      [ {| o_sessionId := sessionId b; o_messageId := messageId amb;
           o_type := "resolve"; o_timestamp := now amb;
           o_replyTo := m_messageId m; o_value := value |} ].
Proof.
  intros Hb Hc Hs Ht Hty Hskip Hd.
  pose proof (own_not_foreign b m ty Hb Hs Ht (handled_nonempty ty Hty)) as Hf.
  destruct (handled_type ty Hty) as [h Hh].
  assert (Hon : onMessage parse amb v d b =
                let '(b', fx) := h amb v m b in (b', fx, Handled ty)).
  { destruct Hd as [-> | (s & -> & Hp)]; cbn [onMessage]; rewrite ?Hp, Hf, Ht;
      cbn [JS.toString]; now rewrite Hh. }
  rewrite Hon.
  destruct (handler_posts ty h amb v m b Hh) as [(value & Hv) | (-> & Hdc & _)].
  - destruct (h amb v m b) as [b' fx]. cbn [fst snd] in *. split; [reflexivity|].
    exists value. now rewrite Hv, Hc.
  - rewrite (Hskip eq_refl) in Hdc. discriminate.
Qed.

Lemma handled_message_acknowledged_witness :
  SIMIDBridge.sessionId Sample.bridge <> "" /\
  snd (onMessage (fun _ => SyntaxError) Sample.bridgeAmbient Sample.media
         (ObjectData (Sample.ownMessage "Creative.getMediaState" None)) Sample.bridge)
    = Handled "Creative.getMediaState" /\
  exists value,
    posts (snd (fst (onMessage (fun _ => SyntaxError) Sample.bridgeAmbient Sample.media
                       (ObjectData (Sample.ownMessage "Creative.getMediaState" None))
                       Sample.bridge))) =
      [ {| o_sessionId := sessionId Sample.bridge;
           o_messageId := messageId Sample.bridgeAmbient;
           o_type := "resolve"; o_timestamp := now Sample.bridgeAmbient;
           o_replyTo := m_messageId (Sample.ownMessage "Creative.getMediaState" None);
           o_value := value |} ].
Proof.
  assert (H : SIMIDBridge.sessionId Sample.bridge <> "") by discriminate.
  split; [exact H|].
  apply (handled_message_acknowledged (fun _ => SyntaxError) Sample.bridgeAmbient Sample.media Sample.bridge
           (Sample.ownMessage "Creative.getMediaState" None) "Creative.getMediaState"
           (ObjectData (Sample.ownMessage "Creative.getMediaState" None)) H);
    [reflexivity | reflexivity | reflexivity | cbn; tauto
    | intros H0; discriminate H0 | now left].
Defined.

(** X12.  A skip request of the bridge's own session, with a
    [complete] tracker declared in the catalog: the handler calls
    [tracker.fireTracking], which the tracker does not have, so it throws
    before anything else happens: no tracking request is sent for
    [complete], and the request is not acknowledged.  Without a
    [complete] tracker the request is acknowledged and nothing else is
    done. *)
Theorem skip_request_fires_nothing parse amb v (b : Bridge) m d :
  sessionId b <> "" ->
  m_sessionId m = JS.VString (sessionId b) ->
  m_type m = JS.VString "Creative.requestSkip" ->
  (d = ObjectData m \/ exists s, d = TextData s /\ parse s = ParsedObject m) ->
  onMessage parse amb v d b =
    (b, if declaresComplete b then [Throw]
        else sendResolve amb b (m_messageId m) Nothing,
     Handled "Creative.requestSkip").
Proof.
  intros Hb Hs Ht Hd.
  pose proof (own_not_foreign b m _ Hb Hs Ht ltac:(discriminate)) as Hf.
  assert (Hon : onMessage parse amb v d b =
                let '(b', fx) := handleRequestSkip amb v m b in
                (b', fx, Handled "Creative.requestSkip")).
  { destruct Hd as [-> | (s & -> & Hp)]; cbn [onMessage]; rewrite ?Hp, Hf, Ht;
      reflexivity. }
  rewrite Hon. unfold handleRequestSkip, declaresComplete.
  destruct (trackingURLs b) as [l|]; [|reflexivity].
  rewrite find_existsb. destruct (List.find _ l); reflexivity.
Qed.

Lemma skip_request_fires_nothing_witness :
  SIMIDBridge.sessionId Sample.bridgeWithCatalog <> "" /\
  onMessage (fun _ => SyntaxError) Sample.bridgeAmbient Sample.media
    (ObjectData (Sample.ownMessage "Creative.requestSkip" None)) Sample.bridgeWithCatalog
  = (Sample.bridgeWithCatalog,
     if declaresComplete Sample.bridgeWithCatalog then [Throw]
     else sendResolve Sample.bridgeAmbient Sample.bridgeWithCatalog
            (m_messageId (Sample.ownMessage "Creative.requestSkip" None)) Nothing,
     Handled "Creative.requestSkip").
Proof.
  assert (H : SIMIDBridge.sessionId Sample.bridgeWithCatalog <> "") by discriminate.
  split; [exact H|].
  apply (skip_request_fires_nothing (fun _ => SyntaxError) Sample.bridgeAmbient Sample.media
           Sample.bridgeWithCatalog (Sample.ownMessage "Creative.requestSkip" None)
           (ObjectData (Sample.ownMessage "Creative.requestSkip" None)) H);
    [reflexivity | reflexivity | now left].
Defined.

(** The sample catalog declares a [complete] tracker. *)
Lemma sample_declares_complete : declaresComplete Sample.bridgeWithCatalog = true.
Proof. reflexivity. Qed.

(** X13.  Whatever arrives, the bridge posts at most one
    message, and only once the creative window is set; what it posts is a
    [resolve] with its own session id (never a [reject]); and the only
    change a message can make to the bridge is to set [isInitialized],
    which a [Session.creativeLoaded] of its own session does. *)
Theorem bridge_posts_resolve_only parse amb v d (b : Bridge) :
  (posts (snd (fst (onMessage parse amb v d b))) = [] \/
   exists replyTo value,
     creative b = true /\
     posts (snd (fst (onMessage parse amb v d b))) =
       [ {| o_sessionId := sessionId b; o_messageId := messageId amb;
            o_type := "resolve"; o_timestamp := now amb;
            o_replyTo := replyTo; o_value := value |} ]) /\
  (fst (fst (onMessage parse amb v d b)) = b \/
   fst (fst (onMessage parse amb v d b)) = set_initialized b /\
   snd (onMessage parse amb v d b) = Handled "Session.creativeLoaded").
Proof.
  assert (Hroute : forall m,
    let r := if foreign b m then (b, [], Ignored)
             else match messageHandlers (JS.toString (m_type m)) with
                  | Some h => let '(b', fx) := h amb v m b in
                              (b', fx, Handled (JS.toString (m_type m)))
                  | None =>
                    if existsb (String.eqb (JS.toString (m_type m))) inheritedKeys
                    then (b, [], Inherited) else (b, [], Unhandled)
                  end in
    (posts (snd (fst r)) = [] \/
     exists replyTo value,
       creative b = true /\
       posts (snd (fst r)) =
         [ {| o_sessionId := sessionId b; o_messageId := messageId amb;
              o_type := "resolve"; o_timestamp := now amb;
              o_replyTo := replyTo; o_value := value |} ]) /\
    (fst (fst r) = b \/
     fst (fst r) = set_initialized b /\ snd r = Handled "Session.creativeLoaded")).
  { intros m. cbv zeta. destruct (foreign b m); [split; now left|].
    destruct (messageHandlers (JS.toString (m_type m))) as [h|] eqn:Hh.
    - pose proof (handler_posts _ h amb v m b Hh) as Hp.
      pose proof (handler_bridge _ h amb v m b Hh) as Hbr.
      destruct (h amb v m b) as [b' fx]. cbn [fst snd] in *. split.
      + destruct Hp as [(value & Hv) | (_ & _ & ->)]; [|now left].
        destruct (creative b) eqn:Hc; [right | now left].
        exists (m_messageId m), value. now split.
      + destruct Hbr as [-> | (-> & ->)]; [now left | right; now split].
    - destruct (existsb _ inheritedKeys); split; now left. }
  unfold onMessage. destruct d as [|s|m|]; try (split; now left).
  - destruct (parse s) as [| | |m]; try (split; now left). apply Hroute.
  - apply Hroute.
Qed.

(** X14.  A volume request of the bridge's own session sets the
    volume of the video exactly when the requested volume is a number
    between 0 and 1, both included; a request outside that range, or with
    no number, changes nothing, and is acknowledged all the same. *)
Theorem volume_request_within_bounds parse amb v (b : Bridge) m d :
  sessionId b <> "" ->
  m_sessionId m = JS.VString (sessionId b) ->
  m_type m = JS.VString "Creative.requestChangeVolume" ->
  (d = ObjectData m \/ exists s, d = TextData s /\ parse s = ParsedObject m) ->
  (forall x, In (SetVolume x) (snd (fst (onMessage parse amb v d b))) <->
             (exists tu, m_args m = Some {| trackingUrls := tu; arg_volume := Some x |}) /\
             (0 <= x)%Q /\ (x <= 1)%Q) /\
  posts (snd (fst (onMessage parse amb v d b)))
    = posts (sendResolve amb b (m_messageId m) Nothing) /\
  fst (fst (onMessage parse amb v d b)) = b.
Proof.
  intros Hb Hs Ht Hd.
  pose proof (own_not_foreign b m _ Hb Hs Ht ltac:(discriminate)) as Hf.
  assert (Hon : onMessage parse amb v d b =
                let '(b', fx) := handleRequestChangeVolume amb v m b in
                (b', fx, Handled "Creative.requestChangeVolume")).
  { destruct Hd as [-> | (s & -> & Hp)]; cbn [onMessage]; rewrite ?Hp, Hf, Ht;
      reflexivity. }
  rewrite Hon. unfold handleRequestChangeVolume. cbn [fst snd].
  assert (Hno : forall x, ~ In (SetVolume x) (sendResolve amb b (m_messageId m) Nothing)).
  { intros x. unfold sendResolve, sendMessage.
    destruct (creative b); cbn; [intros [H|[]]; discriminate H | intros []]. }
  split; [|split; [|reflexivity]].
  - intros x. rewrite in_app_iff.
    destruct (m_args m) as [[tu [y|]]|].
    + destruct (Qle_bool 0 y && Qle_bool y 1) eqn:E.
      * apply andb_true_iff in E as [E1 E2]. apply Qle_bool_iff in E1, E2. split.
        -- intros [[H|[]] | H]; [|now apply Hno in H]. injection H as <-.
           split; [now exists tu | now split].
        -- intros [(tu' & [= _ <-]) _]. left. now left.
      * split.
        -- intros [[] | H]. now apply Hno in H.
        -- intros [(tu' & [= _ <-]) [H1 H2]]. apply Qle_bool_iff in H1, H2.
           rewrite H1, H2 in E. discriminate.
    + split; [intros [[] | H]; now apply Hno in H | intros [(tu' & H) _]; discriminate].
    + split; [intros [[] | H]; now apply Hno in H | intros [(tu' & H) _]; discriminate].
  - rewrite posts_app.
    destruct (m_args m) as [[tu [y|]]|]; try reflexivity.
    destruct (Qle_bool 0 y && Qle_bool y 1); reflexivity.
Qed.

Lemma volume_request_within_bounds_witness :
  SIMIDBridge.sessionId Sample.bridge <> "" /\
  (forall x, In (SetVolume x)
               (snd (fst (onMessage (fun _ => SyntaxError) Sample.bridgeAmbient Sample.media
                            (ObjectData Sample.volumeRequest) Sample.bridge))) <->
             (exists tu, m_args Sample.volumeRequest
                         = Some {| trackingUrls := tu; arg_volume := Some x |}) /\
             (0 <= x)%Q /\ (x <= 1)%Q) /\
  In (SetVolume (1 # 2))
     (snd (fst (onMessage (fun _ => SyntaxError) Sample.bridgeAmbient Sample.media
                  (ObjectData Sample.volumeRequest) Sample.bridge))).
Proof.
  assert (H : SIMIDBridge.sessionId Sample.bridge <> "") by discriminate.
  split; [exact H|].
  destruct (volume_request_within_bounds (fun _ => SyntaxError) Sample.bridgeAmbient
              Sample.media Sample.bridge Sample.volumeRequest
              (ObjectData Sample.volumeRequest) H eq_refl eq_refl
              (or_introl eq_refl)) as (Hv & _ & _).
  split; [exact Hv|]. now left.
Defined.

End BridgeProperties.

(** ** The parser *)

Section ParserProperties.

Import DOM VAST.

Lemma append_empty t : append t noTracking = t.
Proof. destruct t. unfold append. cbn. now rewrite !app_nil_r. Qed.

Lemma catalog_append_assoc a b c : append (append a b) c = append a (append b c).
Proof. unfold append. cbn. now rewrite <- !app_assoc. Qed.

Lemma append_catalogOf t i c r e :
  append t (catalogOf i c r e) =
    catalogOf (VASTParser.impressions t ++ i) (VASTParser.clicks t ++ c)
              (VASTParser.tracking t ++ r) (VASTParser.errors t ++ e).
Proof. reflexivity. Qed.

Lemma catalogOf_eta t :
  t = catalogOf (VASTParser.impressions t) (VASTParser.clicks t)
                (VASTParser.tracking t) (VASTParser.errors t).
Proof. now destruct t. Qed.

Lemma fold_eachImpression l : forall acc t,
  fold_left eachImpression l (acc, t) =
    (acc ++ map VideoPlayer.impressionURLOf (impressionEntries l),
     append t (catalogOf (impressionEntries l) [] [] [])).
Proof.
  induction l as [|n l IH]; intros acc t; cbn [fold_left].
  - cbn -[append]. rewrite app_nil_r.
    change (catalogOf [] [] [] []) with noTracking. now rewrite append_empty.
  - unfold eachImpression at 2. unfold impressionEntries. cbn [fst snd flat_map].
    fold (impressionEntries l).
    destruct (String.eqb (text n) ""); [apply IH|].
    rewrite IH. cbn [app map VideoPlayer.impressionURLOf].
    f_equal; [now rewrite <- app_assoc|].
    unfold append, pushImpression, catalogOf. cbn.
    now rewrite <- !app_assoc, !app_nil_r.
Qed.

Lemma fold_eachError l : forall t,
  fold_left eachError l t = append t (catalogOf [] [] [] (texts l)).
Proof.
  induction l as [|n l IH]; intros t; cbn [fold_left].
  - cbn -[append]. change (catalogOf [] [] [] []) with noTracking.
    now rewrite append_empty.
  - unfold eachError at 2. unfold texts. cbn [map List.filter]. fold (texts l).
    destruct (String.eqb (text n) ""); cbn [negb]; [apply IH|].
    rewrite IH. unfold append, pushError, catalogOf. cbn.
    now rewrite <- !app_assoc, !app_nil_r.
Qed.

Lemma fold_eachClickTracking l : forall acc t,
  fold_left eachClickTracking l (acc, t) =
    (acc ++ texts l,
     append t (catalogOf [] (map (Tracker.ClickObject "clickTracking") (texts l)) [] [])).
Proof.
  induction l as [|n l IH]; intros acc t; cbn [fold_left].
  - cbn -[append]. rewrite app_nil_r.
    change (catalogOf [] [] [] []) with noTracking. now rewrite append_empty.
  - unfold eachClickTracking at 2. unfold texts. cbn [fst snd map List.filter].
    fold (texts l).
    destruct (String.eqb (text n) ""); cbn [negb]; [apply IH|].
    rewrite IH. cbn [map]. f_equal; [now rewrite <- app_assoc|].
    unfold append, pushClick, catalogOf. cbn.
    now rewrite <- !app_assoc, !app_nil_r.
Qed.

Lemma fold_eachTracking l : forall acc t,
  fold_left eachTracking l (acc, t) =
    (acc ++ trackingEntries l,
     append t (catalogOf [] []
                 (map (fun e => {| Tracker.et_event := event e; Tracker.et_url := url e |})
                      (trackingEntries l)) [])).
Proof.
  induction l as [|n l IH]; intros acc t; cbn [fold_left].
  - cbn -[append]. rewrite app_nil_r.
    change (catalogOf [] [] [] []) with noTracking. now rewrite append_empty.
  - unfold eachTracking at 2. unfold trackingEntries. cbn [fst snd flat_map].
    fold (trackingEntries l).
    destruct (VASTParser.or_null (getAttribute "event" n)) as [ev|]; [|apply IH].
    destruct (String.eqb (text n) ""); [apply IH|].
    rewrite IH. cbn [app map event url]. f_equal; [now rewrite <- app_assoc|].
    unfold append, pushTracking, catalogOf. cbn.
    now rewrite <- !app_assoc, !app_nil_r.
Qed.

(** [parseLinear] adds to the catalog what the data it returns stands
    for, and the data does not depend on the catalog. *)
Lemma parseLinear_append n t :
  parseLinear n t =
    (fst (parseLinear n noTracking),
     append t (linearCatalog (fst (parseLinear n noTracking)))).
Proof.
  unfold parseLinear.
  destruct (querySelector "VideoClicks" n) as [vc|].
  - destruct (querySelector "ClickThrough" vc) as [ct|];
      rewrite !fold_eachClickTracking; rewrite !fold_eachTracking; cbn [fst snd app];
      f_equal; unfold linearCatalog, linearClicks, linearTracking, append, pushClick,
                      catalogOf, noTracking; cbn;
      now rewrite <- ?app_assoc, ?app_nil_r.
  - rewrite !fold_eachTracking. cbn [fst snd app]. reflexivity.
Qed.

Lemma parseCreative_append n t :
  parseCreative n t =
    (fst (parseCreative n noTracking),
     append t (creativeCatalog (fst (parseCreative n noTracking)))).
Proof.
  unfold parseCreative.
  destruct (querySelector "Linear" n) as [l|].
  - rewrite (parseLinear_append l t), (parseLinear_append l noTracking).
    cbn [fst snd]. f_equal.
  - destruct (querySelector "NonLinearAds" n);
      [|destruct (querySelector "CompanionAds" n)];
      cbn [fst snd]; unfold creativeCatalog; cbn; now rewrite (append_empty t).
Qed.

Lemma append_empty_l t : append noTracking t = t.
Proof. now destruct t. Qed.

Lemma creativeCatalog_parse n :
  snd (parseCreative n noTracking) = creativeCatalog (fst (parseCreative n noTracking)).
Proof. rewrite parseCreative_append. cbn [snd]. apply append_empty_l. Qed.

Lemma wellFormed_append a b : wellFormed a -> wellFormed b -> wellFormed (append a b).
Proof.
  intros (A1 & A2 & A3 & A4) (B1 & B2 & B3 & B4). unfold wellFormed, append. cbn.
  repeat split; apply Forall_app; now split.
Qed.

Lemma wellFormed_empty : wellFormed noTracking.
Proof. repeat split; constructor. Qed.

Lemma impressionEntries_urls l :
  Forall (fun i => VideoPlayer.impressionURLOf i <> "") (impressionEntries l).
Proof.
  induction l as [|n l IH]; [constructor|].
  unfold impressionEntries. cbn [flat_map]. fold (impressionEntries l).
  destruct (String.eqb_spec (text n) ""); [exact IH|].
  apply List.Forall_cons; assumption.
Qed.

Lemma texts_nonempty l : Forall (fun u => u <> "") (texts l).
Proof.
  unfold texts. apply List.Forall_forall. intros u Hu.
  apply filter_In in Hu as [_ Hu]. now destruct (String.eqb_spec u "").
Qed.

Lemma or_null_nonempty x s : VASTParser.or_null x = Some s -> s <> "".
Proof.
  destruct x as [y|]; [|discriminate]. cbn.
  destruct (String.eqb_spec y ""); [discriminate|]. now intros [= <-].
Qed.

Lemma trackingEntries_nonempty l :
  Forall (fun e => event e <> "" /\ url e <> "") (trackingEntries l).
Proof.
  induction l as [|n l IH]; [constructor|].
  unfold trackingEntries. cbn [flat_map]. fold (trackingEntries l).
  destruct (VASTParser.or_null (getAttribute "event" n)) as [ev|] eqn:E; [|exact IH].
  destruct (String.eqb_spec (text n) ""); [exact IH|].
  apply List.Forall_cons; [|exact IH]. split; [|assumption].
  now apply or_null_nonempty in E.
Qed.

(** The catalog entries of a parsed linear creative are well formed. *)
Lemma parseLinear_wellFormed n :
  wellFormed (linearCatalog (fst (parseLinear n noTracking))).
Proof.
  unfold parseLinear.
  assert (Ht : forall acc t,
            Forall (fun e => Tracker.et_event e <> "" /\ Tracker.et_url e <> "")
              (linearTracking
                 {| duration := getElementText n "Duration";
                    skipoffset := VASTParser.or_null (getAttribute "skipoffset" n);
                    mediaFiles := acc; videoClicks := t;
                    trackingEvents := [] ++ trackingEntries (querySelectorAll "Tracking" n) |})).
  { intros acc t. unfold linearTracking. cbn [trackingEvents app].
    apply List.Forall_forall. intros e He. apply in_map_iff in He as (x & <- & Hx).
    cbn. revert x Hx. apply List.Forall_forall, trackingEntries_nonempty. }
  destruct (querySelector "VideoClicks" n) as [vc|].
  - assert (Hc : Forall (fun c => exists u, c = Tracker.ClickObject "clickThrough" u \/
                                  c = Tracker.ClickObject "clickTracking" u /\ u <> "")
                   (map (Tracker.ClickObject "clickTracking")
                        (texts (querySelectorAll "ClickTracking" vc)))).
    { apply List.Forall_forall. intros c Hc0. apply in_map_iff in Hc0 as (u & <- & Hu).
      exists u. right. split; [reflexivity|].
      revert u Hu. apply List.Forall_forall, texts_nonempty. }
    destruct (querySelector "ClickThrough" vc) as [ct|];
      rewrite !fold_eachClickTracking, !fold_eachTracking; cbn [fst snd app];
      unfold wellFormed, linearCatalog; cbn [VASTParser.impressions VASTParser.clicks
        VASTParser.tracking VASTParser.errors];
      (split; [constructor|]); (split; [|split; [apply Ht | constructor]]);
      unfold linearClicks; cbn [videoClicks clickThrough clickTracking app].
    + apply List.Forall_cons; [|exact Hc]. eexists. now left.
    + exact Hc.
  - rewrite !fold_eachTracking. cbn [fst snd app].
    unfold wellFormed, linearCatalog. cbn [VASTParser.impressions VASTParser.clicks
        VASTParser.tracking VASTParser.errors].
    split; [constructor|]. split; [constructor|]. split; [apply Ht | constructor].
Qed.

Lemma creativeCatalog_wellFormed n :
  wellFormed (creativeCatalog (fst (parseCreative n noTracking))).
Proof.
  unfold parseCreative.
  destruct (querySelector "Linear" n) as [l|].
  - pose proof (parseLinear_wellFormed l) as H.
    destruct (parseLinear l noTracking) as [x t]. exact H.
  - destruct (querySelector "NonLinearAds" n);
      [|destruct (querySelector "CompanionAds" n)]; apply wellFormed_empty.
Qed.

Lemma creativeCatalog_linears c :
  (VASTParser.impressions (creativeCatalog c) = []) /\
  VASTParser.clicks (creativeCatalog c) = flat_map linearClicks (creativeLinears [c]) /\
  VASTParser.tracking (creativeCatalog c) = flat_map linearTracking (creativeLinears [c]) /\
  VASTParser.errors (creativeCatalog c) = [].
Proof.
  unfold creativeCatalog, creativeLinears. cbn [flat_map].
  destruct (c_data c); cbn; now rewrite ?app_nil_r.
Qed.

Lemma creativeLinears_app a b :
  creativeLinears (a ++ b) = creativeLinears a ++ creativeLinears b.
Proof. unfold creativeLinears. apply flat_map_app. Qed.

(** The loop over the creatives: the creatives do not depend on the
    catalog, and the catalog gets the clicks and the tracking events of
    their linear data. *)
Lemma fold_eachCreative l : forall acc t,
  exists cs d,
    fold_left eachCreative l (acc, t) = (acc ++ cs, append t d) /\
    cs = fst (fold_left eachCreative l ([], noTracking)) /\
    wellFormed d /\
    (VASTParser.impressions d = []) /\
    VASTParser.clicks d = flat_map linearClicks (creativeLinears cs) /\
    VASTParser.tracking d = flat_map linearTracking (creativeLinears cs) /\
    VASTParser.errors d = [].
Proof.
  induction l as [|n l IH]; intros acc t.
  - exists [], noTracking. cbn [fold_left]. rewrite app_nil_r, append_empty.
    repeat split; try reflexivity; constructor.
  - cbn [fold_left]. unfold eachCreative at 2 4. cbn [fst snd].
    rewrite (parseCreative_append n t), (parseCreative_append n noTracking).
    set (c := fst (parseCreative n noTracking)). rewrite append_empty_l.
    cbv iota beta. cbn [fst snd].
    destruct (IH (acc ++ [c]) (append t (creativeCatalog c))) as (cs & d & E & Ecs & W & D).
    destruct (IH ([] ++ [c]) (creativeCatalog c)) as (cs' & d' & E' & Ecs' & _).
    assert (cs' = cs) as -> by congruence.
    exists (c :: cs), (append (creativeCatalog c) d).
    rewrite E, E'. cbn [fst app].
    split; [f_equal; [now rewrite <- app_assoc | now rewrite catalog_append_assoc]|].
    split; [reflexivity|].
    split; [apply wellFormed_append; [apply creativeCatalog_wellFormed | exact W]|].
    destruct D as (D1 & D2 & D3 & D4).
    destruct (creativeCatalog_linears c) as (C1 & C2 & C3 & C4).
    change (c :: cs) with ([c] ++ cs). rewrite creativeLinears_app, !flat_map_app.
    unfold append. cbn [VASTParser.impressions VASTParser.clicks VASTParser.tracking
                        VASTParser.errors].
    now rewrite C1, C2, C3, C4, D1, D2, D3, D4.
Qed.

Lemma parseInLine_catalog n t :
  exists i d,
    parseInLine n t = (i, append t d) /\ wellFormed d /\
    map VideoPlayer.impressionURLOf (VASTParser.impressions d) = impressions i /\
    VASTParser.clicks d = flat_map linearClicks (creativeLinears (creatives i)) /\
    VASTParser.tracking d = flat_map linearTracking (creativeLinears (creatives i)).
Proof.
  unfold parseInLine. rewrite fold_eachImpression, fold_eachError.
  set (E := impressionEntries (querySelectorAll "Impression" n)).
  set (R := texts (querySelectorAll "Error" n)).
  destruct (fold_eachCreative (querySelectorAll "Creative" n) []
              (append (append t (catalogOf E [] [] [])) (catalogOf [] [] [] R)))
    as (cs & d & Hf & _ & W & D1 & D2 & D3 & D4).
  rewrite Hf. cbn [app].
  eexists. exists (append (catalogOf E [] [] []) (append (catalogOf [] [] [] R) d)).
  split; [now rewrite !catalog_append_assoc|].
  split.
  - apply wellFormed_append; [|apply wellFormed_append; [|exact W]].
    + repeat split; try constructor. apply impressionEntries_urls.
    + repeat split; try constructor. apply texts_nonempty.
  - unfold append. cbn [VASTParser.impressions VASTParser.clicks VASTParser.tracking
                        catalogOf impressions creatives app].
    rewrite D1, D2, D3, app_nil_r. repeat split.
Qed.

Lemma parseWrapper_catalog n t :
  exists w d,
    parseWrapper n t = (w, append t d) /\ wellFormed d /\
    map VideoPlayer.impressionURLOf (VASTParser.impressions d) = w_impressions w /\
    VASTParser.clicks d = [] /\ VASTParser.tracking d = [].
Proof.
  unfold parseWrapper. rewrite fold_eachImpression. cbn [app].
  eexists. eexists. split; [reflexivity|]. split.
  - repeat split; try constructor. apply impressionEntries_urls.
  - repeat split.
Qed.

Lemma parseAd_catalog n index t :
  exists a d,
    parseAd n index t = (a, append t d) /\ wellFormed d /\ represents [a] d /\
    (inline a = None <-> querySelector "InLine" n = None).
Proof.
  unfold parseAd, represents, adClicks, adTracking, linears, adImpressions.
  cbn [flat_map].
  destruct (querySelector "InLine" n) as [x|].
  - destruct (parseInLine_catalog x t) as (i & d & -> & W & D1 & D2 & D3).
    eexists. exists d. split; [reflexivity|]. split; [exact W|].
    cbn [inline wrapper]. rewrite !app_nil_r. repeat split; try assumption; discriminate.
  - destruct (querySelector "Wrapper" n) as [x|].
    + destruct (parseWrapper_catalog x t) as (w & d & -> & W & D1 & D2 & D3).
      eexists. exists d. split; [reflexivity|]. split; [exact W|].
      cbn [inline wrapper flat_map]. rewrite !app_nil_r. repeat split; assumption.
    + eexists. exists noTracking. rewrite append_empty.
      split; [reflexivity|]. split; [apply wellFormed_empty|]. repeat split.
Qed.

Lemma represents_append l1 d1 l2 d2 :
  represents l1 d1 -> represents l2 d2 -> represents (l1 ++ l2) (append d1 d2).
Proof.
  intros (A1 & A2 & A3) (B1 & B2 & B3). unfold represents, append.
  cbn [VASTParser.impressions VASTParser.clicks VASTParser.tracking].
  rewrite map_app, !flat_map_app. now rewrite A1, A2, A3, B1, B2, B3.
Qed.

Lemma fold_eachAd l : forall acc t,
  exists ads d,
    fold_left eachAd l (acc, t) = (acc ++ ads, append t d) /\
    wellFormed d /\ represents ads d /\
    Forall2 (fun n a => inline a = None <-> querySelector "InLine" n = None) l ads.
Proof.
  induction l as [|n l IH]; intros acc t.
  - exists [], noTracking. cbn [fold_left]. rewrite app_nil_r, append_empty.
    split; [reflexivity|]. split; [apply wellFormed_empty|]. repeat split. constructor.
  - cbn [fold_left]. unfold eachAd at 2. cbn [fst snd].
    destruct (parseAd_catalog n (length acc) t) as (a & d & -> & W & R & I).
    destruct (IH (acc ++ [a]) (append t d)) as (ads & d' & -> & W' & R' & L).
    exists (a :: ads), (append d d').
    split; [f_equal; [now rewrite <- app_assoc | now rewrite catalog_append_assoc]|].
    split; [now apply wellFormed_append|].
    split; [now apply (represents_append [a] d ads d')|].
    now constructor.
Qed.

(** What a successful parse returns. *)
Lemma parse_success doc v data trk :
  parse doc = Success v data trk ->
  wellFormed trk /\ represents (ads data) trk /\
  Forall2 (fun n a => inline a = None <-> querySelector "InLine" n = None)
          (docQuerySelectorAll "Ad" doc) (ads data).
Proof.
  unfold parse, parseVASTDocument.
  destruct (docQuerySelector "parsererror" doc); [discriminate|].
  destruct (docQuerySelector "VAST" doc) as [vast|]; [|discriminate].
  destruct (fold_eachAd (docQuerySelectorAll "Ad" doc) [] noTracking)
    as (l & d & -> & W & R & L).
  rewrite append_empty_l. cbn [app]. intros [= _ <- <-]. cbn [ads].
  split; [exact W|]. split; [exact R | exact L].
Qed.

(** X15.  When [parse] succeeds the catalog of tracking URLs it
    returns is the one the ads of the parsed data hold, ad by ad in
    document order: its impression URLs are the impressions of the ads
    (of inline ads and of wrappers alike), its click entries are the
    click-through and the click-tracking URLs of the linear creatives of
    the inline ads, and its tracking entries are their tracking events.
    A wrapper gives impressions only; and every [Ad] element gives an ad,
    also one with neither [InLine] nor [Wrapper]. *)
Theorem catalog_is_that_of_the_ads doc v data trk :
  parse doc = Success v data trk ->
  map VideoPlayer.impressionURLOf (VASTParser.impressions trk)
    = flat_map adImpressions (ads data) /\
  VASTParser.clicks trk = flat_map adClicks (ads data) /\
  VASTParser.tracking trk = flat_map adTracking (ads data) /\
  (forall a, In a (ads data) -> inline a = None -> adClicks a = [] /\ adTracking a = []) /\
  length (ads data) = length (docQuerySelectorAll "Ad" doc).
Proof.
  intros H. destruct (parse_success doc v data trk H) as (_ & (R1 & R2 & R3) & L).
  split; [exact R1|]. split; [exact R2|]. split; [exact R3|]. split.
  - intros a _ Ha. unfold adClicks, adTracking, linears. now rewrite Ha.
  - symmetry. exact (Forall2_length _ _ _ L).
Qed.

Lemma catalog_is_that_of_the_ads_witness :
  (exists v data trk, parse Sample.document = Success v data trk /\
     map VideoPlayer.impressionURLOf (VASTParser.impressions trk)
       = flat_map adImpressions (ads data) /\
     VASTParser.clicks trk = flat_map adClicks (ads data) /\
     VASTParser.tracking trk = flat_map adTracking (ads data) /\
     (forall a, In a (ads data) -> inline a = None ->
                adClicks a = [] /\ adTracking a = []) /\
     length (ads data) = length (docQuerySelectorAll "Ad" Sample.document)).
Proof.
  destruct (parse Sample.document) as [v data trk|e] eqn:E; [|vm_compute in E; discriminate E].
  exists v, data, trk. split; [reflexivity|].
  exact (catalog_is_that_of_the_ads Sample.document v data trk E).
Defined.

(** X16.  In the catalog of a successful parse no impression,
    click-tracking, tracking-event or error entry has an empty URL (a
    blank element is skipped), and no tracking entry has an empty event;
    only a click-through can be empty.  So the guard of [fireTracker]
    against an empty URL can only ever turn away a click-through. *)
Theorem catalog_has_no_empty_url doc v data trk :
  parse doc = Success v data trk ->
  Forall (fun i => VideoPlayer.impressionURLOf i <> "") (VASTParser.impressions trk) /\
  Forall (fun c => exists u, c = Tracker.ClickObject "clickThrough" u \/
                             c = Tracker.ClickObject "clickTracking" u /\ u <> "")
         (VASTParser.clicks trk) /\
  Forall (fun e => Tracker.et_event e <> "" /\ Tracker.et_url e <> "")
         (VASTParser.tracking trk) /\
  Forall (fun u => u <> "") (VASTParser.errors trk).
Proof.
  intros H. now destruct (parse_success doc v data trk H) as (W & _).
Qed.

Lemma catalog_has_no_empty_url_witness :
  exists v data trk, parse Sample.document = Success v data trk /\
    Forall (fun i => VideoPlayer.impressionURLOf i <> "") (VASTParser.impressions trk) /\
    Forall (fun c => exists u, c = Tracker.ClickObject "clickThrough" u \/
                               c = Tracker.ClickObject "clickTracking" u /\ u <> "")
           (VASTParser.clicks trk) /\
    Forall (fun e => Tracker.et_event e <> "" /\ Tracker.et_url e <> "")
           (VASTParser.tracking trk) /\
    Forall (fun u => u <> "") (VASTParser.errors trk).
Proof.
  destruct (parse Sample.document) as [v data trk|e] eqn:E; [|vm_compute in E; discriminate E].
  exists v, data, trk. split; [reflexivity|].
  exact (catalog_has_no_empty_url Sample.document v data trk E).
Defined.

(** What the parser makes of the sample document: the blank impression
    and the two trackers without event or without URL are skipped, the
    texts are trimmed, and the tracking event of the wrapper is not in the
    catalog. *)
Lemma sample_catalog :
  exists data,
    parse Sample.document =
      Success (Some "3.0") data
        {| VASTParser.impressions :=
             [ Tracker.ImpObject "https://t.example/wrapper-imp" None;
               Tracker.ImpObject "https://t.example/imp?cb=[CACHEBUSTER]" (Some "a") ];
           VASTParser.clicks :=
             [ Tracker.ClickObject "clickThrough" "https://brand.example/";
               Tracker.ClickObject "clickTracking" "https://t.example/click" ];
           VASTParser.tracking :=
             [ {| Tracker.et_event := "start";
                  Tracker.et_url := "https://t.example/ev?e=start" |};
               {| Tracker.et_event := "complete";
                  Tracker.et_url := "https://t.example/ev?e=complete" |} ];
           VASTParser.errors := ["https://t.example/err?code=[ERRORCODE]"] |} /\
    map id (ads data) = ["w1"; "ad-1"].
Proof. eexists. split; vm_compute; reflexivity. Qed.

End ParserProperties.

(** ** From the document to the requests *)

Section EndToEnd.

Import DOM VAST.

Lemma nonEmpty_true u : u <> "" -> VideoPlayer.nonEmpty u = true.
Proof. intros H. unfold VideoPlayer.nonEmpty. now destruct (String.eqb_spec u ""). Qed.

Lemma findInline_playerData data title cs :
  VideoPlayer.findInline (playerData data) = Some (title, cs) ->
  exists a i, In a (ads data) /\ inline a = Some i /\
              title = adTitle i /\ cs = map playerCreative (creatives i).
Proof.
  unfold VideoPlayer.findInline, playerData. cbn [VASTParser.ads].
  destruct (List.find VideoPlayer.is_inline (map playerAd (ads data))) as [pa|] eqn:E;
    [|discriminate].
  apply find_some in E as [Hin His]. apply in_map_iff in Hin as (a & <- & Ha).
  unfold playerAd in *. cbn [VASTParser.ad_body] in *.
  unfold VideoPlayer.is_inline in His. cbn [VASTParser.ad_body] in His.
  destruct (inline a) as [i|] eqn:Ei.
  - intros [= <- <-]. now exists a, i.
  - destruct (wrapper a); discriminate.
Qed.

Lemma findInline_none data :
  Forall (fun a => inline a = None) (ads data) ->
  VideoPlayer.findInline (playerData data) = None.
Proof.
  intros H. unfold VideoPlayer.findInline, playerData. cbn [VASTParser.ads].
  destruct (List.find VideoPlayer.is_inline (map playerAd (ads data))) as [pa|] eqn:E;
    [|reflexivity].
  apply find_some in E as [Hin His]. apply in_map_iff in Hin as (a & <- & Ha).
  pose proof (proj1 (List.Forall_forall _ _) H a Ha) as Hi.
  unfold VideoPlayer.is_inline, playerAd in His. cbn [VASTParser.ad_body] in His.
  rewrite Hi in His. destruct (wrapper a); discriminate.
Qed.

Lemma findLinear_playerCreative cs mfs ct :
  VideoPlayer.findLinear (map playerCreative cs) = Some (mfs, ct) ->
  exists l, In l (creativeLinears cs) /\
            mfs = mediaFiles l /\ ct = clickThrough (videoClicks l).
Proof.
  unfold VideoPlayer.findLinear.
  destruct (List.find VideoPlayer.is_linear (map playerCreative cs)) as [pc|] eqn:E;
    [|discriminate].
  apply find_some in E as [Hin His]. apply in_map_iff in Hin as (c & <- & Hc).
  unfold playerCreative in *. cbn [VASTParser.creative_data] in *.
  unfold VideoPlayer.is_linear in His. cbn [VASTParser.creative_data] in His.
  destruct (c_data c) as [l| | |] eqn:Ec; try discriminate.
  intros [= <- <-]. exists l. split; [|split; reflexivity].
  unfold creativeLinears. apply in_flat_map. exists c. split; [assumption|].
  rewrite Ec. now left.
Qed.

(** X17.  A parsed document loaded into a player whose tracker
    has fired nothing: when the load succeeds, a request is sent for
    every impression of every ad of the document (wrappers and inline
    ads, in document order), although only the first inline ad is
    played. *)
Theorem load_requests_every_impression doc v data trk a vid s :
  parse doc = Success v data trk ->
  Tracker.firedTrackers (Tracker.ledger (VideoPlayer.world s)) = ∅ ->
  snd (VideoPlayer.loadAd a vid (playerData data) trk s) = true ->
  VideoPlayer.requested (snd (fst (VideoPlayer.loadAd a vid (playerData data) trk s)))
    = flat_map adImpressions (ads data).
Proof.
  intros Hp Hw. destruct (parse_success doc v data trk Hp) as ((W & _) & (R & _) & _).
  unfold VideoPlayer.loadAd.
  destruct (VideoPlayer.findInline (playerData data)) as [[title cs]|]; [|discriminate].
  destruct (VideoPlayer.findLinear cs) as [[mfs ct]|]; [|discriminate].
  destruct (VideoPlayer.selectMediaFile vid mfs) as [mf|]; [|discriminate].
  unfold VideoPlayer.logEvent. cbn -[Tracker.fireImpressions]. intros _.
  unfold Tracker.fireImpressions.
  pose proof (fireAll_fresh_requests a Tracker.noContext
                (Tracker.impressionCalls (VASTParser.impressions trk)) 0
                (VideoPlayer.world s) Hw) as Hr.
  destruct (Tracker.fireAll _ _ _ _ _) as [w issued]. cbn [fst snd] in *.
  change (VideoPlayer.requested (map VideoPlayer.Request issued)
          = flat_map adImpressions (ads data)).
  rewrite requested_requests, Hr, <- R.
  unfold Tracker.impressionCalls. rewrite map_map. cbn [Tracker.c_url].
  apply filter_all. clear -W.
  induction W as [|i l Hi _ IH]; [constructor|]. cbn [map].
  apply List.Forall_cons; [|exact IH].
  apply nonEmpty_true. exact Hi.
Qed.

(** X18.  A document none of whose ads holds an [InLine]
    element (a response made of wrappers, or with no ad at all) parses
    successfully, but the player does not load it: [loadAd] returns
    [false] with the one log entry [No inline ad found in VAST], sends no
    request and sets no source.  (The wrapper is not followed; its
    impressions are in the catalog, and are not fired.) *)
Theorem wrappers_are_not_followed doc v data trk a vid s :
  parse doc = Success v data trk ->
  Forall (fun n => querySelector "InLine" n = None) (docQuerySelectorAll "Ad" doc) ->
  snd (VideoPlayer.loadAd a vid (playerData data) trk s) = false /\
  snd (fst (VideoPlayer.loadAd a vid (playerData data) trk s))
    = [ VideoPlayer.Notify
          {| VideoPlayer.le_type := "error";
             VideoPlayer.le_message := VideoPlayer.Text "No inline ad found in VAST";
             VideoPlayer.le_timestamp := Tracker.clock a;
             VideoPlayer.le_currentTime :=
               Double.or_zero (VideoPlayer.currentTime vid) |} ] /\
  VideoPlayer.world (fst (fst (VideoPlayer.loadAd a vid (playerData data) trk s)))
    = VideoPlayer.world s.
Proof.
  intros Hp Hno. destruct (parse_success doc v data trk Hp) as (_ & _ & F).
  assert (Hall : Forall (fun a => inline a = None) (ads data)).
  { clear -F Hno. induction F as [|n x l l' Hx _ IH]; [constructor|].
    inversion Hno; subst. constructor; [now apply Hx | now apply IH]. }
  unfold VideoPlayer.loadAd. rewrite (findInline_none data Hall). repeat split.
Qed.

Lemma wrappers_are_not_followed_witness :
  exists v data trk,
    parse Sample.wrapperDocument = Success v data trk /\
    Forall (fun n => querySelector "InLine" n = None)
           (docQuerySelectorAll "Ad" Sample.wrapperDocument) /\
    snd (VideoPlayer.loadAd Sample.ambient (Sample.videoAt 0) (playerData data) trk
           VideoPlayer.initial) = false /\
    snd (fst (VideoPlayer.loadAd Sample.ambient (Sample.videoAt 0) (playerData data) trk
                VideoPlayer.initial))
      = [ VideoPlayer.Notify
            {| VideoPlayer.le_type := "error";
               VideoPlayer.le_message := VideoPlayer.Text "No inline ad found in VAST";
               VideoPlayer.le_timestamp := Tracker.clock Sample.ambient;
               VideoPlayer.le_currentTime :=
                 Double.or_zero (VideoPlayer.currentTime (Sample.videoAt 0)) |} ] /\
    VideoPlayer.world
      (fst (fst (VideoPlayer.loadAd Sample.ambient (Sample.videoAt 0) (playerData data) trk
                   VideoPlayer.initial)))
      = VideoPlayer.world VideoPlayer.initial.
Proof.
  destruct (parse Sample.wrapperDocument) as [v data trk|e] eqn:E;
    [|vm_compute in E; discriminate E].
  assert (H : Forall (fun n => querySelector "InLine" n = None)
                (docQuerySelectorAll "Ad" Sample.wrapperDocument))
    by (repeat constructor).
  exists v, data, trk. split; [reflexivity|]. split; [exact H|].
  exact (wrappers_are_not_followed Sample.wrapperDocument v data trk Sample.ambient
           (Sample.videoAt 0) VideoPlayer.initial E H).
Defined.

Lemma load_requests_every_impression_witness :
  exists v data trk,
    parse Sample.document = Success v data trk /\
    Tracker.firedTrackers (Tracker.ledger (VideoPlayer.world VideoPlayer.initial)) = ∅ /\
    snd (VideoPlayer.loadAd Sample.ambient (Sample.videoAt 0) (playerData data) trk
           VideoPlayer.initial) = true /\
    VideoPlayer.requested
      (snd (fst (VideoPlayer.loadAd Sample.ambient (Sample.videoAt 0) (playerData data) trk
                   VideoPlayer.initial)))
      = flat_map adImpressions (ads data).
Proof.
  destruct (parse Sample.document) as [v data trk|e] eqn:E;
    [|vm_compute in E; discriminate E].
  assert (L : snd (VideoPlayer.loadAd Sample.ambient (Sample.videoAt 0) (playerData data)
                     trk VideoPlayer.initial) = true).
  { vm_compute in E. injection E as _ <- <-. vm_compute. reflexivity. }
  exists v, data, trk. split; [reflexivity|]. split; [reflexivity|]. split; [exact L|].
  exact (load_requests_every_impression Sample.document v data trk Sample.ambient
           (Sample.videoAt 0) VideoPlayer.initial E eq_refl L).
Defined.

(** The requests of the sample document: the impression of the wrapper
    and that of the inline ad. *)
Lemma sample_document_requests :
  match parse Sample.document with
  | Success _ data trk =>
    VideoPlayer.requested
      (snd (fst (VideoPlayer.loadAd Sample.ambient (Sample.videoAt 0) (playerData data) trk
                   VideoPlayer.initial)))
  | Failure _ => []
  end = ["https://t.example/wrapper-imp"; "https://t.example/imp?cb=[CACHEBUSTER]"].
Proof. vm_compute. reflexivity. Qed.

(** X19.  A click on a loaded ad whose first linear
    creative declares a click-through that is not marked as fired: the
    click-through URL is opened in a new window, and a request is also
    sent to it as a tracker of type [click] and event [clickThrough],
    since the parser lists the click-through among the click entries of
    the catalog. *)
Theorem click_through_is_opened_and_requested doc v data trk a vid s title cs mfs u :
  parse doc = Success v data trk ->
  VideoPlayer.vastData (VideoPlayer.player s) = Some (playerData data) ->
  VideoPlayer.trackingURLs (VideoPlayer.player s) = Some trk ->
  VideoPlayer.findInline (playerData data) = Some (title, cs) ->
  VideoPlayer.findLinear cs = Some (mfs, Some u) ->
  u <> "" ->
  Tracker.hasFired u (Tracker.ledger (VideoPlayer.world s)) = false ->
  In (VideoPlayer.OpenWindow u) (snd (VideoPlayer.onClick a vid s)) /\
  exists r, In (VideoPlayer.Request r) (snd (VideoPlayer.onClick a vid s)) /\
            Tracker.s_url r = u /\ Tracker.s_type r = "click" /\
            Tracker.s_event r = Some "clickThrough".
Proof.
  intros Hp Hd Ht Hi Hl Hu Hf.
  destruct (parse_success doc v data trk Hp) as (_ & (_ & Rc & _) & _).
  assert (Hin : In (Tracker.ClickObject "clickThrough" u) (VASTParser.clicks trk)).
  { rewrite Rc. destruct (findInline_playerData data title cs Hi) as (x & i & Hx & Hxi & _ & ->).
    destruct (findLinear_playerCreative _ _ _ Hl) as (l & Hl1 & _ & Hl2).
    apply in_flat_map. exists x. split; [assumption|].
    unfold adClicks, linears. rewrite Hxi. apply in_flat_map. exists l.
    split; [assumption|]. unfold linearClicks. rewrite <- Hl2. now left. }
  unfold VideoPlayer.onClick, VideoPlayer.logEvent.
  cbn [VideoPlayer.player VideoPlayer.with_player VideoPlayer.trackingURLs
       VideoPlayer.world VideoPlayer.vastData].
  rewrite Ht, Hd, Hi, Hl.
  destruct (String.eqb_spec u ""); [contradiction|].
  unfold Tracker.fireClicks.
  pose proof (fireAll_issued a Tracker.noContext
                (Tracker.clickCalls (VASTParser.clicks trk)) 0 (VideoPlayer.world s)) as Hiss.
  destruct (Tracker.fireAll _ _ _ _ _) as [w issued]. cbn [fst snd] in *.
  split.
  - apply in_or_app. right. right. apply in_or_app. right. now left.
  - assert (Hc : In (u, "click", Some "clickThrough")
                    (map (fun s0 => (Tracker.s_url s0, Tracker.s_type s0, Tracker.s_event s0))
                         issued)).
    { rewrite Hiss. apply in_map_iff.
      exists {| Tracker.c_url := u; Tracker.c_type := "click";
                Tracker.c_event := Some "clickThrough" |}.
      split; [reflexivity|]. apply filter_In. split.
      - unfold Tracker.clickCalls. apply in_map_iff.
        exists (Tracker.ClickObject "clickThrough" u). split; [reflexivity | assumption].
      - cbn [Tracker.c_url]. rewrite Hf, (nonEmpty_true u Hu). reflexivity. }
    apply in_map_iff in Hc as (r & Hr & Hrin). injection Hr as H1 H2 H3.
    exists r. split; [|now repeat split].
    apply in_or_app. right. right. apply in_or_app. left.
    now apply in_map.
Qed.

Lemma click_through_is_opened_and_requested_witness :
  parse Sample.document = Success (Some "3.0") (fst Sample.parsed) (snd Sample.parsed) /\
  VideoPlayer.findInline (playerData (fst Sample.parsed))
    = Some (Some "Sample",
            map playerCreative
                (match inline (nth 1 (ads (fst Sample.parsed))
                                   {| id := ""; sequence := None; inline := None;
                                      wrapper := None |}) with
                 | Some i => creatives i
                 | None => []
                 end)) /\
  Tracker.hasFired "https://brand.example/"
    (Tracker.ledger (VideoPlayer.world Sample.documentLoaded)) = false /\
  In (VideoPlayer.OpenWindow "https://brand.example/")
     (snd (VideoPlayer.onClick Sample.ambient (Sample.videoAt 3) Sample.documentLoaded)) /\
  exists r,
    In (VideoPlayer.Request r)
       (snd (VideoPlayer.onClick Sample.ambient (Sample.videoAt 3) Sample.documentLoaded)) /\
    Tracker.s_url r = "https://brand.example/" /\ Tracker.s_type r = "click" /\
    Tracker.s_event r = Some "clickThrough".
Proof.
  assert (Hp : parse Sample.document
               = Success (Some "3.0") (fst Sample.parsed) (snd Sample.parsed))
    by (vm_compute; reflexivity).
  assert (Hi : VideoPlayer.findInline (playerData (fst Sample.parsed))
               = Some (Some "Sample",
                       map playerCreative
                           (match inline (nth 1 (ads (fst Sample.parsed))
                                              {| id := ""; sequence := None;
                                                 inline := None; wrapper := None |}) with
                            | Some i => creatives i
                            | None => []
                            end)))
    by (vm_compute; reflexivity).
  assert (Hf : Tracker.hasFired "https://brand.example/"
                 (Tracker.ledger (VideoPlayer.world Sample.documentLoaded)) = false)
    by (vm_compute; reflexivity).
  split; [exact Hp|]. split; [exact Hi|]. split; [exact Hf|].
  refine (click_through_is_opened_and_requested Sample.document (Some "3.0")
            (fst Sample.parsed) (snd Sample.parsed) Sample.ambient (Sample.videoAt 3)
            Sample.documentLoaded _ _ _ "https://brand.example/" Hp _ _ Hi _ _ Hf).
  - vm_compute. reflexivity.
  - vm_compute. reflexivity.
  - vm_compute. reflexivity.
  - discriminate.
Defined.

End EndToEnd.

(** ** The page *)

Section PageProperties.

Import UIController.

(** X20.  With a limit of at least three, what [truncateURL]
    returns is never longer than the limit: it is the decoded URL (the
    URL itself when it cannot be decoded) when that fits, and otherwise
    its first [maxLength - 3] code units followed by three dots.  Nothing
    is returned for a missing or empty URL. *)
Theorem truncateURL_within_limit decode url maxLength :
  (3 <= maxLength)%Z ->
  (Z.of_nat (length (truncateURL decode url maxLength)) <= maxLength)%Z /\
  (forall u, url = Some u -> u <> [] ->
     let shown := match decode u with Some d => d | None => u end in
     truncateURL decode url maxLength =
       if (Z.of_nat (length shown) <=? maxLength)%Z then shown
       else firstn (Z.to_nat (maxLength - 3)) shown ++ dots) /\
  (url = None \/ url = Some [] -> truncateURL decode url maxLength = []).
Proof.
  intros Hm. split; [|split].
  - unfold truncateURL. destruct url as [[|c u]|]; cbn [length]; try lia.
    set (shown := match decode (c :: u) with Some d => d | None => c :: u end).
    destruct (Z.leb_spec (Z.of_nat (length shown)) maxLength) as [H|H]; [exact H|].
    unfold substring0, dots. rewrite length_app, firstn_length_le by lia.
    cbn [length]. lia.
  - intros u -> Hu. destruct u as [|c u]; [contradiction|]. reflexivity.
  - intros [-> | ->]; reflexivity.
Qed.

Lemma truncateURL_within_limit_witness :
  (3 <= 10)%Z /\
  (Z.of_nat (length (truncateURL (fun s => Some s) (Some (repeat 97%N 40)) 10)) <= 10)%Z /\
  truncateURL (fun s => Some s) (Some (repeat 97%N 40)) 10 = repeat 97%N 7 ++ dots.
Proof.
  assert (H : (3 <= 10)%Z) by lia.
  split; [exact H|].
  destruct (truncateURL_within_limit (fun s => Some s) (Some (repeat 97%N 40)) 10 H)
    as (Hlen & Hshape & _).
  split; [exact Hlen|].
  rewrite (Hshape (repeat 97%N 40) eq_refl ltac:(discriminate)). reflexivity.
Defined.

Lemma removelast_firstn_length {A} (l : list A) :
  removelast l = firstn (pred (length l)) l.
Proof.
  induction l as [|x l IH]; [reflexivity|].
  destruct l as [|y l]; [reflexivity|].
  change (removelast (x :: y :: l)) with (x :: removelast (y :: l)).
  rewrite IH. reflexivity.
Qed.

Lemma limit_firstn {A} fuel : forall l : list A,
  (length l <= 100 + fuel)%nat -> limit fuel l = firstn 100 l.
Proof.
  induction fuel as [|fuel IH]; intros l Hl; cbn [limit].
  - symmetry. apply firstn_all2. lia.
  - destruct (Nat.ltb_spec 100 (length l)) as [H|H].
    + rewrite IH.
      * rewrite removelast_firstn_length, firstn_firstn. f_equal. lia.
      * rewrite removelast_firstn_length, firstn_length_le; lia.
    + symmetry. apply firstn_all2. lia.
Qed.

Lemma addEventLog_firstn {A} (e : A) l : addEventLog e l = firstn 100 (e :: l).
Proof. unfold addEventLog. apply limit_firstn. cbn [length]. lia. Qed.

Lemma firstn_app_firstn {A} n (a b : list A) :
  firstn n (a ++ firstn n b) = firstn n (a ++ b).
Proof.
  rewrite !firstn_app, firstn_firstn. f_equal. f_equal. lia.
Qed.

(** X21.  The event panel of the page holds at most a hundred
    entries: [addEventLog] puts the new entry first and keeps the first
    hundred, so after any sequence of events a panel that held at most a
    hundred entries shows the events newest first, followed by what it
    showed before, cut at a hundred. *)
Theorem event_panel_keeps_last_hundred {A} (entries children : list A) :
  (length children <= 100)%nat ->
  addAll entries children = firstn 100 (List.rev entries ++ children) /\
  (length (addAll entries children) <= 100)%nat /\
  (forall (e : A) cs, addEventLog e cs = firstn 100 (e :: cs)).
Proof.
  intros Hc.
  assert (H : forall es cs : list A, (length cs <= 100)%nat ->
                addAll es cs = firstn 100 (List.rev es ++ cs)).
  { induction es as [|e es IH]; intros cs Hcs; cbn [addAll fold_left List.rev app].
    - symmetry. apply firstn_all2. exact Hcs.
    - fold (addAll es (addEventLog e cs)). rewrite IH.
      + rewrite addEventLog_firstn, firstn_app_firstn, <- app_assoc. reflexivity.
      + rewrite addEventLog_firstn, length_firstn. lia. }
  split; [now apply H|]. split.
  - rewrite H by assumption. rewrite length_firstn. lia.
  - intros e cs. apply addEventLog_firstn.
Qed.

Lemma event_panel_keeps_last_hundred_witness :
  (length (repeat 0%nat 99) <= 100)%nat /\
  addAll [1; 2; 3]%nat (repeat 0%nat 99)
    = firstn 100 (List.rev [1; 2; 3]%nat ++ repeat 0%nat 99) /\
  (length (addAll [1; 2; 3]%nat (repeat 0%nat 99)) <= 100)%nat.
Proof.
  assert (H : (length (repeat 0%nat 99) <= 100)%nat) by (rewrite repeat_length; lia).
  split; [exact H|].
  destruct (event_panel_keeps_last_hundred [1; 2; 3]%nat (repeat 0%nat 99) H)
    as (H1 & H2 & _).
  split; [exact H1 | exact H2].
Defined.

End PageProperties.

(** ** Requests that are pending at a reset *)

Section PendingAtReset.

Import VideoPlayer Steps.

(** X22.  [clearAll] does not cancel the requests that are still
    pending: when such a request ends after the reset, its call of
    [fireTracker] resumes, marks the URL in the emptied set and appends
    its record to the emptied log.  From then on the URL counts as fired:
    the next task, for instance the load of the same ad, sends no request
    for it. *)
Theorem pending_request_outlives_reset k1 k2 k3 i o s r :
  event k1 = ClearAll -> event k2 = Settle i o -> event k3 <> ClearAll ->
  nth_error (Tracker.inflight (world s)) i = Some r ->
  Tracker.firedTrackers (Tracker.ledger (world (fst (run [k1; k2] s))))
    = {[ Tracker.s_url r ]} ∪ ∅ /\
  map Tracker.originalURL
      (Tracker.trackingLog (Tracker.ledger (world (fst (run [k1; k2] s)))))
    = [Some (Tracker.s_url r)] /\
  ~ In (Tracker.s_url r) (requested (snd (step k3 (fst (run [k1; k2] s))))).
Proof.
  intros H1 H2 H3 Hr.
  assert (Hw : world (fst (run [k1; k2] s)) =
               fst (Tracker.settle (Tracker.clock (amb k2)) i o
                      (Tracker.resetWorld (world s)))).
  { cbn [run]. unfold step at 1. rewrite H1. unfold clearAll, reset. cbn [fst snd].
    unfold step. rewrite H2. reflexivity. }
  assert (Hs : fst (Tracker.settle (Tracker.clock (amb k2)) i o
                      (Tracker.resetWorld (world s))) =
               {| Tracker.ledger :=
                    fst (Tracker.fireTracker_resume (Tracker.clock (amb k2)) r
                           (Tracker.Resolved true) (Tracker.reset (Tracker.ledger (world s))));
                  Tracker.inflight := Tracker.remove_nth i (Tracker.inflight (world s)) |}).
  { unfold Tracker.settle, Tracker.resetWorld. cbn [Tracker.inflight Tracker.ledger].
    rewrite Hr. now destruct o. }
  rewrite Hw, Hs. cbn [Tracker.ledger Tracker.fireTracker_resume fst Tracker.reset
                       Tracker.firedTrackers Tracker.trackingLog app map
                       Tracker.originalURL].
  split; [reflexivity|]. split; [reflexivity|].
  apply (change_keeps_fired k3 (fst (run [k1; k2] s)) _ _ (Tracker.s_url r)
           (step_change k3 _) H3).
  rewrite Hw, Hs. unfold Tracker.hasFired.
  cbn [Tracker.ledger Tracker.fireTracker_resume fst Tracker.firedTrackers].
  apply bool_decide_eq_true. apply elem_of_union. left. now apply elem_of_singleton.
Qed.

Lemma pending_request_outlives_reset_witness :
  nth_error (Tracker.inflight (world Sample.loaded)) 0
    = Some {| Tracker.s_url := Sample.impressionURL; Tracker.s_type := "impression";
              Tracker.s_event := None; Tracker.s_timestamp := 1700000000000;
              Tracker.s_processedURL := "https://t.example/imp?cb=847362819" |} /\
  ~ In Sample.impressionURL
      (requested
         (snd (step (Sample.task (LoadAd Sample.vast Sample.catalog) 0)
                 (fst (run [ Sample.task ClearAll 0;
                             Sample.task (Settle 0 Tracker.ImgTimeout) 0 ]
                           Sample.loaded))))).
Proof.
  assert (H : nth_error (Tracker.inflight (world Sample.loaded)) 0
              = Some {| Tracker.s_url := Sample.impressionURL;
                        Tracker.s_type := "impression";
                        Tracker.s_event := None; Tracker.s_timestamp := 1700000000000;
                        Tracker.s_processedURL := "https://t.example/imp?cb=847362819" |})
    by (vm_compute; reflexivity).
  split; [exact H|].
  destruct (pending_request_outlives_reset
              (Sample.task ClearAll 0) (Sample.task (Settle 0 Tracker.ImgTimeout) 0)
              (Sample.task (LoadAd Sample.vast Sample.catalog) 0) 0 Tracker.ImgTimeout
              Sample.loaded _ eq_refl eq_refl ltac:(discriminate) H) as (_ & _ & Hno).
  exact Hno.
Defined.

End PendingAtReset.

(** ** The lifecycle, request by request *)

Section LifecycleRequests.

Import VideoPlayer.

Lemma sent_app a b : sent (a ++ b) = sent a ++ sent b.
Proof. unfold sent. now rewrite flat_map_app. Qed.

Lemma sent_requests l :
  sent (map Request l)
  = map (fun s => (Tracker.s_url s, Tracker.s_type s, Tracker.s_event s)) l.
Proof. induction l; [reflexivity | cbn; now f_equal]. Qed.

(** A call of [fireEventTrackers] from a handler, request by request:
    the ledger is left as it is, and the requests are those of the
    event on that ledger. *)
Lemma fireEvent_sent a v ev mark msg s t :
  trackingURLs (player s) = Some t ->
  Tracker.ledger (world (fst (fireEvent a v ev mark msg s))) = Tracker.ledger (world s) /\
  sent (snd (fireEvent a v ev mark msg s))
  = eventRequests (Tracker.ledger (world s)) ev (VASTParser.tracking t).
Proof.
  intros Ht. unfold fireEvent. rewrite Ht. unfold Tracker.fireEventTrackers.
  pose proof (fireAll_ledger a Tracker.noContext
                (Tracker.eventCalls ev (VASTParser.tracking t)) 0 (world s)) as Hl.
  pose proof (fireAll_issued a Tracker.noContext
                (Tracker.eventCalls ev (VASTParser.tracking t)) 0 (world s)) as Hi.
  destruct (Tracker.fireAll _ _ _ _ _) as [w issued]. cbn [fst snd] in Hl, Hi.
  assert (Hs : sent (Fire (EventTrackers ev) :: map Request issued)
               = eventRequests (Tracker.ledger (world s)) ev (VASTParser.tracking t)).
  { change (sent (map Request issued) = eventRequests (Tracker.ledger (world s)) ev
                                          (VASTParser.tracking t)).
    rewrite sent_requests, Hi. unfold eventRequests, Tracker.eventCalls.
    rewrite filter_map_swap, map_map, filter_filter. reflexivity. }
  destruct msg as [m|]; unfold logEvent; cbn [fst snd world player with_player];
    (split; [exact Hl|]).
  - rewrite sent_app, Hs. apply app_nil_r.
  - exact Hs.
Qed.


Lemma onEnded_sent a v s t :
  trackingURLs (player s) = Some t ->
  Tracker.ledger (world (fst (onEnded a v s))) = Tracker.ledger (world s) /\
  sent (snd (onEnded a v s))
  = if complete (quartilesFired (player s)) then []
    else eventRequests (Tracker.ledger (world s)) "complete" (VASTParser.tracking t).
Proof.
  intros Ht. unfold onEnded, logEvent. cbn [player with_player quartilesFired].
  destruct (complete (quartilesFired (player s))); cbn [negb]; [split; reflexivity|].
  match goal with
  | |- context [fireEvent a v "complete" ?mk ?msg ?s1] =>
    destruct (fireEvent_sent a v "complete" mk msg s1 t Ht) as [Hl Hs];
    destruct (fireEvent a v "complete" mk msg s1) as [s2 fx2]
  end.
  cbn [fst snd] in *. split; [exact Hl|]. exact Hs.
Qed.

Lemma onPause_sent a v s t :
  trackingURLs (player s) = Some t ->
  Tracker.ledger (world (fst (onPause a v s))) = Tracker.ledger (world s) /\
  sent (snd (onPause a v s))
  = if ended v then []
    else eventRequests (Tracker.ledger (world s)) "pause" (VASTParser.tracking t).
Proof.
  intros Ht. unfold onPause, logEvent. cbn [player with_player].
  destruct (ended v); cbn [negb]; [split; reflexivity|].
  match goal with
  | |- context [fireEvent a v "pause" ?mk ?msg ?s1] =>
    destruct (fireEvent_sent a v "pause" mk msg s1 t Ht) as [Hl Hs];
    destruct (fireEvent a v "pause" mk msg s1) as [s2 fx2]
  end.
  cbn [fst snd] in *. split; [exact Hl|]. exact Hs.
Qed.

Lemma due_bool q p k :
  due q p k <-> Double.geb p (threshold k) && negb (flagOf q k) = true.
Proof. unfold due. rewrite andb_true_iff, negb_true_iff. tauto. Qed.

Lemma not_due_bool q p k :
  ~ due q p k <-> Double.geb p (threshold k) && negb (flagOf q k) = false.
Proof. rewrite due_bool. now destruct (_ && _). Qed.

(** With nothing due, a position update does nothing at all. *)
Lemma onTimeUpdate_idle a v s :
  (forall k, ~ due (quartilesFired (player s)) (progressOf v) k) ->
  onTimeUpdate a v s = (s, []).
Proof.
  intros Hno. unfold onTimeUpdate.
  destruct (Double.falsy (duration v)); [reflexivity|].
  pose proof (proj1 (not_due_bool _ _ _) (Hno Q25)) as H1.
  pose proof (proj1 (not_due_bool _ _ _) (Hno Q50)) as H2.
  pose proof (proj1 (not_due_bool _ _ _) (Hno Q75)) as H3.
  unfold progressOf in H1, H2, H3. cbn [threshold flagOf] in H1, H2, H3.
  cbv zeta. now rewrite H1, H2, H3.
Qed.

(** A position update fires the lowest threshold that is due, and that
    one only: its flag is set, the ledger is left as it is, and the
    requests are those of its event. *)
Lemma onTimeUpdate_fires a v s t k :
  trackingURLs (player s) = Some t ->
  Double.falsy (duration v) = false ->
  due (quartilesFired (player s)) (progressOf v) k ->
  (forall j, Double.ltb (threshold j) (threshold k) = true ->
             ~ due (quartilesFired (player s)) (progressOf v) j) ->
  view (fst (onTimeUpdate a v s)) =
    (setFlag k (quartilesFired (player s)), Some t, listening (player s)) /\
  Tracker.ledger (world (fst (onTimeUpdate a v s))) = Tracker.ledger (world s) /\
  firedEvents (snd (onTimeUpdate a v s)) = [eventOf k] /\
  sent (snd (onTimeUpdate a v s))
  = eventRequests (Tracker.ledger (world s)) (eventOf k) (VASTParser.tracking t).
Proof.
  intros Ht Hd Hdue Hlow. unfold onTimeUpdate. rewrite Hd. cbv zeta.
  apply due_bool in Hdue. unfold progressOf in Hdue, Hlow.
  assert (Hfire : forall ev mark msg,
            view (fst (fireEvent a v ev mark msg s))
              = (mark (quartilesFired (player s)), Some t, listening (player s)) /\
            Tracker.ledger (world (fst (fireEvent a v ev mark msg s)))
              = Tracker.ledger (world s) /\
            firedEvents (snd (fireEvent a v ev mark msg s)) = [ev] /\
            sent (snd (fireEvent a v ev mark msg s))
              = eventRequests (Tracker.ledger (world s)) ev (VASTParser.tracking t)).
  { intros ev mark msg.
    destruct (fireEvent_sent a v ev mark msg s t Ht) as [Hl Hs].
    destruct (fireEvent a v ev mark msg s) as [s2 fx2] eqn:E2.
    eapply fireEvent_spec with (t := t) in E2 as (Hv2 & Hf2); [|assumption].
    cbn [fst snd] in *. repeat split; assumption. }
  destruct k; cbn [threshold flagOf eventOf setFlag] in *.
  - rewrite Hdue. apply Hfire.
  - assert (H1 := proj1 (not_due_bool _ _ _) (Hlow Q25 ltac:(reflexivity))).
    cbn [threshold flagOf] in H1. rewrite H1, Hdue. apply Hfire.
  - assert (H1 := proj1 (not_due_bool _ _ _) (Hlow Q25 ltac:(reflexivity))).
    assert (H2 := proj1 (not_due_bool _ _ _) (Hlow Q50 ltac:(reflexivity))).
    cbn [threshold flagOf] in H1, H2. rewrite H1, H2, Hdue. apply Hfire.
Qed.

Lemma run_cons_sent k ks s :
  sent (snd (run (k :: ks) s)) =
  sent (snd (step k s)) ++ sent (snd (run ks (fst (step k s)))).
Proof.
  simpl. destruct (step k s) as [s1 fx1]. simpl.
  destruct (run ks s1) as [s2 fx2]. simpl. apply sent_app.
Qed.

Lemma eventRequests_in tr ev l u :
  In (u, "event", Some ev) (eventRequests tr ev l) <->
  exists e, In e l /\ Tracker.et_event e = ev /\ Tracker.et_url e = u /\ u <> "" /\
            Tracker.hasFired u tr = false.
Proof.
  unfold eventRequests. rewrite in_map_iff. split.
  - intros (e & [= <-] & Hin). apply filter_In in Hin as [Hin Hf].
    apply andb_true_iff in Hf as [He Hf]. apply andb_true_iff in Hf as [Hn Hf].
    apply String.eqb_eq in He. apply negb_true_iff in Hn, Hf.
    apply String.eqb_neq in Hn. exists e. repeat split; assumption.
  - intros (e & Hin & He & Hu & Hn & Hf). exists e. split; [now rewrite Hu|].
    apply filter_In. split; [assumption|]. subst u.
    apply String.eqb_eq in He. apply String.eqb_neq in Hn.
    unfold nonEmpty. now rewrite He, Hn, Hf.
Qed.

(** C7 (as stated, refuted).  Were every pause with [ended] unset to
    send a request to each declared pause tracker, the second pause of
    the sample ad, made after the request of the first pause has ended,
    would send one; it sends none, because the URL is marked as fired. *)
Lemma every_pause_fires_refuted :
  ~ (forall a v s t,
       listening (player s) = true ->
       trackingURLs (player s) = Some t ->
       ended v = false ->
       sent (snd (onPause a v s))
       = eventRequests Tracker.create "pause" (VASTParser.tracking t)).
Proof.
  intros H.
  specialize (H Sample.ambient (Sample.videoAt 12) Sample.pausedOnce Sample.catalog
                eq_refl eq_refl eq_refl).
  vm_compute in H. discriminate H.
Qed.

(** C7 (amended).  [onPause] fires [pause] when the video has not ended:
    it hands the event to the tracker, and a request is sent to each
    declared pause tracker whose URL is not empty and not marked as
    fired.  When the video has ended it does nothing at all.  So a
    request for [pause] is sent exactly when the pause is not the one of
    the natural end and such a tracker is declared.  At the natural end,
    where the element fires [pause] with [ended] set and then [ended],
    the only requests are those of [complete] (none if it had fired
    before). *)
Theorem pause_fires_unless_ended a v a' v' s t :
  listening (player s) = true ->
  trackingURLs (player s) = Some t ->
  (ended v = false ->
   firedEvents (snd (onPause a v s)) = ["pause"] /\
   sent (snd (onPause a v s))
   = eventRequests (Tracker.ledger (world s)) "pause" (VASTParser.tracking t)) /\
  (ended v = true -> onPause a v s = (s, [])) /\
  ((exists u, In (u, "event", Some "pause") (sent (snd (onPause a v s)))) <->
   ended v = false /\
   exists e, In e (VASTParser.tracking t) /\ Tracker.et_event e = "pause" /\
             Tracker.et_url e <> "" /\
             Tracker.hasFired (Tracker.et_url e) (Tracker.ledger (world s)) = false) /\
  (ended v = true ->
   firedEvents
     (snd (run [ {| amb := a; video := v; event := Media pause |};
                 {| amb := a'; video := v'; event := Media ended_ |} ] s))
   = (if complete (quartilesFired (player s)) then [] else ["complete"]) /\
   sent
     (snd (run [ {| amb := a; video := v; event := Media pause |};
                 {| amb := a'; video := v'; event := Media ended_ |} ] s))
   = if complete (quartilesFired (player s)) then []
     else eventRequests (Tracker.ledger (world s)) "complete" (VASTParser.tracking t)).
Proof.
  intros Hl Ht.
  destruct (onPause_spec a v s t Ht) as [_ Hf].
  destruct (onPause_sent a v s t Ht) as [_ Hs].
  split; [|split; [|split]].
  - intros He. rewrite He in Hf, Hs. now split.
  - intros He. unfold onPause. now rewrite He.
  - rewrite Hs. destruct (ended v).
    + split; [intros [u []] | intros [E _]; discriminate E].
    + split.
      * intros [u Hu]. split; [reflexivity|].
        apply eventRequests_in in Hu as (e & Hin & He & Hu & Hn & Hfi).
        exists e. subst u. repeat split; assumption.
      * intros [_ (e & Hin & He & Hn & Hfi)]. exists (Tracker.et_url e).
        apply eventRequests_in. exists e. repeat split; assumption.
  - intros He.
    assert (Hp : onPause a v s = (s, [])) by (unfold onPause; now rewrite He).
    rewrite run_cons_events, run_cons_sent, step_media by assumption. cbn [handler].
    rewrite Hp. cbn [fst snd app firedEvents sent flat_map].
    rewrite run_cons_events, run_cons_sent, step_media by assumption. cbn [handler].
    destruct (onEnded_spec a' v' s t Ht) as [_ Hfe].
    destruct (onEnded_sent a' v' s t Ht) as [_ Hse].
    rewrite Hfe, Hse. cbn [run snd firedEvents sent flat_map]. now rewrite !app_nil_r.
Qed.

Lemma pause_fires_unless_ended_witness :
  (listening (player Sample.started) = true /\
   trackingURLs (player Sample.started) = Some Sample.catalog /\
   ended (Sample.videoAt 12) = false /\ ended Sample.videoEnded = true) /\
  sent (snd (onPause Sample.ambient (Sample.videoAt 12) Sample.started))
    = [("https://t.example/ev?e=pause", "event", Some "pause")] /\
  onPause Sample.ambient Sample.videoEnded Sample.started = (Sample.started, []) /\
  sent
    (snd (run [ {| amb := Sample.ambient; video := Sample.videoEnded;
                   event := Media pause |};
                {| amb := Sample.ambient; video := Sample.videoEnded;
                   event := Media ended_ |} ] Sample.started))
    = [("https://t.example/ev?e=complete", "event", Some "complete")].
Proof.
  split; [repeat split|].
  destruct (pause_fires_unless_ended Sample.ambient (Sample.videoAt 12) Sample.ambient
              Sample.videoEnded Sample.started Sample.catalog eq_refl eq_refl)
    as (Hfires & _ & _ & _).
  destruct (pause_fires_unless_ended Sample.ambient Sample.videoEnded Sample.ambient
              Sample.videoEnded Sample.started Sample.catalog eq_refl eq_refl)
    as (_ & Hnot & _ & Hend).
  split; [|split].
  - rewrite (proj2 (Hfires eq_refl)). vm_compute. reflexivity.
  - exact (Hnot eq_refl).
  - rewrite (proj2 (Hend eq_refl)). vm_compute. reflexivity.
Defined.

(** C2 (as stated, refuted).  Were a position update to fire the highest
    threshold that is due, the update at 80% after [start] would fire
    [thirdQuartile]; it fires [firstQuartile]. *)
Lemma highest_due_refuted :
  ~ (forall a v s t k,
       trackingURLs (player s) = Some t ->
       Double.falsy (duration v) = false ->
       due (quartilesFired (player s)) (progressOf v) k ->
       (forall j, Double.ltb (threshold k) (threshold j) = true ->
                  ~ due (quartilesFired (player s)) (progressOf v) j) ->
       firedEvents (snd (onTimeUpdate a v s)) = [eventOf k]).
Proof.
  intros H.
  specialize (H Sample.ambient (Sample.videoAt 24) Sample.started Sample.catalog
                Q75 eq_refl eq_refl).
  assert (E : firedEvents
                (snd (onTimeUpdate Sample.ambient (Sample.videoAt 24) Sample.started))
              = ["firstQuartile"]) by (vm_compute; reflexivity).
  rewrite E in H. discriminate H.
  - split; reflexivity.
  - intros [] Hlt; discriminate Hlt.
Qed.

(** C2 (amended).  A position update with a known non-zero duration fires
    the lowest threshold that is due, and only that one: its event is
    handed to the tracker, a request is sent to each tracker of that
    event whose URL is not empty and not marked as fired, and its flag is
    set and no other.  With nothing due the update does nothing.  So the
    update at 80% after [start], with no quartile fired yet, fires
    [firstQuartile].  (The progress is the quotient the code computes,
    a division of two numbers.) *)
Theorem quartile_lowest_due a v s t :
  trackingURLs (player s) = Some t ->
  Double.falsy (duration v) = false ->
  (forall k,
     due (quartilesFired (player s)) (progressOf v) k ->
     (forall j, Double.ltb (threshold j) (threshold k) = true ->
                ~ due (quartilesFired (player s)) (progressOf v) j) ->
     firedEvents (snd (onTimeUpdate a v s)) = [eventOf k] /\
     sent (snd (onTimeUpdate a v s))
       = eventRequests (Tracker.ledger (world s)) (eventOf k) (VASTParser.tracking t) /\
     quartilesFired (player (fst (onTimeUpdate a v s)))
       = setFlag k (quartilesFired (player s))) /\
  ((forall k, ~ due (quartilesFired (player s)) (progressOf v) k) ->
   onTimeUpdate a v s = (s, [])) /\
  (progressOf v = Double.ratio 8 10 ->
   firstQuartile (quartilesFired (player s)) = false ->
   firedEvents (snd (onTimeUpdate a v s)) = ["firstQuartile"] /\
   sent (snd (onTimeUpdate a v s))
     = eventRequests (Tracker.ledger (world s)) "firstQuartile" (VASTParser.tracking t) /\
   quartilesFired (player (fst (onTimeUpdate a v s)))
     = setFlag Q25 (quartilesFired (player s))).
Proof.
  intros Ht Hd. split; [|split].
  - intros k Hdue Hlow.
    destruct (onTimeUpdate_fires a v s t k Ht Hd Hdue Hlow) as (Hv & _ & Hf & Hs).
    split; [exact Hf|]. split; [exact Hs|]. now injection Hv.
  - intros Hno. now apply onTimeUpdate_idle.
  - intros Hp Hq.
    destruct (onTimeUpdate_fires a v s t Q25 Ht Hd) as (Hv & _ & Hf & Hs).
    + split; [|exact Hq]. rewrite Hp. reflexivity.
    + intros [] Hlt; discriminate Hlt.
    + split; [exact Hf|]. split; [exact Hs|]. now injection Hv.
Qed.

Lemma quartile_lowest_due_witness :
  (trackingURLs (player Sample.started) = Some Sample.catalog /\
   Double.falsy (duration (Sample.videoAt 24)) = false /\
   Double.falsy (duration (Sample.videoAt 3)) = false /\
   progressOf (Sample.videoAt 24) = Double.ratio 8 10 /\
   firstQuartile (quartilesFired (player Sample.started)) = false) /\
  (firedEvents (snd (onTimeUpdate Sample.ambient (Sample.videoAt 24) Sample.started))
     = ["firstQuartile"] /\
   sent (snd (onTimeUpdate Sample.ambient (Sample.videoAt 24) Sample.started))
     = [("https://t.example/ev?e=firstQuartile", "event", Some "firstQuartile")] /\
   quartilesFired
     (player (fst (onTimeUpdate Sample.ambient (Sample.videoAt 24) Sample.started)))
     = {| start := true; firstQuartile := true; midpoint := false;
          thirdQuartile := false; complete := false |}) /\
  sent
    (snd (onTimeUpdate Sample.ambient (Sample.videoAt 24)
            (fst (onTimeUpdate Sample.ambient (Sample.videoAt 24) Sample.started))))
    = [("https://t.example/ev?e=midpoint", "event", Some "midpoint")] /\
  onTimeUpdate Sample.ambient (Sample.videoAt 3) Sample.started = (Sample.started, []).
Proof.
  split; [repeat split|].
  destruct (quartile_lowest_due Sample.ambient (Sample.videoAt 24) Sample.started
              Sample.catalog eq_refl eq_refl) as (_ & _ & Hjump).
  destruct (quartile_lowest_due Sample.ambient (Sample.videoAt 24)
              (fst (onTimeUpdate Sample.ambient (Sample.videoAt 24) Sample.started))
              Sample.catalog eq_refl eq_refl) as (Hlowest & _ & _).
  destruct (quartile_lowest_due Sample.ambient (Sample.videoAt 3) Sample.started
              Sample.catalog eq_refl eq_refl) as (_ & Hidle & _).
  split; [|split].
  - destruct (Hjump eq_refl eq_refl) as (Hf & Hs & Hq).
    split; [exact Hf|]. split; [rewrite Hs; vm_compute; reflexivity|].
    rewrite Hq. reflexivity.
  - destruct (Hlowest Q50) as (_ & Hs & _).
    + split; reflexivity.
    + intros [] Hlt; try discriminate Hlt. intros [_ Hflag]. discriminate Hflag.
    + rewrite Hs. vm_compute. reflexivity.
  - apply Hidle. intros [] [Hge _]; discriminate Hge.
Defined.

(** The quotient is rounded as a division of numbers is: 0.24 seconds of
    0.32 is below three quarters, but the two numbers nearest to them
    divide to 0.75 exactly, so that update fires [thirdQuartile] once the
    two lower thresholds have fired. *)
Lemma rounded_quotient_fires :
  progressOf Sample.shortVideo = threeQuarters /\
  sent (snd (onTimeUpdate Sample.ambient Sample.shortVideo Sample.afterMidpoint))
    = [("https://t.example/ev?e=thirdQuartile", "event", Some "thirdQuartile")].
Proof. vm_compute. split; reflexivity. Qed.








End LifecycleRequests.

(** ** Reset and reload, request by request *)

Section ResetAndReload.

Import VideoPlayer.





End ResetAndReload.
